(** * Minimalist UI integration: configuration record, lifecycle and asset installer

    A shallow embedding of [base.py], [__init__.py], [const.py] and [enums.py].

    The integration is orchestration code: it mutates one shared configuration
    record and one shared system-status record, copies files, and calls host
    APIs.  The embedding therefore consists of

    - a model of the Python values the configuration record may hold,
    - a model of the file system as observed through [os] and [shutil],
    - a model of the host ([hass]) as the mutable registries the code touches,
    - a state-and-exception monad in which the methods of [MuiBase] and
      [async_initialize_integration] are written statement by statement.

    Only exceptions deriving from Python's [Exception] are modelled; the
    process-level [BaseException]s (interpreter exit, task cancellation) are
    outside the model, as are symbolic links, permissions, file metadata and
    the limits an operating system puts on file names (their length, the
    NUL character). *)

From Stdlib Require Import Ascii.
From stdpp Require Import gmap strings list fin_maps pretty.

Set Warnings "-register-all".
Open Scope string_scope.
Open Scope list_scope.

(* ===================================================================== *)
(** ** Constants ([const.py]) and enumerations ([enums.py])              *)
(* ===================================================================== *)

Definition NAME : string := "Minimalist UI".
Definition DOMAIN : string := "minimalist_ui".
Definition DEFAULT_LANGUAGE : string := "English (GB)".
Definition DEFAULT_SIDEPANEL_ENABLED : bool := true.
Definition DEFAULT_SIDEPANEL_TITLE : string := NAME.
Definition DEFAULT_SIDEPANEL_ICON : string := "mdi:monitor-dashboard".
Definition DEFAULT_THEME : string := "minimalist-desktop".
Definition DEFAULT_THEME_PATH : string := "themes/".
Definition DEFAULT_INCLUDE_OTHER_CARDS : bool := false.
Definition SOURCE_IMPORT : string := "import".

(** [LANGUAGES = {"English (GB)": "en"}] *)
Definition LANGUAGES : gmap string string := {[ "English (GB)" := "en" ]}.

Inductive ConfigurationType := YAML | CONFIG_ENTRY.

Inductive muiDisabledReason := RATE_LIMIT | INVALID_TOKEN | LOAD_MUI.

Inductive ConfigEntryState := NOT_LOADED | LOADED | SETUP_ERROR.

#[global] Instance ConfigurationType_eq_dec : EqDecision ConfigurationType.
Proof. solve_decision. Defined.
#[global] Instance muiDisabledReason_eq_dec : EqDecision muiDisabledReason.
Proof. solve_decision. Defined.
#[global] Instance ConfigEntryState_eq_dec : EqDecision ConfigEntryState.
Proof. solve_decision. Defined.

(** The [str] value of an enum member ([class ConfigurationType(str, Enum)]). *)
Definition config_type_value (c : ConfigurationType) : string :=
  match c with YAML => "yaml" | CONFIG_ENTRY => "config_entry" end.

(* ===================================================================== *)
(** ** Python values                                                     *)
(* ===================================================================== *)

(** A host configuration entry, as far as the integration reads or writes
    it.  The record is parametric in the type of the values stored in
    [data] and [options] so that it can be nested in [pyval].  The two
    mappings are kept as their items in iteration order, as a [dict] is
    below. *)
Record ConfigEntryOf (V : Type) := mkConfigEntry {
  entry_id : string;
  source : string;
  data : list (string * V);
  options : list (string * V);
  state : ConfigEntryState;
  reason : option string;
}.
Arguments mkConfigEntry {V}.
Arguments entry_id {V}.
Arguments source {V}.
Arguments data {V}.
Arguments options {V}.
Arguments state {V}.
Arguments reason {V}.

(** The values a configuration attribute can hold: what a YAML document or
    a config entry can supply, plus the two kinds of object the code itself
    stores ([ConfigurationType] members and the [ConfigEntry]).  Dictionaries
    have [str] keys ([dict[str, Any]] in the source's annotations) and are
    kept as their items in iteration order, which is the order a [for] loop
    over the dictionary follows. *)
Inductive pyval :=
| PNone
| PBool (b : bool)
| PInt (z : Z)
| PStr (s : string)
| PList (l : list pyval)
| PDict (d : list (string * pyval))
| PConfigType (c : ConfigurationType)
| PEntry (e : ConfigEntryOf pyval).

Abbreviation ConfigEntry := (ConfigEntryOf pyval).

(** Python truthiness, as used by [if x:] and [not x]. *)
Definition truthy (v : pyval) : bool :=
  match v with
  | PNone => false
  | PBool b => b
  | PInt z => negb (Z.eqb z 0)
  | PStr s => negb (String.eqb s EmptyString)
  | PList l => match l with [] => false | _ => true end
  | PDict d => match d with [] => false | _ => true end
  | PConfigType _ => true
  | PEntry _ => true
  end.

(** [v == ConfigurationType.CONFIG_ENTRY].  The enum mixes in [str], so the
    member compares equal to itself and to the plain string of its value. *)
Definition is_config_entry (v : pyval) : bool :=
  match v with
  | PConfigType CONFIG_ENTRY => true
  | PStr s => String.eqb s (config_type_value CONFIG_ENTRY)
  | _ => false
  end.

(** [isinstance(v, dict)] *)
Definition is_dict (v : pyval) : bool :=
  match v with PDict _ => true | _ => false end.

(** [str(v)], the text an f-string interpolates, for [None], [bool], [int]
    and [str].  The text of a container, of an enum member and of an entry
    object belongs to the interpreter and to the host; it is [render v],
    which the host supplies (see [object_text] below). *)
Definition py_str (render : pyval → string) (v : pyval) : string :=
  match v with
  | PNone => "None"
  | PBool true => "True"
  | PBool false => "False"
  | PInt z => pretty z
  | PStr s => s
  | _ => render v
  end.

(** ** Dictionaries *)

(** [d[k] = v]: the value of a key that is there is replaced where the key
    stands, a new key goes to the end. *)
Fixpoint dict_set (k : string) (v : pyval) (d : list (string * pyval))
    : list (string * pyval) :=
  match d with
  | [] => [(k, v)]
  | (k', v') :: r => if decide (k' = k) then (k, v) :: r else (k', v') :: dict_set k v r
  end.

(** The dictionary a display [{k1: v1, **d, ...}] builds: the items are set
    one after the other. *)
Definition dict_of (items : list (string * pyval)) : list (string * pyval) :=
  foldl (λ d kv, dict_set kv.1 kv.2 d) [] items.

(** [d.get(k)] *)
Fixpoint dict_get (d : list (string * pyval)) (k : string) : option pyval :=
  match d with
  | [] => None
  | (k', v) :: r => if decide (k' = k) then Some v else dict_get r k
  end.

(* ===================================================================== *)
(** ** Exceptions                                                        *)
(* ===================================================================== *)

Abbreviation path := (list string).

(** Calls into the host that the integration does not own.  Whether such a
    call raises is decided by the host; see [faults] below. *)
Inductive host_call :=
| AddExtraJsUrl
| RegisterStaticPath
| NewLovelaceYAML
| RegisterPanel
| RemovePanel
| BusFire
| ServicesRegister
| GetIntegration
| GetClientSession
| AddJob
| CreateTask
| AddUpdateListener.

#[global] Instance host_call_eq_dec : EqDecision host_call.
Proof. solve_decision. Defined.

(** The exceptions that can be raised; all derive from [Exception]. *)
Inductive exn :=
| PlainException (msg : string)
| AttributeError (msg : string)
| KeyError (key : pyval)
| TypeError (msg : string)
| FileNotFoundError (p : path)
| FileExistsError (p : path)
| NotADirectoryError (p : path)
| IsADirectoryError (p : path)
| SameFileError (p : path)
| ShutilError (errors : list (path * path))
| HostError (c : host_call).

(* ===================================================================== *)
(** ** File system                                                       *)
(* ===================================================================== *)

(** A path is the list of its components from the root.  The file system
    maps the paths that exist to what is there; the root always exists and
    is a directory.  *)
Inductive entry := EFile (content : string) | EDir.

#[global] Instance entry_eq_dec : EqDecision entry.
Proof. solve_decision. Defined.

Abbreviation filesystem := (gmap path entry).

Definition node_at (fs : filesystem) (p : path) : option entry :=
  match p with [] => Some EDir | _ => fs !! p end.

(** [os.path.exists] *)
Definition path_exists (fs : filesystem) (p : path) : bool :=
  match node_at fs p with Some _ => true | None => false end.

(** [os.path.isdir] *)
Definition is_dir (fs : filesystem) (p : path) : bool :=
  match node_at fs p with Some EDir => true | _ => false end.

Definition is_file (fs : filesystem) (p : path) : bool :=
  match node_at fs p with Some (EFile _) => true | _ => false end.

Definition parent (p : path) : path := removelast p.

Definition basename (p : path) : string := List.last p EmptyString.

(** The non-empty prefixes of a path, shortest first. *)
Fixpoint prefixes (p : path) : list path :=
  match p with
  | [] => []
  | n :: r => [n] :: map (cons n) (prefixes r)
  end.

(** [strip_prefix p q = Some r] when [q = p ++ r]. *)
Fixpoint strip_prefix (p q : path) : option path :=
  match p, q with
  | [], _ => Some q
  | a :: p', b :: q' => if decide (a = b) then strip_prefix p' q' else None
  | _ :: _, [] => None
  end.

(** The outcome of a file-system operation: the exception raised, if any,
    and the file system afterwards. *)
Definition fs_result : Type := option exn * filesystem.

(** [shutil.rmtree(p, ignore_errors=True)]: a directory is removed with
    everything below it; on anything else the call fails and the failure
    is ignored. *)
Definition rmtree (fs : filesystem) (p : path) : filesystem :=
  if is_dir fs p then filter (λ kv, ¬ p `prefix_of` kv.1) fs else fs.

(** [os.makedirs(p, exist_ok=True)]: every missing directory on the way to
    [p] is created.  A regular file at [p] raises [FileExistsError], a
    regular file above [p] raises [NotADirectoryError]. *)
Definition makedirs (fs : filesystem) (p : path) : fs_result :=
  match list_find (λ q, is_file fs q = true) (prefixes p) with
  | Some (_, q) =>
      (Some (if decide (q = p) then FileExistsError p else NotADirectoryError q), fs)
  | None => (None, foldr (λ q acc, <[q := EDir]> acc) fs (prefixes p))
  end.

(** Writing a regular file with content [c] at [target], as [open(target,
    "wb")] followed by a write does: the parent must be a directory and the
    target must not be one. *)
Definition write_file (fs : filesystem) (target : path) (c : string) : fs_result :=
  match node_at fs target with
  | Some EDir => (Some (IsADirectoryError target), fs)
  | _ =>
      match node_at fs (parent target) with
      | Some EDir => (None, <[target := EFile c]> fs)
      | Some (EFile _) => (Some (NotADirectoryError target), fs)
      | None => (Some (FileNotFoundError target), fs)
      end
  end.

(** Where a copy of [src] to [dst] lands: in [dst] under the source's
    name when [dst] is a directory, on [dst] otherwise. *)
Definition copy_target (fs : filesystem) (src dst : path) : path :=
  if is_dir fs dst then dst ++ [basename src] else dst.

(** The copy of a regular file [src] with content [c] to [dst]. *)
Definition copy_to (fs : filesystem) (src : path) (c : string) (dst : path) : fs_result :=
  let target := copy_target fs src dst in
  if decide (target = src) then (Some (SameFileError src), fs)
  else write_file fs target c.

(** [shutil.copy2(src, dst)] *)
Definition copy2 (fs : filesystem) (src dst : path) : fs_result :=
  match node_at fs src with
  | None => (Some (FileNotFoundError src), fs)
  | Some EDir => (Some (IsADirectoryError src), fs)
  | Some (EFile c) => copy_to fs src c dst
  end.

(** What lies at or below [src]: the part of the file system a copy of the
    tree at [src] reads. *)
Definition subtree (fs : filesystem) (src : path) : filesystem :=
  filter (λ kv, src `prefix_of` kv.1) fs.

Definition child_of (p : path) (kv : path * entry) : option (string * entry) :=
  match strip_prefix p kv.1 with
  | Some [n] => Some (n, kv.2)
  | _ => None
  end.

(** [os.scandir(p)]: the names in directory [p] with what they are. *)
Definition listdir (fs : filesystem) (p : path) : list (string * entry) :=
  omap (child_of p) (map_to_list fs).

(** No path of the file system is longer than this. *)
Definition depth_bound (fs : filesystem) : nat :=
  map_fold (λ k _ acc, max (List.length k) acc) 0 fs.

(** One entry [ne] of the directory [src] in the loop of
    [shutil.copytree(src, dst, dirs_exist_ok=True)], [dst] being a
    directory.  A sub-directory is created at the destination unless it is
    there and is copied in turn by [recurse]; a file is copied with
    [copy2].  An [OSError] is recorded with the pair of paths it arose at,
    and the loop goes on with the next entry. *)
Definition copytree_entry
    (recurse : path → path → filesystem * list (path * path) → filesystem * list (path * path))
    (src dst : path) (st : filesystem * list (path * path)) (ne : string * entry)
    : filesystem * list (path * path) :=
  let srcname := src ++ [ne.1] in
  let dstname := dst ++ [ne.1] in
  match ne.2 with
  | EDir =>
      match node_at st.1 dstname with
      | None => recurse srcname dstname (<[dstname := EDir]> st.1, st.2)
      | Some EDir => recurse srcname dstname st
      | Some (EFile _) => (st.1, st.2 ++ [(srcname, dstname)])
      end
  | EFile c =>
      match copy_to st.1 srcname c dstname with
      | (None, fs') => (fs', st.2)
      | (Some _, _) => (st.1, st.2 ++ [(srcname, dstname)])
      end
  end.

(** The loop over the entries of [src].  [snap] is the source tree as it
    was when the copy began; [fuel] bounds the depth of the recursion and
    is not exhausted when it exceeds the depth of [snap]. *)
Fixpoint copytree_rec (fuel : nat) (snap : filesystem) (src dst : path)
    (st : filesystem * list (path * path)) : filesystem * list (path * path) :=
  match fuel with
  | 0 => st
  | S fuel' =>
      foldl (copytree_entry (copytree_rec fuel' snap) src dst) st (listdir snap src)
  end.

(** [shutil.copytree(src, dst, dirs_exist_ok=True)].  The source must be a
    directory; the destination directory is made; then every entry is
    copied, and the errors met on the way are raised together at the end,
    after everything that could be copied has been.  The source tree is read
    as it is when the call begins, which agrees with Python when neither
    tree contains the other. *)
Definition copytree (fs : filesystem) (src dst : path) : fs_result :=
  match node_at fs src with
  | None => (Some (FileNotFoundError src), fs)
  | Some (EFile _) => (Some (NotADirectoryError src), fs)
  | Some EDir =>
      match makedirs fs dst with
      | (Some e, fs') => (Some e, fs')
      | (None, fs1) =>
          let snap := subtree fs src in
          let st := copytree_rec (S (depth_bound snap)) snap src dst (fs1, []) in
          (match st.2 with [] => None | _ => Some (ShutilError st.2) end, st.1)
      end
  end.

(** A component of a path as it is written: a name, [..] or [.]. *)
Inductive component := Name (n : string) | Up | Here.

Fixpoint split_path_aux (s : string) (cur : string) : list string :=
  match s with
  | EmptyString => [cur]
  | String a r =>
      if Ascii.eqb a "/"%char then cur :: split_path_aux r EmptyString
      else split_path_aux r (cur +:+ String a EmptyString)
  end.

Definition component_of (n : string) : component :=
  if String.eqb n ".." then Up else if String.eqb n "." then Here else Name n.

(** Splitting the text of a path at its separators.  Empty components
    vanish, as they do when the operating system resolves the path. *)
Definition split_path (s : string) : list component :=
  map component_of (filter (λ n, n ≠ EmptyString) (split_path_aux s EmptyString)).

(** Where a written path leads from the directory [cur]: a name goes
    down, [..] goes up (the root is its own parent), [.] stays.  This is
    the file or directory the operating system resolves the path to when
    every directory the path passes through is there. *)
Fixpoint target (cur : path) (cs : list component) : path :=
  match cs with
  | [] => cur
  | Name n :: r => target (cur ++ [n]) r
  | Up :: r => target (parent cur) r
  | Here :: r => target cur r
  end.

(** The directories at which a written path takes a [..] or a [.], in the
    order it comes to them: they must be there, and be directories, for the
    path to resolve.  A path written with names only passes through none. *)
Fixpoint walked (cur : path) (cs : list component) : list path :=
  match cs with
  | [] => []
  | Name n :: r => walked (cur ++ [n]) r
  | Up :: r => cur :: walked (parent cur) r
  | Here :: r => cur :: walked cur r
  end.

Definition is_absolute (s : string) : bool :=
  match s with String a _ => Ascii.eqb a "/"%char | EmptyString => false end.

(** [os.path.join(base, s)], as the path it resolves to: an absolute [s]
    replaces [base]. *)
Definition path_join (base : path) (s : string) : path :=
  target (if is_absolute s then [] else base) (split_path s).

(** The directories [os.path.join(base, s)] passes through with [..] or
    [.]. *)
Definition path_walked (base : path) (s : string) : list path :=
  walked (if is_absolute s then [] else base) (split_path s).

(** [os.makedirs(name, exist_ok=True)] for a name that resolves to [p]
    and passes through [ws]: the directories it passes through are made on
    the way, with everything above them, and a regular file where one of
    them should be raises [NotADirectoryError]. *)
Fixpoint makedirs_through (fs : filesystem) (ws : list path) (p : path) : fs_result :=
  match ws with
  | [] => makedirs fs p
  | w :: r =>
      match makedirs fs w with
      | (None, fs1) => makedirs_through fs1 r p
      | (Some (FileExistsError q), fs1) => (Some (NotADirectoryError q), fs1)
      | (Some e, fs1) => (Some e, fs1)
      end
  end.

(** [shutil.copytree(src, name, dirs_exist_ok=True)] for a destination
    name that resolves to [dst] and passes through [ws].  It is [copytree]
    but for the making of the destination directory. *)
Definition copytree_through (fs : filesystem) (src : path) (ws : list path) (dst : path)
    : fs_result :=
  match node_at fs src with
  | None => (Some (FileNotFoundError src), fs)
  | Some (EFile _) => (Some (NotADirectoryError src), fs)
  | Some EDir =>
      match makedirs_through fs ws dst with
      | (Some e, fs') => (Some e, fs')
      | (None, fs1) =>
          let snap := subtree fs src in
          let st := copytree_rec (S (depth_bound snap)) snap src dst (fs1, []) in
          (match st.2 with [] => None | _ => Some (ShutilError st.2) end, st.1)
      end
  end.

(* ===================================================================== *)
(** ** The host and the shared records                                   *)
(* ===================================================================== *)

(** [homeassistant.loader.Integration], as far as it is read. *)
Record Integration := mkIntegration {
  file_path : path;
  integration_version : option string;
}.

(** [MuiSystem] *)
Record MuiSystem := mkMuiSystem {
  disabled_reason : option muiDisabledReason;
  running : bool;
}.

(** [MuiSystem.disabled] *)
Definition disabled (s : MuiSystem) : bool :=
  match disabled_reason s with Some _ => true | None => false end.

(** The instance attributes of a [MuiBase] object.  [hass] tells whether
    [self.hass] is the host or still [None].  [configuration] and [system]
    are class attributes: one [MuiConfiguration] and one [MuiSystem] object
    shared by every instance, kept in the [World] below. *)
Record MuiBase := mkMuiBase {
  integration : option Integration;
  hass : bool;
  version : option string;
}.

(** [MuiBase()] *)
Definition MuiBase_new : MuiBase :=
  {| integration := None; hass := false; version := None |}.

(** A dashboard configuration, as [configure_dashboard] registers it. *)
Record DashboardConfig := mkDashboardConfig {
  mode : string;
  icon : pyval;
  title : pyval;
  filename : string;
  show_in_sidebar : bool;
  require_admin : bool;
}.

(** Work handed to the host's scheduler. *)
Inductive host_task :=
| RemoveConfigEntry (id : string)
| StartReauth (id : string).

(** The host: its configuration directory, the registries the integration
    writes to, [faults], the host calls that raise when made, and
    [object_text], the text that [str()] gives for the objects whose
    rendering the interpreter and the host decide. *)
Record Hass := mkHass {
  config_dir : path;
  faults : host_call → bool;
  integrations : gmap string Integration;
  lovelace_dashboards : option (gmap string DashboardConfig);
  panels : gmap string DashboardConfig;
  extra_js_urls : list string;
  static_paths : list (string * path * bool);
  bus_events : list string;
  services : gmap (string * string) MuiBase;
  tasks : list host_task;
  update_listeners : list string;
  data_mui : option MuiBase;
  object_text : pyval → string;
}.

Inductive log_level := LvlDebug | LvlInfo | LvlError.

Inductive log_record :=
| LogText (lvl : log_level) (msg : string)
| LogException (e : exn).

Record World := mkWorld {
  system : MuiSystem;
  configuration : gmap string pyval;
  host : Hass;
  files : filesystem;
  log : list log_record;
}.

Definition set_system (s : MuiSystem) (w : World) : World :=
  {| system := s; configuration := configuration w; host := host w;
     files := files w; log := log w |}.

Definition set_configuration (c : gmap string pyval) (w : World) : World :=
  {| system := system w; configuration := c; host := host w;
     files := files w; log := log w |}.

Definition set_host (h : Hass) (w : World) : World :=
  {| system := system w; configuration := configuration w; host := h;
     files := files w; log := log w |}.

Definition set_files (fs : filesystem) (w : World) : World :=
  {| system := system w; configuration := configuration w; host := host w;
     files := fs; log := log w |}.

Definition add_log (r : log_record) (w : World) : World :=
  {| system := system w; configuration := configuration w; host := host w;
     files := files w; log := log w ++ [r] |}.

Definition set_lovelace_dashboards (d : option (gmap string DashboardConfig)) (h : Hass) : Hass :=
  {| config_dir := config_dir h; faults := faults h; integrations := integrations h;
     lovelace_dashboards := d; panels := panels h; extra_js_urls := extra_js_urls h;
     static_paths := static_paths h; bus_events := bus_events h; services := services h;
     tasks := tasks h; update_listeners := update_listeners h; data_mui := data_mui h;
     object_text := object_text h |}.

Definition set_panels (p : gmap string DashboardConfig) (h : Hass) : Hass :=
  {| config_dir := config_dir h; faults := faults h; integrations := integrations h;
     lovelace_dashboards := lovelace_dashboards h; panels := p;
     extra_js_urls := extra_js_urls h;
     static_paths := static_paths h; bus_events := bus_events h; services := services h;
     tasks := tasks h; update_listeners := update_listeners h; data_mui := data_mui h;
     object_text := object_text h |}.

Definition set_extra_js_urls (l : list string) (h : Hass) : Hass :=
  {| config_dir := config_dir h; faults := faults h; integrations := integrations h;
     lovelace_dashboards := lovelace_dashboards h; panels := panels h;
     extra_js_urls := l;
     static_paths := static_paths h; bus_events := bus_events h; services := services h;
     tasks := tasks h; update_listeners := update_listeners h; data_mui := data_mui h;
     object_text := object_text h |}.

Definition set_static_paths (l : list (string * path * bool)) (h : Hass) : Hass :=
  {| config_dir := config_dir h; faults := faults h; integrations := integrations h;
     lovelace_dashboards := lovelace_dashboards h; panels := panels h;
     extra_js_urls := extra_js_urls h;
     static_paths := l; bus_events := bus_events h; services := services h;
     tasks := tasks h; update_listeners := update_listeners h; data_mui := data_mui h;
     object_text := object_text h |}.

Definition set_bus_events (l : list string) (h : Hass) : Hass :=
  {| config_dir := config_dir h; faults := faults h; integrations := integrations h;
     lovelace_dashboards := lovelace_dashboards h; panels := panels h;
     extra_js_urls := extra_js_urls h;
     static_paths := static_paths h; bus_events := l; services := services h;
     tasks := tasks h; update_listeners := update_listeners h; data_mui := data_mui h;
     object_text := object_text h |}.

Definition set_services (s : gmap (string * string) MuiBase) (h : Hass) : Hass :=
  {| config_dir := config_dir h; faults := faults h; integrations := integrations h;
     lovelace_dashboards := lovelace_dashboards h; panels := panels h;
     extra_js_urls := extra_js_urls h;
     static_paths := static_paths h; bus_events := bus_events h; services := s;
     tasks := tasks h; update_listeners := update_listeners h; data_mui := data_mui h;
     object_text := object_text h |}.

Definition set_tasks (l : list host_task) (h : Hass) : Hass :=
  {| config_dir := config_dir h; faults := faults h; integrations := integrations h;
     lovelace_dashboards := lovelace_dashboards h; panels := panels h;
     extra_js_urls := extra_js_urls h;
     static_paths := static_paths h; bus_events := bus_events h; services := services h;
     tasks := l; update_listeners := update_listeners h; data_mui := data_mui h;
     object_text := object_text h |}.

Definition set_update_listeners (l : list string) (h : Hass) : Hass :=
  {| config_dir := config_dir h; faults := faults h; integrations := integrations h;
     lovelace_dashboards := lovelace_dashboards h; panels := panels h;
     extra_js_urls := extra_js_urls h;
     static_paths := static_paths h; bus_events := bus_events h; services := services h;
     tasks := tasks h; update_listeners := l; data_mui := data_mui h;
     object_text := object_text h |}.

Definition set_data_mui (m : option MuiBase) (h : Hass) : Hass :=
  {| config_dir := config_dir h; faults := faults h; integrations := integrations h;
     lovelace_dashboards := lovelace_dashboards h; panels := panels h;
     extra_js_urls := extra_js_urls h;
     static_paths := static_paths h; bus_events := bus_events h; services := services h;
     tasks := tasks h; update_listeners := update_listeners h; data_mui := m;
     object_text := object_text h |}.

(* ===================================================================== *)
(** ** State and exceptions                                              *)
(* ===================================================================== *)

(** A statement either completes with a value or raises; either way the
    world is what the statement made of it up to that point. *)
Inductive outcome (A : Type) :=
| Ok (a : A)
| Raised (e : exn).
Arguments Ok {A}.
Arguments Raised {A}.

Definition M (A : Type) : Type := World → outcome A * World.

Definition ret {A} (a : A) : M A := λ w, (Ok a, w).

Definition bind {A B} (m : M A) (k : A → M B) : M B :=
  λ w, match m w with
       | (Ok a, w') => k a w'
       | (Raised e, w') => (Raised e, w')
       end.

Definition raise {A} (e : exn) : M A := λ w, (Raised e, w).

(** [try: body  except Exception as e: handler e] *)
Definition try_except {A} (body : M A) (handler : exn → M A) : M A :=
  λ w, match body w with
       | (Ok a, w') => (Ok a, w')
       | (Raised e, w') => handler e w'
       end.

Definition gets {A} (f : World → A) : M A := λ w, (Ok (f w), w).

Definition modify (f : World → World) : M unit := λ w, (Ok tt, f w).

#[global] Instance M_ret : MRet M := @ret.
#[global] Instance M_bind : MBind M := λ A B k m, bind m k.

(** [for a in l: f a] *)
Fixpoint for_each {A} (l : list A) (f : A → M unit) : M unit :=
  match l with
  | [] => ret tt
  | a :: r => f a ;; for_each r f
  end.

Definition log_text (lvl : log_level) (msg : string) : M unit :=
  modify (add_log (LogText lvl msg)).

(** [self.log.error(exception)] *)
Definition log_exception (e : exn) : M unit :=
  modify (add_log (LogException e)).

(** A file-system call: the file system changes as the call changed it,
    also when the call raises. *)
Definition fs_call (op : filesystem → fs_result) : M unit :=
  λ w, match op (files w) with
       | (None, fs') => (Ok tt, set_files fs' w)
       | (Some e, fs') => (Raised e, set_files fs' w)
       end.

(** A call into the host raises when the host makes it raise. *)
Definition host_does (c : host_call) : M unit :=
  λ w, if faults (host w) c then (Raised (HostError c), w) else (Ok tt, w).

Definition none_has_no (name : string) : exn :=
  AttributeError ("'NoneType' object has no attribute '" +:+ name +:+ "'").

(** [self.hass.<name>]: an [AttributeError] while [self.hass] is [None]. *)
Definition self_hass (self : MuiBase) (name : string) : M unit :=
  if hass self then ret tt else raise (none_has_no name).

(** [self.hass.config.path(s)], as the path it resolves to.  The path of
    a literal written with names only is all there is to it; for the one
    path that is not a literal, the theme path, [install_assets] also takes
    the directories it passes through. *)
Definition config_path (self : MuiBase) (s : string) : M path :=
  self_hass self "config" ;;
  gets (λ w, path_join (config_dir (host w)) s).

(** [MuiBase.integration_dir] *)
Definition integration_dir (self : MuiBase) : M path :=
  match integration self with
  | Some i => ret (file_path i)
  | None => raise (none_has_no "file_path")
  end.

(** [MuiBase.templates_dir] *)
Definition templates_dir (self : MuiBase) : M path :=
  d ← integration_dir self;
  ret (d ++ ["__ui_minimalist__"; "mui_templates"]).

(* ===================================================================== *)
(** ** [MuiConfiguration]                                                *)
(* ===================================================================== *)

(** The class attributes the dataclass leaves on [MuiConfiguration]: the
    defaults of every field but [config], whose default is a factory. *)
Definition MuiConfiguration_class : gmap string pyval :=
  list_to_map [
    ("config_entry", PNone);
    ("config_type", PNone);
    ("sidepanel_enabled", PBool DEFAULT_SIDEPANEL_ENABLED);
    ("sidepanel_icon", PStr DEFAULT_SIDEPANEL_ICON);
    ("sidepanel_title", PStr DEFAULT_SIDEPANEL_TITLE);
    ("adaptive_ui_enabled", PBool DEFAULT_SIDEPANEL_ENABLED);
    ("adaptive_ui_icon", PStr DEFAULT_SIDEPANEL_ICON);
    ("adaptive_ui_title", PStr DEFAULT_SIDEPANEL_TITLE);
    ("theme_path", PStr DEFAULT_THEME_PATH);
    ("theme", PStr DEFAULT_THEME);
    ("plugin_path", PStr "www/community/");
    ("include_other_cards", PBool DEFAULT_INCLUDE_OTHER_CARDS);
    ("language", PStr DEFAULT_LANGUAGE);
    ("token", PNone)
  ].

(** [MuiConfiguration()]: the instance dictionary after [__init__]. *)
Definition MuiConfiguration_new : gmap string pyval :=
  <["config" := PDict []]> MuiConfiguration_class.

(** Attribute lookup: the instance dictionary, then the class. *)
Definition getattr (cfg : gmap string pyval) (name : string) : option pyval :=
  match cfg !! name with
  | Some v => Some v
  | None => MuiConfiguration_class !! name
  end.

(** [self.configuration.<name>] *)
Definition attr (name : string) : M pyval :=
  λ w, match getattr (configuration w) name with
       | Some v => (Ok v, w)
       | None =>
           (Raised (AttributeError
              ("'MuiConfiguration' object has no attribute '" +:+ name +:+ "'")), w)
       end.

(** Storing [v] under [name] in the instance dictionary. *)
Definition store (name : string) (v : pyval) : M unit :=
  modify (λ w, set_configuration (<[name := v]> (configuration w)) w).

(** The instance dictionary with the items of a [dict]. *)
Definition instance_dict (items : list (string * pyval)) : gmap string pyval :=
  foldl (λ m kv, <[kv.1 := kv.2]> m) ∅ items.

(** [self.configuration.__setattr__(name, v)].  The method is looked up as
    an attribute, so an instance attribute called [__setattr__] stands in
    for it, and no value a configuration can hold is callable.  Otherwise
    [object.__setattr__] runs: [__class__] takes only a class, [__dict__]
    replaces the instance dictionary and takes only a [dict],
    [__weakref__] cannot be written, and any other name is stored in the
    instance dictionary. *)
Definition setattr (name : string) (v : pyval) : M unit :=
  shadow ← gets (λ w, configuration w !! "__setattr__");
  match shadow with
  | Some _ => raise (TypeError "object is not callable")
  | None =>
      if String.eqb name "__class__" then
        raise (TypeError "__class__ must be set to a class")
      else if String.eqb name "__dict__" then
        match v with
        | PDict items => modify (set_configuration (instance_dict items))
        | _ => raise (TypeError "__dict__ must be set to a dictionary")
        end
      else if String.eqb name "__weakref__" then
        raise (AttributeError "attribute '__weakref__' is not writable")
      else store name v
  end.

(** [MuiConfiguration.update_from_dict] *)
Definition update_from_dict (data : pyval) : M unit :=
  match data with
  | PDict d => for_each d (λ kv, setattr kv.1 kv.2)
  | _ => raise (PlainException "Configuration is not valid.")
  end.

(** [self.configuration.update_from_dict(data)]: the method is looked up
    on the record, where an instance attribute of that name stands before
    the method of the class. *)
Definition call_update_from_dict (data : pyval) : M unit :=
  shadow ← gets (λ w, configuration w !! "update_from_dict");
  match shadow with
  | Some _ => raise (TypeError "object is not callable")
  | None => update_from_dict data
  end.

(* ===================================================================== *)
(** ** [MuiBase]                                                         *)
(* ===================================================================== *)

Definition set_disabled_reason (r : option muiDisabledReason) (w : World) : World :=
  set_system {| disabled_reason := r; running := running (system w) |} w.

Definition set_running (b : bool) (w : World) : World :=
  set_system {| disabled_reason := disabled_reason (system w); running := b |} w.

Definition with_state (st : ConfigEntryState) (e : ConfigEntry) : ConfigEntry :=
  {| entry_id := entry_id e; source := source e; data := data e;
     options := options e; state := st; reason := reason e |}.

Definition with_reason (r : string) (e : ConfigEntry) : ConfigEntry :=
  {| entry_id := entry_id e; source := source e; data := data e;
     options := options e; state := state e; reason := Some r |}.

(** [self.configuration.config_entry.<name> = ...]: only an entry object
    takes the assignment; the record goes on holding the entry, which now
    has the new value. *)
Definition update_config_entry (name : string) (f : ConfigEntry → ConfigEntry) : M ConfigEntry :=
  ce ← attr "config_entry";
  match ce with
  | PEntry e => store "config_entry" (PEntry (f e));; ret (f e)
  | PNone => raise (none_has_no name)
  | _ => raise (AttributeError ("object has no attribute '" +:+ name +:+ "'"))
  end.

(** [MuiBase.disable_mui] *)
Definition disable_mui (self : MuiBase) (reason : muiDisabledReason) : M unit :=
  current ← gets (λ w, disabled_reason (system w));
  if decide (current = Some reason) then ret tt
  else
    modify (set_disabled_reason (Some reason));;
    if decide (reason = INVALID_TOKEN) then
      update_config_entry "state" (with_state SETUP_ERROR);;
      e ← update_config_entry "reason" (with_reason "Authentiation Failed");
      self_hass self "add_job";;
      host_does AddJob;;
      modify (λ w, set_host (set_tasks (tasks (host w) ++ [StartReauth (entry_id e)]) (host w)) w)
    else ret tt.

(** [MuiBase.enable_mui] *)
Definition enable_mui : M unit :=
  current ← gets (λ w, disabled_reason (system w));
  match current with
  | Some _ =>
      modify (set_disabled_reason None);;
      log_text LvlInfo "MUI is enabled"
  | None => ret tt
  end.

(** The double quote character, for log messages. *)
Definition dq : string := String (ascii_of_nat 34) EmptyString.

Definition dependency_resource_paths : list string :=
  [ "button-card"; "light-entity-card"; "lovelace-card-mod";
    "lovelace-auto-entities"; "mini-graph-card"; "mini-media-player";
    "my-cards"; "simple-weather-card"; "lovelace-layout-card";
    "lovelace-state-switch"; "weather-radar-card" ].

(** [os.path.exists(p)] *)
Definition os_path_exists (p : path) : M bool :=
  gets (λ w, path_exists (files w) p).

(** [add_extra_js_url(self.hass, url)] *)
Definition add_extra_js_url (url : string) : M unit :=
  host_does AddExtraJsUrl;;
  modify (λ w, set_host (set_extra_js_urls (extra_js_urls (host w) ++ [url]) (host w)) w).

(** The statements inside the [try] of [configure_plugins]. *)
Definition configure_plugins_body (self : MuiBase) : M unit :=
  p ← config_path self "custom_components/browser_mod";
  found ← os_path_exists p;
  (if negb found then
     log_text LvlError
       ("HACS Integration repo " +:+ dq +:+ "browser mod" +:+ dq +:+ " is not installed!")
   else ret tt);;
  for_each dependency_resource_paths (λ p,
    include_other_cards ← attr "include_other_cards";
    if negb (truthy include_other_cards) then
      q ← config_path self ("www/community/" +:+ p);
      found ← os_path_exists q;
      if negb found then
        log_text LvlError
          ("HACS Frontend repo " +:+ dq +:+ p +:+ dq
           +:+ " is not installed, See Integration Configuration.")
      else ret tt
    else
      q ← config_path self ("www/community/" +:+ p);
      found ← os_path_exists q;
      if found : bool then
        log_text LvlError
          ("HACS Frontend repo " +:+ dq +:+ p +:+ dq
           +:+ " is already installed, Remove it or disable include custom cards")
      else ret tt);;
  include_other_cards ← attr "include_other_cards";
  (if truthy include_other_cards then
     for_each dependency_resource_paths (λ c,
       self_hass self "data";;
       add_extra_js_url ("/minimalist_ui/ext_dependencies/" +:+ c +:+ "/" +:+ c +:+ ".js"))
   else ret tt);;
  self_hass self "http";;
  self_hass self "config";;
  d ← integration_dir self;
  host_does RegisterStaticPath;;
  modify (λ w, set_host
    (set_static_paths
       (static_paths (host w)
          ++ [("/minimalist_ui/ext_dependencies", d ++ ["ext_dependencies"], true)])
       (host w)) w).

(** [MuiBase.configure_plugins] *)
Definition configure_plugins (self : MuiBase) : M bool :=
  log_text LvlDebug "Checking Dependencies.";;
  try_except
    (configure_plugins_body self;; ret true)
    (λ exception,
       log_exception exception;;
       disable_mui self LOAD_MUI;;
       ret false).

(** [hass.data["lovelace"]["dashboards"]] *)
Definition lovelace (self : MuiBase) : M (gmap string DashboardConfig) :=
  self_hass self "data";;
  d ← gets (λ w, lovelace_dashboards (host w));
  match d with
  | Some m => ret m
  | None => raise (KeyError (PStr "lovelace"))
  end.

(** The statements inside the [try] of [configure_dashboard]. *)
Definition configure_dashboard_body (self : MuiBase)
    (dashboard_url : string) (dashboard_config : DashboardConfig) : M unit :=
  sidepanel_enabled ← attr "sidepanel_enabled";
  if truthy sidepanel_enabled then
    host_does NewLovelaceYAML;;
    dashboards ← lovelace self;
    modify (λ w, set_host
      (set_lovelace_dashboards (Some (<[dashboard_url := dashboard_config]> dashboards))
         (host w)) w);;
    host_does RegisterPanel;;
    modify (λ w, set_host
      (set_panels (<[dashboard_url := dashboard_config]> (panels (host w))) (host w)) w)
  else
    dashboards ← lovelace self;
    match dashboards !! dashboard_url with
    | Some _ =>
        host_does RemovePanel;;
        modify (λ w, set_host
          (set_panels (delete "minimalist-ui" (panels (host w))) (host w)) w)
    | None => ret tt
    end.

(** The [dashboard_config] dictionary literal of [configure_dashboard]. *)
Definition dashboard_config_for (sidepanel_icon sidepanel_title : pyval) : DashboardConfig :=
  {| mode := "yaml";
     icon := sidepanel_icon;
     title := sidepanel_title;
     filename := "minimalist_ui/dashboard/ui.yaml";
     show_in_sidebar := true;
     require_admin := false |}.

(** [MuiBase.configure_dashboard] *)
Definition configure_dashboard (self : MuiBase) : M bool :=
  let dashboard_url := "minimalist-ui" in
  sidepanel_icon ← attr "sidepanel_icon";
  sidepanel_title ← attr "sidepanel_title";
  let dashboard_config := dashboard_config_for sidepanel_icon sidepanel_title in
  try_except
    (configure_dashboard_body self dashboard_url dashboard_config;; ret true)
    (λ exception,
       log_exception exception;;
       disable_mui self LOAD_MUI;;
       ret false).

(** [LANGUAGES[v]]: the language code, a [TypeError] on an unhashable key,
    a [KeyError] on a key that is not in the table. *)
Definition language_code (v : pyval) : string + exn :=
  match v with
  | PList _ | PDict _ => inr (TypeError "unhashable type")
  | PStr s =>
      match LANGUAGES !! s with
      | Some code => inl code
      | None => inr (KeyError v)
      end
  | _ => inr (KeyError v)
  end.

Definition lookup_language (v : pyval) : M string :=
  match language_code v with
  | inl code => ret code
  | inr e => raise e
  end.

(** [self.hass.bus.async_fire(name)] *)
Definition bus_async_fire (self : MuiBase) (name : string) : M unit :=
  self_hass self "bus";;
  host_does BusFire;;
  modify (λ w, set_host (set_bus_events (bus_events (host w) ++ [name]) (host w)) w).

(** [self.hass.services.async_register(domain, name, handle_reload)]:
    the handler is the closure over [self]. *)
Definition services_async_register (self : MuiBase) (domain name : string) : M unit :=
  self_hass self "services";;
  host_does ServicesRegister;;
  modify (λ w, set_host
    (set_services (<[(domain, name) := self]> (services (host w))) (host w)) w).

(** The copies made once the dashboard directory is there. *)
Definition install_assets (self : MuiBase) : M unit :=
  t ← templates_dir self;
  fs_call (λ fs, makedirs fs t);;
  lang ← attr "language";
  language ← lookup_language lang;
  d ← integration_dir self;
  t ← templates_dir self;
  fs_call (λ fs, copy2 fs (d ++ ["dashboard"; "translations"; "default.yaml"])
                          (t ++ ["default.yaml"]));;
  sidepanel_enabled ← attr "sidepanel_enabled";
  (if truthy sidepanel_enabled then
     p ← config_path self (DOMAIN +:+ "/dashboard/ui.yaml");
     found ← os_path_exists p;
     if negb found then
       d ← integration_dir self;
       p ← config_path self (DOMAIN +:+ "/dashboard/ui.yaml");
       fs_call (λ fs, copy2 fs (d ++ ["dashboard"; "ui.yaml"]) p)
     else ret tt
   else ret tt);;
  p ← config_path self (DOMAIN +:+ "/custom_actions/custom_actions.yaml");
  found ← os_path_exists p;
  (if negb found then
     d ← integration_dir self;
     p ← config_path self (DOMAIN +:+ "/custom_actions/custom_actions.yaml");
     fs_call (λ fs, copy2 fs (d ++ ["dashboard"; "custom_actions.yaml"]) p)
   else ret tt);;
  d ← integration_dir self;
  t ← templates_dir self;
  fs_call (λ fs, copy2 fs (d ++ ["dashboard"; "translations"; language +:+ ".yaml"])
                          (t ++ ["language.yaml"]));;
  d ← integration_dir self;
  t ← templates_dir self;
  fs_call (λ fs, copytree fs (d ++ ["dashboard"; "mui_templates"]) t);;
  p ← config_path self (DOMAIN +:+ "/custom_actions");
  t ← templates_dir self;
  fs_call (λ fs, copytree fs p (t ++ ["custom_actions"]));;
  d ← integration_dir self;
  theme_path ← attr "theme_path";
  theme ← gets (λ w, py_str (object_text (host w)) theme_path +:+ "/");
  p ← config_path self theme;
  through ← gets (λ w, path_walked (config_dir (host w)) theme);
  fs_call (λ fs, copytree_through fs (d ++ ["dashboard"; "themefiles"]) through p).

(** The two statements under [# Cleanup]. *)
Definition cleanup (self : MuiBase) : M unit :=
  p ← config_path self (DOMAIN +:+ "/configs");
  fs_call (λ fs, (None, rmtree fs p));;
  p ← config_path self (DOMAIN +:+ "/addons");
  fs_call (λ fs, (None, rmtree fs p)).

(** From [# Create config dir] to the end of the [try]. *)
Definition create_and_install (self : MuiBase) : M unit :=
  p ← config_path self (DOMAIN +:+ "/dashboard");
  fs_call (λ fs, makedirs fs p);;
  p ← config_path self (DOMAIN +:+ "/custom_actions");
  fs_call (λ fs, makedirs fs p);;
  p ← config_path self (DOMAIN +:+ "/dashboard");
  found ← os_path_exists p;
  (if found : bool then install_assets self else ret tt);;
  bus_async_fire self "minimalist_ui_reload";;
  services_async_register self DOMAIN "reload".

(** The statements inside the [try] of [configure_mui]. *)
Definition configure_mui_body (self : MuiBase) : M unit :=
  cleanup self;;
  create_and_install self.

(** [MuiBase.configure_mui] *)
Definition configure_mui (self : MuiBase) : M bool :=
  log_text LvlInfo "Setup MUI Configuration";;
  try_except
    (configure_mui_body self;; ret true)
    (λ exception,
       log_exception exception;;
       disable_mui self LOAD_MUI;;
       ret false).

(** [MuiBase.reload_configuration] *)
Definition reload_configuration (self : MuiBase) : M unit :=
  p ← config_path self (DOMAIN +:+ "/custom_actions");
  found ← os_path_exists p;
  (if found : bool then
     p ← config_path self (DOMAIN +:+ "/custom_actions");
     t ← templates_dir self;
     fs_call (λ fs, copytree fs p (t ++ ["custom_actions"]))
   else ret tt);;
  bus_async_fire self "minimalist_ui_reload".

(** The [handle_reload] service handler registered by [configure_mui]. *)
Definition handle_reload (self : MuiBase) : M unit :=
  log_text LvlDebug "Reload Minimalist UI Configuration";;
  reload_configuration self.

(* ===================================================================== *)
(** ** [__init__.py]                                                     *)
(* ===================================================================== *)

(** [async_startup], the closure of [async_initialize_integration]. *)
Definition async_startup (mui : MuiBase) : M bool :=
  ok ← configure_mui mui;
  if negb ok then ret false
  else
    ok ← configure_plugins mui;
    if negb ok then ret false
    else
      ok ← configure_dashboard mui;
      if negb ok then ret false
      else
        enable_mui;;
        gets (λ w, negb (disabled (system w))).

(** [{**v}]: only a mapping can be unpacked. *)
Definition unpack_mapping (v : pyval) : M (list (string * pyval)) :=
  match v with
  | PDict d => ret d
  | _ => raise (TypeError "object is not a mapping")
  end.

(** The [if config is not None:] block.  [Some b] stands for [return b];
    [None] for falling through to the next statement. *)
Definition initialize_from_config (config : option (gmap string pyval)) : M (option bool) :=
  match config with
  | None => ret None
  | Some config =>
      match config !! DOMAIN with
      | None => ret (Some true)
      | Some domain_config =>
          config_type ← attr "config_type";
          if is_config_entry config_type then ret (Some true)
          else
            unpacked ← unpack_mapping domain_config;
            call_update_from_dict
              (PDict (dict_of ([("config_type", PConfigType YAML)] ++ unpacked
                               ++ [("config", domain_config)])));;
            ret None
      end
  end.

(** The [if config_entry is not None:] block. *)
Definition initialize_from_config_entry (config_entry : option ConfigEntry) : M (option bool) :=
  match config_entry with
  | None => ret None
  | Some config_entry =>
      if String.eqb (source config_entry) SOURCE_IMPORT then
        host_does CreateTask;;
        modify (λ w, set_host
          (set_tasks (tasks (host w) ++ [RemoveConfigEntry (entry_id config_entry)])
             (host w)) w);;
        ret (Some false)
      else
        call_update_from_dict
          (PDict (dict_of ([("config_entry", PEntry config_entry);
                            ("config_type", PConfigType CONFIG_ENTRY)]
                           ++ data config_entry ++ options config_entry)));;
        ret None
  end.

(** [async_get_integration(hass, DOMAIN)] *)
Definition async_get_integration (domain : string) : M Integration :=
  host_does GetIntegration;;
  found ← gets (λ w, integrations (host w) !! domain);
  match found with
  | Some i => ret i
  | None => raise (HostError GetIntegration)
  end.

(** From [integration = await async_get_integration(hass, DOMAIN)] to the
    end of [async_initialize_integration]. *)
Definition initialize_and_start : M bool :=
  i ← async_get_integration DOMAIN;
  host_does GetClientSession;;
  let mui := {| integration := Some i; version := integration_version i; hass := true |} in
  modify (λ w, set_host (set_data_mui (Some mui) (host w)) w);;
  modify (set_running true);;
  startup_result ← async_startup mui;
  if negb startup_result then ret false
  else
    enable_mui;;
    ret true.

(** [async_initialize_integration(hass, config_entry=..., config=...)] *)
Definition async_initialize_integration
    (config_entry : option ConfigEntry) (config : option (gmap string pyval)) : M bool :=
  modify (λ w, set_host (set_data_mui (Some MuiBase_new) (host w)) w);;
  enable_mui;;
  returned ← initialize_from_config config;
  match returned with
  | Some b => ret b
  | None =>
      returned ← initialize_from_config_entry config_entry;
      match returned with
      | Some b => ret b
      | None => initialize_and_start
      end
  end.

(** [async_setup(hass, config)] *)
Definition async_setup (config : gmap string pyval) : M bool :=
  async_initialize_integration None (Some config).

(** [async_setup_entry(hass, config_entry)] *)
Definition async_setup_entry (config_entry : ConfigEntry) : M bool :=
  host_does AddUpdateListener;;
  modify (λ w, set_host
    (set_update_listeners (update_listeners (host w) ++ [entry_id config_entry]) (host w)) w);;
  async_initialize_integration (Some config_entry) None.

(** [async_reload_entry(hass, config_entry)] *)
Definition async_reload_entry (config_entry : ConfigEntry) : M unit :=
  log_text LvlDebug "Reload the config entry";;
  async_setup_entry config_entry;;
  ret tt.

(** [async_remove_entry(hass, config_entry)] *)
Definition async_remove_entry (config_entry : ConfigEntry) : M unit :=
  log_text LvlDebug (NAME +:+ " is now uninstalled");;
  host_does RemovePanel;;
  modify (λ w, set_host (set_panels (delete "minimalist-ui" (panels (host w))) (host w)) w).

(* ===================================================================== *)
(** ** Vocabulary of the statements                                      *)
(* ===================================================================== *)

(** The world an [except Exception] clause of a setup step leaves, entered
    with exception [e] in world [w]: the exception is logged and the system
    is disabled for [LOAD_MUI]. *)
Definition caught (e : exn) (w : World) : World :=
  set_disabled_reason (Some LOAD_MUI) (add_log (LogException e) w).

(** The world in which [async_startup] is entered: the instance carries
    the integration and the host, and the system is marked running. *)
Definition started_instance (i : Integration) : MuiBase :=
  {| integration := Some i; version := integration_version i; hass := true |}.

Definition startup_world (i : Integration) (w : World) : World :=
  set_running true (set_host (set_data_mui (Some (started_instance i)) (host w)) w).

(** The world after the first two statements of
    [async_initialize_integration]: a new [MuiBase] is stored in
    [hass.data] and the system is enabled. *)
Definition fresh_instance_world (w : World) : World :=
  (enable_mui (set_host (set_data_mui (Some MuiBase_new) (host w)) w)).2.

(** [keeps I m φ]: statement [m] maintains the invariant [I] of the world,
    whether it completes or raises, and a value it completes with
    satisfies [φ]. *)
Definition keeps {A} (I : World → Prop) (m : M A) (φ : A → Prop) : Prop :=
  ∀ w, I w → I (m w).2 ∧ ∀ a, (m w).1 = Ok a → φ a.

(** The paths the installer treats as the user's own. *)
Definition dashboard_file (w : World) : path :=
  config_dir (host w) ++ [DOMAIN; "dashboard"; "ui.yaml"].

Definition custom_actions_file (w : World) : path :=
  config_dir (host w) ++ [DOMAIN; "custom_actions"; "custom_actions.yaml"].

(** [f"{self.configuration.theme_path}/"] *)
Definition theme_text (w : World) : string :=
  py_str (object_text (host w)) (default PNone (getattr (configuration w) "theme_path"))
    +:+ "/".

(** The directory [self.hass.config.path(f"{self.configuration.theme_path}/")]
    resolves to. *)
Definition theme_dir (w : World) : path :=
  path_join (config_dir (host w)) (theme_text w).

(** The directories that path passes through with [..] or [.]. *)
Definition theme_walked (w : World) : list path :=
  path_walked (config_dir (host w)) (theme_text w).

(** [self.templates_dir], when the instance has its integration. *)
Definition templates_dir_of (self : MuiBase) : option path :=
  (λ i, file_path i ++ ["__ui_minimalist__"; "mui_templates"]) <$> integration self.

(** [file_kept q c cfg cf render w]: in world [w] the regular file [q]
    holds [c]; the configuration directory is [cfg], the configuration
    record is [cf] and the host renders objects with [render]. *)
Definition file_kept (q : path) (c : string) (cfg : path) (cf : gmap string pyval)
    (render : pyval → string) (w : World) : Prop :=
  files w !! q = Some (EFile c) ∧ config_dir (host w) = cfg ∧ configuration w = cf ∧
  object_text (host w) = render.

(** [lands_elsewhere src dst q fs]: no regular file of the tree [src] has,
    below [src], the path that [q] has below [dst], so that a copy of the
    tree [src] to [dst] puts no file on [q]. *)
Definition lands_elsewhere (src dst q : path) (fs : filesystem) : Prop :=
  ∀ r, q = dst ++ r → is_file fs (src ++ r) = false.

(** No bundled theme file is copied onto [q]. *)
Definition no_theme_lands_on (self : MuiBase) (w : World) (q : path) : Prop :=
  ∀ i, integration self = Some i →
       lands_elsewhere (file_path i ++ ["dashboard"; "themefiles"]) (theme_dir w) q (files w).

(** The theme path resolves to a directory that neither contains the
    bundled theme directory nor lies in it: the copy of the themes reads
    one tree and writes another. *)
Definition themes_apart_from_bundle (self : MuiBase) (w : World) : Prop :=
  ∀ i, integration self = Some i →
       ¬ theme_dir w `prefix_of` (file_path i ++ ["dashboard"; "themefiles"]) ∧
       ¬ (file_path i ++ ["dashboard"; "themefiles"]) `prefix_of` theme_dir w.

(** [hoare P m Q E]: run in a world satisfying [P], statement [m] either
    completes with a value and a world satisfying [Q] or raises in a world
    satisfying [E]. *)
Definition hoare {A} (P : World → Prop) (m : M A) (Q : A → World → Prop)
    (E : World → Prop) : Prop :=
  ∀ w, P w → match m w with
             | (Ok a, w') => Q a w'
             | (Raised _, w') => E w'
             end.

Definition RELOAD_EVENT : string := "minimalist_ui_reload".

(** [events_are ev w]: the events fired on the host's bus so far are [ev]. *)
Definition events_are (ev : list string) (w : World) : Prop :=
  bus_events (host w) = ev.

(** Two worlds that differ at most in the file system and the log. *)
Definition same_but_files_and_log (w1 w2 : World) : Prop :=
  system w1 = system w2 ∧ configuration w1 = configuration w2 ∧ host w1 = host w2.

(** [agree R m]: run in two worlds related by [R], statement [m] has the
    same outcome in both and leaves worlds related by [R]. *)
Definition agree {A} (R : World → World → Prop) (m : M A) : Prop :=
  ∀ w1 w2, R w1 w2 → (m w1).1 = (m w2).1 ∧ R (m w1).2 (m w2).2.

(** [test_blind stmt]: whatever a directory test said, [stmt] completes,
    and worlds that differed at most in files and log still do. *)
Definition test_blind (stmt : bool → M unit) : Prop :=
  ∀ (b1 b2 : bool) w1 w2, same_but_files_and_log w1 w2 →
    (stmt b1 w1).1 = Ok tt ∧ (stmt b2 w2).1 = Ok tt ∧
    same_but_files_and_log (stmt b1 w1).2 (stmt b2 w2).2.

(** The two directories [configure_mui] removes first. *)
Definition configs_dir (w : World) : path := config_dir (host w) ++ [DOMAIN; "configs"].

Definition addons_dir (w : World) : path := config_dir (host w) ++ [DOMAIN; "addons"].

(** The world with those two directories removed. *)
Definition clean_files (cfg : path) (fs : filesystem) : filesystem :=
  rmtree (rmtree fs (cfg ++ [DOMAIN; "configs"])) (cfg ++ [DOMAIN; "addons"]).

Definition cleaned (w : World) : World :=
  set_files (clean_files (config_dir (host w)) (files w)) w.

(** The attribute names that [object.__setattr__] does not simply store,
    and the name that stands in for the method once it is stored. *)
Definition special_names : list string :=
  ["__class__"; "__dict__"; "__weakref__"; "__setattr__"].

(** [plain_items l]: no key among the items [l] is one of them. *)
Definition plain_items (l : list (string * pyval)) : Prop :=
  ∀ k, k ∈ l.*1 → k ∉ special_names.

(** The instance dictionary [c] after the items [l] have been stored in
    it one after the other. *)
Definition merged (l : list (string * pyval)) (c : gmap string pyval) : gmap string pyval :=
  foldl (λ c kv, <[kv.1 := kv.2]> c) c l.

(* ===================================================================== *)
(** ** The installer as a list of file operations                        *)
(* ===================================================================== *)

(** The file-system calls of [configure_mui] after the cleanup, and a
    statement that raises without touching the file system. *)
Inductive fsop :=
| OpMakedirs (p : path)
| OpCopy2 (src dst : path)
| OpCopy2IfAbsent (src dst : path)
| OpCopytree (src dst : path)
| OpRaise (e : exn).

Definition run_op (o : fsop) (fs : filesystem) : fs_result :=
  match o with
  | OpMakedirs p => makedirs fs p
  | OpCopy2 src dst => copy2 fs src dst
  | OpCopy2IfAbsent src dst =>
      if path_exists fs dst then (None, fs) else copy2 fs src dst
  | OpCopytree src dst => copytree fs src dst
  | OpRaise e => (Some e, fs)
  end.

(** The operations in order, up to the first that raises. *)
Fixpoint run_ops (ops : list fsop) (fs : filesystem) : fs_result :=
  match ops with
  | [] => (None, fs)
  | o :: rest =>
      match run_op o fs with
      | (None, fs') => run_ops rest fs'
      | (Some e, fs') => (Some e, fs')
      end
  end.

Definition op_src (o : fsop) : option path :=
  match o with
  | OpCopy2 src _ | OpCopy2IfAbsent src _ | OpCopytree src _ => Some src
  | _ => None
  end.

Definition op_dst (o : fsop) : option path :=
  match o with
  | OpMakedirs p => Some p
  | OpCopy2 _ dst | OpCopy2IfAbsent _ dst | OpCopytree _ dst => Some dst
  | OpRaise _ => None
  end.

(** Neither path is at or below the other. *)
Definition apart (p q : path) : Prop := ¬ p `prefix_of` q ∧ ¬ q `prefix_of` p.

(** No operation writes at or below what it, or an operation before it,
    reads. *)
Fixpoint sources_apart (ops : list fsop) : Prop :=
  match ops with
  | [] => True
  | o :: rest =>
      (∀ s o' d, op_src o = Some s → o' ∈ o :: rest → op_dst o' = Some d → apart s d)
      ∧ sources_apart rest
  end.

(** What exists keeps its kind: a directory stays one, a file stays a
    file. *)
Definition kind_le (a A : filesystem) : Prop :=
  ∀ q, match a !! q with
       | Some EDir => A !! q = Some EDir
       | Some (EFile _) => ∃ c, A !! q = Some (EFile c)
       | None => True
       end.

(** At every path, [b] is as [a] or as [A]. *)
Definition between (A a b : filesystem) : Prop :=
  ∀ q, b !! q = a !! q ∨ b !! q = A !! q.

(** Everything that exists lies in a directory. *)
Definition tree_shaped (fs : filesystem) : Prop :=
  ∀ p n e, p ≠ [] → fs !! (p ++ [n]) = Some e → fs !! p = Some EDir.

(** The file operations of [install_assets] from the custom-actions file
    on, for an instance whose integration is [i], with configuration
    directory [cfg], configuration record [cf], language code [language]
    and a theme path that is written with names only and leads to
    [themes]. *)
Definition copy_script_tail (i : Integration) (cfg : path) (cf : gmap string pyval)
    (themes : path) (language : string) : list fsop :=
  let d := file_path i in
  let t := d ++ ["__ui_minimalist__"; "mui_templates"] in
  [OpCopy2IfAbsent (d ++ ["dashboard"; "custom_actions.yaml"])
     (cfg ++ [DOMAIN; "custom_actions"; "custom_actions.yaml"]);
   OpCopy2 (d ++ ["dashboard"; "translations"; language +:+ ".yaml"])
     (t ++ ["language.yaml"]);
   OpCopytree (d ++ ["dashboard"; "mui_templates"]) t;
   OpCopytree (cfg ++ [DOMAIN; "custom_actions"]) (t ++ ["custom_actions"]);
   OpCopytree (d ++ ["dashboard"; "themefiles"]) themes].

(** The file operations of [install_assets] from the copy of the default
    translation on. *)
Definition copy_script (i : Integration) (cfg : path) (cf : gmap string pyval)
    (themes : path) (language : string) : list fsop :=
  let d := file_path i in
  let t := d ++ ["__ui_minimalist__"; "mui_templates"] in
  OpCopy2 (d ++ ["dashboard"; "translations"; "default.yaml"]) (t ++ ["default.yaml"])
  :: (if truthy (default PNone (getattr cf "sidepanel_enabled"))
      then [OpCopy2IfAbsent (d ++ ["dashboard"; "ui.yaml"])
              (cfg ++ [DOMAIN; "dashboard"; "ui.yaml"])]
      else [])
  ++ copy_script_tail i cfg cf themes language.

(** The file operations of [install_assets]. *)
Definition install_assets_script (i : Integration) (cfg : path)
    (cf : gmap string pyval) (themes : path) : list fsop :=
  OpMakedirs (file_path i ++ ["__ui_minimalist__"; "mui_templates"]) ::
  match language_code (default PNone (getattr cf "language")) with
  | inl language => copy_script i cfg cf themes language
  | inr e => [OpRaise e]
  end.

(** The file operations of [create_and_install]. *)
Definition install_script (self : MuiBase) (cfg : path) (cf : gmap string pyval)
    (themes : path) : list fsop :=
  OpMakedirs (cfg ++ [DOMAIN; "dashboard"]) ::
  OpMakedirs (cfg ++ [DOMAIN; "custom_actions"]) ::
  match integration self with
  | Some i => install_assets_script i cfg cf themes
  | None => [OpRaise (none_has_no "file_path")]
  end.

(** [tracks rest cfg cf themes F w]: in world [w], with configuration
    directory [cfg], configuration record [cf] and a theme path that is
    written with names only and leads to [themes], the operations [rest]
    still to run leave the file system [F]. *)
Definition tracks (rest : list fsop) (cfg : path) (cf : gmap string pyval)
    (themes : path) (F : filesystem) (w : World) : Prop :=
  config_dir (host w) = cfg ∧ configuration w = cf ∧
  theme_dir w = themes ∧ theme_walked w = [] ∧
  (run_ops rest (files w)).2 = F.

(** The integration is installed where the host loads custom integrations
    from. *)
Definition standard_layout (self : MuiBase) (w : World) : Prop :=
  ∀ i, integration self = Some i →
       file_path i = config_dir (host w) ++ ["custom_components"; DOMAIN].

(* ===================================================================== *)
(** ** The setup steps as guarded statements                             *)
(* ===================================================================== *)

(** Everything [configure_mui] executes before it returns or enters its
    [except] clause. *)
Definition configure_mui_statements (self : MuiBase) : M unit :=
  log_text LvlInfo "Setup MUI Configuration";;
  configure_mui_body self.

(** Likewise for [configure_plugins]. *)
Definition configure_plugins_statements (self : MuiBase) : M unit :=
  log_text LvlDebug "Checking Dependencies.";;
  configure_plugins_body self.

(** Likewise for [configure_dashboard]. *)
Definition configure_dashboard_statements (self : MuiBase) : M unit :=
  sidepanel_icon ← attr "sidepanel_icon";
  sidepanel_title ← attr "sidepanel_title";
  configure_dashboard_body self "minimalist-ui"
    (dashboard_config_for sidepanel_icon sidepanel_title).

(** What a setup step makes of the outcome of its statements: [True] when
    they complete; when they raise, the exception is logged, the system is
    disabled for [LOAD_MUI], and the step returns [False]. *)
Definition step_outcome (r : outcome unit * World) : outcome bool * World :=
  match r with
  | (Ok _, w') => (Ok true, w')
  | (Raised e, w') => (Ok false, caught e w')
  end.

(* ===================================================================== *)
(** ** Concrete worlds                                                   *)
(* ===================================================================== *)

Definition demo_integration : Integration :=
  {| file_path := ["config"; "custom_components"; "minimalist_ui"];
     integration_version := Some "0.0.1" |}.

(** A configuration directory holding the integration with its bundled
    dashboard files; [theme_file] is the one file in [themefiles]. *)
Definition bundled (theme_file : string) : list (path * entry) :=
  let d := ["config"; "custom_components"; "minimalist_ui"; "dashboard"] in
  [ (["config"], EDir);
    (["config"; "custom_components"], EDir);
    (["config"; "custom_components"; "minimalist_ui"], EDir);
    (d, EDir);
    (d ++ ["translations"], EDir);
    (d ++ ["translations"; "default.yaml"], EFile "default translation");
    (d ++ ["translations"; "en.yaml"], EFile "english translation");
    (d ++ ["ui.yaml"], EFile "bundled dashboard");
    (d ++ ["custom_actions.yaml"], EFile "bundled actions");
    (d ++ ["mui_templates"], EDir);
    (d ++ ["mui_templates"; "card.yaml"], EFile "card template");
    (d ++ ["themefiles"], EDir);
    (d ++ ["themefiles"; theme_file], EFile "bundled theme") ].

(** What a user may have put under the configuration directory. *)
Definition user_files : list (path * entry) :=
  [ (["config"; "minimalist_ui"], EDir);
    (["config"; "minimalist_ui"; "dashboard"], EDir);
    (["config"; "minimalist_ui"; "dashboard"; "ui.yaml"], EFile "user dashboard");
    (["config"; "minimalist_ui"; "configs"], EDir);
    (["config"; "minimalist_ui"; "configs"; "mine.yaml"], EFile "user config") ].

Definition demo_host (faulty : host_call → bool) : Hass :=
  {| config_dir := ["config"]; faults := faulty;
     integrations := {[ DOMAIN := demo_integration ]};
     lovelace_dashboards := Some ∅; panels := ∅; extra_js_urls := [];
     static_paths := []; bus_events := []; services := ∅; tasks := [];
     update_listeners := []; data_mui := None;
     object_text := λ _, "object" |}.

Definition no_faults : host_call → bool := λ _, false.

Definition world_with (cf : gmap string pyval) (h : Hass) (fs : list (path * entry)) : World :=
  {| system := {| disabled_reason := None; running := false |};
     configuration := cf; host := h; files := list_to_map fs; log := [] |}.

(** A fresh installation with the default configuration. *)
Definition demo_world : World :=
  world_with MuiConfiguration_new (demo_host no_faults) (bundled "minimalist-desktop.yaml").

(** An installation the user has edited. *)
Definition edited_world : World :=
  world_with MuiConfiguration_new (demo_host no_faults)
    (user_files ++ bundled "minimalist-desktop.yaml").

Definition demo_mui : MuiBase := started_instance demo_integration.

(** The host refuses to register the static path. *)
Definition refusing_world : World :=
  world_with MuiConfiguration_new
    (demo_host (λ c, bool_decide (c = RegisterStaticPath)))
    (bundled "minimalist-desktop.yaml").

(** The theme directory is set to the dashboard directory, and the bundle
    has a theme file called [ui.yaml]. *)
Definition themes_in_dashboard_world : World :=
  world_with (<["theme_path" := PStr "minimalist_ui/dashboard"]> MuiConfiguration_new)
    (demo_host no_faults) (user_files ++ bundled "ui.yaml").

(** The same directory, written with a step through the parent of another
    directory. *)
Definition themes_in_dashboard_through_parent_world : World :=
  world_with (<["theme_path" := PStr "themes/../minimalist_ui/dashboard"]> MuiConfiguration_new)
    (demo_host no_faults) (user_files ++ bundled "ui.yaml").

(** The theme directory is set to the custom-actions directory. *)
Definition themes_in_custom_actions_world : World :=
  world_with (<["theme_path" := PStr "minimalist_ui/custom_actions"]> MuiConfiguration_new)
    (demo_host no_faults) (bundled "minimalist-desktop.yaml").

(** The same directory, written with a step through the parent of another
    directory. *)
Definition themes_in_custom_actions_through_parent_world : World :=
  world_with
    (<["theme_path" := PStr "themes/../minimalist_ui/custom_actions"]> MuiConfiguration_new)
    (demo_host no_faults) (bundled "minimalist-desktop.yaml").

(** The theme path passes through a directory below the custom-actions
    directory on its way to a directory of its own. *)
Definition themes_through_custom_actions_world : World :=
  world_with
    (<["theme_path" := PStr "minimalist_ui/custom_actions/sub/../../themes"]>
       MuiConfiguration_new)
    (demo_host no_faults) (bundled "minimalist-desktop.yaml").

(** [custom_actions] is a regular file. *)
Definition custom_actions_is_a_file_world : World :=
  world_with MuiConfiguration_new (demo_host no_faults)
    ([ (["config"; "minimalist_ui"], EDir);
       (["config"; "minimalist_ui"; "custom_actions"], EFile "not a directory") ]
     ++ bundled "minimalist-desktop.yaml").

(** The record of an installation set up from a config entry. *)
Definition entry_world : World :=
  world_with (<["config_type" := PConfigType CONFIG_ENTRY]> MuiConfiguration_new)
    (demo_host no_faults) (bundled "minimalist-desktop.yaml").

Definition yaml_config : gmap string pyval :=
  {[ DOMAIN := PDict [("theme", PStr "minimalist-mobile")] ]}.

(** [tree_shaped], as a check that can be computed. *)
Definition tree_shaped_check (fs : filesystem) : Prop :=
  map_Forall
    (λ (q : path) (_ : entry),
       match q with
       | [] => True
       | _ => parent q = [] ∨ fs !! parent q = Some EDir
       end) fs.

#[global] Instance tree_shaped_check_dec (fs : filesystem) : Decision (tree_shaped_check fs).
Proof.
  unfold tree_shaped_check. apply map_Forall_dec. intros q _. destruct q; apply _.
Defined.

(** What [copytree] carries from entry to entry: the file system and the
    directories still to descend into. *)
Abbreviation cstate := (filesystem * list (path * path))%type.

Ltac unfold_M :=
  unfold mbind, M_bind, bind, mret, M_ret, ret, raise, gets, modify, try_except,
    log_text, log_exception, host_does, fs_call.

Lemma run_bind {A B} (m : M A) (k : A → M B) w :
  (m ≫= k) w = match m w with
               | (Ok a, w') => k a w'
               | (Raised e, w') => (Raised e, w')
               end.
Proof. reflexivity. Qed.

Lemma set_disabled_reason_same w r :
  disabled_reason (system w) = r → set_disabled_reason r w = w.
Proof. destruct w as [[dr rn] c h f l]; simpl. intros ->. reflexivity. Qed.

Lemma disable_mui_same self w r :
  disabled_reason (system w) = Some r → disable_mui self r w = (Ok tt, w).
Proof.
  intros H. unfold disable_mui. unfold_M. rewrite H.
  rewrite decide_True by reflexivity. reflexivity.
Qed.

Lemma enable_mui_run w :
  enable_mui w =
    (Ok tt, match disabled_reason (system w) with
            | Some _ => add_log (LogText LvlInfo "MUI is enabled") (set_disabled_reason None w)
            | None => w
            end).
Proof. unfold enable_mui. unfold_M. destruct (disabled_reason (system w)); reflexivity. Qed.


Lemma setattr_plain (k : string) (v : pyval) (w : World) :
  configuration w !! "__setattr__" = None → k ∉ special_names →
  setattr k v w = (Ok tt, set_configuration (<[k := v]> (configuration w)) w).
Proof.
  intros Hs Hk. unfold setattr. rewrite run_bind. unfold gets at 1. rewrite Hs.
  assert (k ≠ "__class__" ∧ k ≠ "__dict__" ∧ k ≠ "__weakref__") as (H1 & H2 & H3).
  { unfold special_names in Hk. rewrite !not_elem_of_cons in Hk. tauto. }
  apply String.eqb_neq in H1, H2, H3. by rewrite H1, H2, H3.
Qed.

Lemma plain_items_cons (k : string) (v : pyval) (l : list (string * pyval)) :
  plain_items ((k, v) :: l) ↔ (k ∉ special_names) ∧ plain_items l.
Proof.
  unfold plain_items. simpl. split.
  - intros H. split; [apply H; by left|]. intros k' Hk'. apply H. by right.
  - intros [Hk Hl] k' Hk'. apply elem_of_cons in Hk' as [->|Hk']; auto.
Qed.

Lemma for_each_setattr (l : list (string * pyval)) w :
  plain_items l → configuration w !! "__setattr__" = None →
  for_each l (λ kv, setattr kv.1 kv.2) w =
    (Ok tt, set_configuration (merged l (configuration w)) w).
Proof.
  revert w. induction l as [|[k v] l IH]; intros w Hl Hs; simpl.
  - unfold_M. destruct w; reflexivity.
  - apply plain_items_cons in Hl as [Hk Hl].
    rewrite run_bind, setattr_plain by done. rewrite IH; [reflexivity|done|].
    simpl. rewrite lookup_insert_ne; [done|].
    intros ->. apply Hk. unfold special_names. set_solver.
Qed.

Lemma foldl_insert_lookup (l : list (string * pyval)) (c : gmap string pyval) k :
  NoDup l.*1 →
  merged l c !! k =
    match list_to_map (M := gmap string pyval) l !! k with Some v => Some v | None => c !! k end.
Proof.
  unfold merged. revert c. induction l as [|[k' v'] l IH]; intros c Hnd; simpl.
  - rewrite lookup_empty. reflexivity.
  - inversion Hnd as [|? ? Hnotin Hnd']; subst. rewrite IH by assumption.
    destruct (decide (k' = k)) as [->|Hne].
    + rewrite lookup_insert_eq.
      rewrite (not_elem_of_list_to_map_1 l k) by assumption.
      rewrite lookup_insert_eq. reflexivity.
    + rewrite (lookup_insert_ne (list_to_map l)) by assumption.
      destruct (list_to_map l !! k); [reflexivity|]. by rewrite lookup_insert_ne.
Qed.

Lemma merged_outside (l : list (string * pyval)) (c : gmap string pyval) k :
  k ∉ l.*1 → merged l c !! k = c !! k.
Proof.
  unfold merged. revert c. induction l as [|[k' v'] l IH]; intros c Hk; simpl; [done|].
  simpl in Hk. apply not_elem_of_cons in Hk as [Hne Hk].
  rewrite IH by done. by rewrite lookup_insert_ne.
Qed.

Lemma update_from_dict_run (l : list (string * pyval)) w :
  plain_items l → configuration w !! "__setattr__" = None →
  update_from_dict (PDict l) w = (Ok tt, set_configuration (merged l (configuration w)) w).
Proof. intros Hl Hs. unfold update_from_dict. by rewrite for_each_setattr. Qed.

Lemma getattr_instance c k v : c !! k = Some v → getattr c k = Some v.
Proof. unfold getattr. intros ->. reflexivity. Qed.


Lemma attr_run name w v :
  getattr (configuration w) name = Some v → attr name w = (Ok v, w).
Proof. unfold attr. intros ->. reflexivity. Qed.

Lemma configuration_enable_mui w w' :
  enable_mui w = (Ok tt, w') → configuration w' = configuration w.
Proof.
  rewrite enable_mui_run. intros [= <-]. by destruct (disabled_reason (system w)).
Qed.

Lemma disable_mui_load self w :
  disable_mui self LOAD_MUI w = (Ok tt, set_disabled_reason (Some LOAD_MUI) w).
Proof.
  unfold disable_mui. rewrite run_bind. unfold gets at 1.
  destruct (decide (disabled_reason (system w) = Some LOAD_MUI)) as [E|E].
  - by rewrite set_disabled_reason_same.
  - rewrite run_bind. unfold modify at 1. reflexivity.
Qed.

Lemma guarded_run self (body : M unit) w :
  try_except (body;; ret true)
    (λ exception, log_exception exception;; disable_mui self LOAD_MUI;; ret false) w =
  match body w with
  | (Ok _, w') => (Ok true, w')
  | (Raised e, w') => (Ok false, caught e w')
  end.
Proof.
  unfold try_except. rewrite run_bind.
  destruct (body w) as [[[]|e] w']; [reflexivity|].
  rewrite run_bind. unfold log_exception, modify at 1.
  rewrite run_bind, disable_mui_load. reflexivity.
Qed.

Lemma getattr_class cfg name v0 :
  MuiConfiguration_class !! name = Some v0 → ∃ v, getattr cfg name = Some v.
Proof. intros H. unfold getattr. destruct (cfg !! name); eauto. Qed.

Lemma configure_mui_run self w :
  configure_mui self w =
  match configure_mui_body self (add_log (LogText LvlInfo "Setup MUI Configuration") w) with
  | (Ok _, w') => (Ok true, w')
  | (Raised e, w') => (Ok false, caught e w')
  end.
Proof. unfold configure_mui. rewrite run_bind. unfold log_text, modify at 1. apply guarded_run. Qed.

Lemma configure_plugins_run self w :
  configure_plugins self w =
  match configure_plugins_body self (add_log (LogText LvlDebug "Checking Dependencies.") w) with
  | (Ok _, w') => (Ok true, w')
  | (Raised e, w') => (Ok false, caught e w')
  end.
Proof. unfold configure_plugins. rewrite run_bind. unfold log_text, modify at 1. apply guarded_run. Qed.

Lemma configure_dashboard_run self w :
  ∃ sidepanel_icon sidepanel_title,
    getattr (configuration w) "sidepanel_icon" = Some sidepanel_icon ∧
    getattr (configuration w) "sidepanel_title" = Some sidepanel_title ∧
    configure_dashboard self w =
    match configure_dashboard_body self "minimalist-ui"
            (dashboard_config_for sidepanel_icon sidepanel_title) w with
    | (Ok _, w') => (Ok true, w')
    | (Raised e, w') => (Ok false, caught e w')
    end.
Proof.
  destruct (getattr_class (configuration w) "sidepanel_icon" _ eq_refl) as [i Hi].
  destruct (getattr_class (configuration w) "sidepanel_title" _ eq_refl) as [t Ht].
  exists i, t. split; [done|]. split; [done|].
  unfold configure_dashboard. rewrite run_bind, (attr_run _ _ _ Hi).
  rewrite run_bind, (attr_run _ _ _ Ht). apply guarded_run.
Qed.

Lemma disabled_reason_caught e w : disabled_reason (system (caught e w)) = Some LOAD_MUI.
Proof. reflexivity. Qed.

Lemma log_caught e w : log (caught e w) = log w ++ [LogException e].
Proof. reflexivity. Qed.

Lemma configure_mui_total self w : ∃ b w', configure_mui self w = (Ok b, w').
Proof.
  rewrite configure_mui_run.
  destruct (configure_mui_body _ _) as [[[]|e] w']; eauto.
Qed.

Lemma configure_plugins_total self w : ∃ b w', configure_plugins self w = (Ok b, w').
Proof.
  rewrite configure_plugins_run.
  destruct (configure_plugins_body _ _) as [[[]|e] w']; eauto.
Qed.

Lemma configure_dashboard_total self w : ∃ b w', configure_dashboard self w = (Ok b, w').
Proof.
  destruct (configure_dashboard_run self w) as (i & t & _ & _ & ->).
  destruct (configure_dashboard_body _ _ _ _) as [[[]|e] w']; eauto.
Qed.

Lemma configure_mui_false self w w' :
  configure_mui self w = (Ok false, w') → disabled_reason (system w') = Some LOAD_MUI.
Proof.
  rewrite configure_mui_run.
  destruct (configure_mui_body _ _) as [[[]|e] wb]; intros [= <-]; reflexivity.
Qed.

Lemma configure_plugins_false self w w' :
  configure_plugins self w = (Ok false, w') → disabled_reason (system w') = Some LOAD_MUI.
Proof.
  rewrite configure_plugins_run.
  destruct (configure_plugins_body _ _) as [[[]|e] wb]; intros [= <-]; reflexivity.
Qed.

Lemma configure_dashboard_false self w w' :
  configure_dashboard self w = (Ok false, w') → disabled_reason (system w') = Some LOAD_MUI.
Proof.
  destruct (configure_dashboard_run self w) as (i & t & _ & _ & ->).
  destruct (configure_dashboard_body _ _ _ _) as [[[]|e] wb]; intros [= <-]; reflexivity.
Qed.

Lemma enable_mui_clears w :
  ∃ w', enable_mui w = (Ok tt, w') ∧ disabled_reason (system w') = None.
Proof.
  rewrite enable_mui_run. eexists; split; [reflexivity|].
  by destruct (disabled_reason (system w)) eqn:E.
Qed.

Lemma enable_mui_enabled w :
  disabled_reason (system w) = None → enable_mui w = (Ok tt, w).
Proof. intros H. rewrite enable_mui_run, H. reflexivity. Qed.

(** The decision tree of [async_startup]. *)
Lemma async_startup_tree (mui : MuiBase) (w : World) :
  ∃ b1 w1, configure_mui mui w = (Ok b1, w1) ∧
    if b1 then
      ∃ b2 w2, configure_plugins mui w1 = (Ok b2, w2) ∧
        if b2 then
          ∃ b3 w3, configure_dashboard mui w2 = (Ok b3, w3) ∧
            if b3 then
              ∃ w4, enable_mui w3 = (Ok tt, w4) ∧
                    async_startup mui w = (Ok true, w4) ∧
                    disabled_reason (system w4) = None
            else async_startup mui w = (Ok false, w3) ∧
                 disabled_reason (system w3) = Some LOAD_MUI
        else async_startup mui w = (Ok false, w2) ∧
             disabled_reason (system w2) = Some LOAD_MUI
    else async_startup mui w = (Ok false, w1) ∧
         disabled_reason (system w1) = Some LOAD_MUI.
Proof.
  unfold async_startup.
  destruct (configure_mui_total mui w) as (b1 & w1 & H1). exists b1, w1. split; [done|].
  rewrite run_bind, H1. destruct b1; simpl; [|by eauto using configure_mui_false].
  destruct (configure_plugins_total mui w1) as (b2 & w2 & H2). exists b2, w2. split; [done|].
  rewrite run_bind, H2. destruct b2; simpl; [|by eauto using configure_plugins_false].
  destruct (configure_dashboard_total mui w2) as (b3 & w3 & H3). exists b3, w3. split; [done|].
  rewrite run_bind, H3. destruct b3; simpl; [|by eauto using configure_dashboard_false].
  destruct (enable_mui_clears w3) as (w4 & H4 & Hnone). exists w4. split; [done|].
  rewrite run_bind, H4. unfold gets, disabled. rewrite Hnone. done.
Qed.

Lemma async_startup_total mui w :
  ∃ b w', async_startup mui w = (Ok b, w') ∧
          disabled_reason (system w') = if b then None else Some LOAD_MUI.
Proof.
  destruct (async_startup_tree mui w) as (b1 & w1 & H1 & T).
  destruct b1; [|destruct T; by exists false, w1].
  destruct T as (b2 & w2 & H2 & T). destruct b2; [|destruct T; by exists false, w2].
  destruct T as (b3 & w3 & H3 & T). destruct b3; [|destruct T; by exists false, w3].
  destruct T as (w4 & H4 & Hs & Hr). by exists true, w4.
Qed.

Lemma initialize_and_start_run (i : Integration) (w : World) :
  faults (host w) GetIntegration = false →
  integrations (host w) !! DOMAIN = Some i →
  faults (host w) GetClientSession = false →
  ∃ b w', async_startup (started_instance i) (startup_world i w) = (Ok b, w') ∧
          initialize_and_start w = (Ok b, w') ∧
          disabled_reason (system w') = if b then None else Some LOAD_MUI.
Proof.
  intros Hf1 Hi Hf2.
  destruct (async_startup_total (started_instance i) (startup_world i w)) as (b & w' & Hs & Hr).
  exists b, w'. split; [done|]. split; [|done].
  unfold initialize_and_start.
  rewrite run_bind. unfold async_get_integration.
  rewrite run_bind. unfold host_does at 1. rewrite Hf1.
  rewrite run_bind. unfold gets at 1. rewrite Hi. unfold ret at 1.
  rewrite run_bind. unfold host_does at 1. rewrite Hf2.
  rewrite run_bind. unfold modify at 1.
  rewrite run_bind. unfold modify at 1.
  fold (started_instance i). fold (startup_world i w).
  rewrite run_bind, Hs. destruct b; simpl; [|done].
  rewrite run_bind, enable_mui_enabled by done. done.
Qed.

(** ** Rules for [keeps] *)

Section keeps_rules.
Context (I : World → Prop).

Lemma keeps_bind {A B} (m : M A) (k : A → M B) (φ : A → Prop) (ψ : B → Prop) :
  keeps I m φ → (∀ a, φ a → keeps I (k a) ψ) → keeps I (m ≫= k) ψ.
Proof.
  intros Hm Hk w Hw. rewrite run_bind.
  destruct (Hm w Hw) as [HI Hφ]. destruct (m w) as [[a|e] w']; simpl in *.
  - apply (Hk a); auto.
  - split; [done|]. intros b Hb. discriminate.
Qed.

Lemma keeps_weaken {A} (m : M A) (φ ψ : A → Prop) :
  keeps I m φ → (∀ a, φ a → ψ a) → keeps I m ψ.
Proof. intros Hm Hi w Hw. destruct (Hm w Hw). split; auto. Qed.

Lemma keeps_ret {A} (a : A) (φ : A → Prop) : φ a → keeps I (ret a) φ.
Proof. intros H w Hw. split; [done|]. by intros ? [= <-]. Qed.

Lemma keeps_raise {A} (e : exn) (φ : A → Prop) : keeps I (raise e) φ.
Proof. intros w Hw. split; [done|]. intros a Ha. discriminate. Qed.

Lemma keeps_gets {A} (f : World → A) (φ : A → Prop) :
  (∀ w, I w → φ (f w)) → keeps I (gets f) φ.
Proof. intros H w Hw. split; [done|]. intros ? [= <-]. auto. Qed.

Lemma keeps_modify (f : World → World) (φ : unit → Prop) :
  (∀ w, I w → I (f w)) → keeps I (modify f) (λ _, True).
Proof. intros H w Hw. split; [by apply H|done]. Qed.

Lemma keeps_try {A} (body : M A) (h : exn → M A) (φ : A → Prop) :
  keeps I body φ → (∀ e, keeps I (h e) φ) → keeps I (try_except body h) φ.
Proof.
  intros Hb Hh w Hw. unfold try_except.
  destruct (Hb w Hw) as [HI Hφ]. destruct (body w) as [[a|e] w']; simpl in *.
  - split; [done|]. intros ? [= <-]. auto.
  - by apply Hh.
Qed.

Lemma keeps_for_each {A} (l : list A) (f : A → M unit) :
  (∀ a, keeps I (f a) (λ _, True)) → keeps I (for_each l f) (λ _, True).
Proof.
  intros Hf. induction l as [|a l IH]; simpl.
  - by apply keeps_ret.
  - eapply keeps_bind; [apply Hf|]. intros _ _. apply IH.
Qed.

Lemma keeps_attr name (φ : pyval → Prop) :
  (∀ w v, I w → getattr (configuration w) name = Some v → φ v) →
  keeps I (attr name) φ.
Proof.
  intros H w Hw. unfold attr.
  destruct (getattr (configuration w) name) eqn:E; simpl; split; try done.
  intros ? [= <-]. eauto.
Qed.

Lemma keeps_host_does c : keeps I (host_does c) (λ _, True).
Proof. intros w Hw. unfold host_does. by destruct (faults (host w) c). Qed.

Lemma keeps_self_hass self name : keeps I (self_hass self name) (λ _, hass self = true).
Proof.
  unfold self_hass. destruct (hass self); [by apply keeps_ret|apply keeps_raise].
Qed.

Lemma keeps_config_path self s (φ : path → Prop) :
  (∀ w, I w → φ (path_join (config_dir (host w)) s)) →
  keeps I (config_path self s) φ.
Proof.
  intros H. unfold config_path. eapply keeps_bind; [apply keeps_self_hass|].
  intros _ _. by apply keeps_gets.
Qed.

Lemma keeps_integration_dir self :
  keeps I (integration_dir self) (λ d, ∃ i, integration self = Some i ∧ d = file_path i).
Proof.
  unfold integration_dir. destruct (integration self); [|apply keeps_raise].
  apply keeps_ret. eauto.
Qed.

Lemma keeps_templates_dir self :
  keeps I (templates_dir self) (λ t, templates_dir_of self = Some t).
Proof.
  unfold templates_dir. eapply keeps_bind; [apply keeps_integration_dir|].
  intros d (i & Hi & ->). apply keeps_ret. unfold templates_dir_of. by rewrite Hi.
Qed.

Lemma keeps_os_path_exists p (φ : bool → Prop) :
  (∀ w, I w → φ (path_exists (files w) p)) → keeps I (os_path_exists p) φ.
Proof. intros H. by apply keeps_gets. Qed.

Lemma keeps_lookup_language v : keeps I (lookup_language v) (λ _, True).
Proof.
  unfold lookup_language. destruct (language_code v); [by apply keeps_ret|apply keeps_raise].
Qed.

Lemma keeps_fs_call (op : filesystem → fs_result) :
  (∀ w, I w → I (set_files (op (files w)).2 w)) → keeps I (fs_call op) (λ _, True).
Proof.
  intros H w Hw. unfold fs_call. specialize (H w Hw).
  destruct (op (files w)) as [[e|] fs']; simpl in *; done.
Qed.

Lemma keeps_log_text lvl msg :
  (∀ w r, I w → I (add_log r w)) → keeps I (log_text lvl msg) (λ _, True).
Proof. intros H. apply (keeps_modify _ (λ _, True)). auto. Qed.

Lemma keeps_log_exception e :
  (∀ w r, I w → I (add_log r w)) → keeps I (log_exception e) (λ _, True).
Proof. intros H. apply (keeps_modify _ (λ _, True)). auto. Qed.

Lemma keeps_disable_load self :
  (∀ w r, I w → I (set_disabled_reason r w)) →
  keeps I (disable_mui self LOAD_MUI) (λ _, True).
Proof. intros H w Hw. rewrite disable_mui_load. simpl. auto. Qed.

Lemma keeps_enable_mui :
  (∀ w r, I w → I (add_log r w)) → (∀ w r, I w → I (set_disabled_reason r w)) →
  keeps I enable_mui (λ _, True).
Proof.
  intros H1 H2 w Hw. rewrite enable_mui_run. simpl.
  destruct (disabled_reason (system w)); auto.
Qed.
End keeps_rules.

Lemma keeps_run {A} (I : World → Prop) (m : M A) (φ : A → Prop) w :
  keeps I m φ → I w → I (m w).2.
Proof. intros H Hw. by apply H. Qed.

(** ** Rules for [hoare] *)

Lemma hoare_bind {A B} P (m : M A) (k : A → M B) Q R E :
  hoare P m Q E → (∀ a, hoare (Q a) (k a) R E) → hoare P (m ≫= k) R E.
Proof.
  intros Hm Hk w Hw. rewrite run_bind. specialize (Hm w Hw).
  destruct (m w) as [[a|e] w']; [by apply Hk|done].
Qed.

Lemma keeps_hoare {A} I (m : M A) φ (E : World → Prop) :
  keeps I m φ → (∀ w, I w → E w) → hoare I m (λ a w, I w ∧ φ a) E.
Proof.
  intros Hm HE w Hw. destruct (Hm w Hw) as [HI Hφ].
  destruct (m w) as [[a|e] w']; simpl in *; auto.
Qed.

Lemma hoare_pre {A} (P P' : World → Prop) (m : M A) Q E :
  hoare P' m Q E → (∀ w, P w → P' w) → hoare P m Q E.
Proof. intros H HP w Hw. apply H. auto. Qed.

Lemma hoare_post {A} (P : World → Prop) (m : M A) (Q Q' : A → World → Prop) E :
  hoare P m Q' E → (∀ a w, Q' a w → Q a w) → hoare P m Q E.
Proof.
  intros H HQ w Hw. specialize (H w Hw). destruct (m w) as [[a|e] w']; auto.
Qed.

Lemma hoare_conseq {A} (P P' : World → Prop) (m : M A) (Q Q' : A → World → Prop)
    (E E' : World → Prop) :
  hoare P' m Q' E' → (∀ w, P w → P' w) → (∀ a w, Q' a w → Q a w) → (∀ w, E' w → E w) →
  hoare P m Q E.
Proof.
  intros H HP HQ HE w Hw. specialize (H w (HP w Hw)).
  destruct (m w) as [[a|e] w']; auto.
Qed.

Lemma keeps_hoare_inv {A} I (m : M A) φ :
  keeps I m φ → hoare I m (λ _, I) I.
Proof.
  intros Hm. eapply hoare_conseq; [by eapply (keeps_hoare I m φ I)|done| |done].
  by intros ? w [? _].
Qed.

Lemma hoare_pure {A} (φ : Prop) (P : World → Prop) (m : M A) Q E :
  (φ → hoare P m Q E) → hoare (λ w, φ ∧ P w) m Q E.
Proof. intros H w [Hφ Hw]. by apply H. Qed.

Lemma getattr_default cf name v0 :
  MuiConfiguration_class !! name = Some v0 →
  getattr cf name = Some (default PNone (getattr cf name)).
Proof. intros H. by destruct (getattr_class cf name v0 H) as [v ->]. Qed.

(** ** The file system: what each call leaves alone *)

Lemma elem_of_prefixes (p q : path) : q ∈ prefixes p ↔ q ≠ [] ∧ q `prefix_of` p.
Proof.
  revert q. induction p as [|n p IH]; intros q; simpl.
  - split; [by intros ?%elem_of_nil|]. intros [Hne Hp]. apply prefix_nil_inv in Hp. done.
  - rewrite elem_of_cons, list_elem_of_fmap. split.
    + intros [->|(r & -> & Hr)].
      * split; [done|]. by apply (prefix_cons n [] p), prefix_nil.
      * apply IH in Hr as [_ Hr]. split; [done|]. by apply prefix_cons.
    + intros [Hne Hp]. destruct q as [|m q]; [done|].
      pose proof (prefix_cons_inv_1 _ _ _ _ Hp) as ->.
      apply prefix_cons_inv_2 in Hp.
      destruct q as [|m' q]; [by left|]. right. exists (m' :: q). split; [done|].
      apply IH. done.
Qed.

Lemma node_at_cons fs n p : node_at fs (n :: p) = fs !! (n :: p).
Proof. reflexivity. Qed.

Lemma node_at_ne fs p : p ≠ [] → node_at fs p = fs !! p.
Proof. by destruct p. Qed.

Lemma node_at_app fs p n : node_at fs (p ++ [n]) = fs !! (p ++ [n]).
Proof. apply node_at_ne. by destruct p. Qed.

Lemma foldr_mkdir_lookup (fs : filesystem) (l : list path) k :
  foldr (λ q acc, <[q := EDir]> acc) fs l !! k =
    if decide (k ∈ l) then Some EDir else fs !! k.
Proof.
  induction l as [|q l IH]; cbn [foldr].
  - rewrite decide_False; [done|]. apply not_elem_of_nil.
  - destruct (decide (q = k)) as [->|Hne].
    + rewrite lookup_insert_eq, decide_True; [done|]. by left.
    + rewrite lookup_insert_ne by done. rewrite IH.
      destruct (decide (k ∈ l)).
      * rewrite decide_True; [done|]. by right.
      * rewrite decide_False; [done|]. rewrite elem_of_cons. by intros [?|?].
Qed.

(** [makedirs] either raises and changes nothing, or makes every prefix a
    directory, none of which was a file. *)
Lemma makedirs_cases fs p :
  (∃ e, makedirs fs p = (Some e, fs)) ∨
  (makedirs fs p = (None, foldr (λ q acc, <[q := EDir]> acc) fs (prefixes p)) ∧
   ∀ q, q ∈ prefixes p → is_file fs q = false).
Proof.
  unfold makedirs.
  destruct (list_find _ _) as [[i q]|] eqn:E; [left; eauto|right].
  split; [done|]. intros q Hq.
  apply list_find_None in E. rewrite Forall_forall in E.
  specialize (E q Hq). by destruct (is_file fs q).
Qed.

Lemma makedirs_ok_lookup fs p fs' q :
  makedirs fs p = (None, fs') →
  fs' !! q = if decide (q ∈ prefixes p) then Some EDir else fs !! q.
Proof.
  destruct (makedirs_cases fs p) as [[e He]|[He _]]; rewrite He; [done|].
  intros [= <-]. apply foldr_mkdir_lookup.
Qed.

Lemma makedirs_keeps fs p q e :
  fs !! q = Some e → (makedirs fs p).2 !! q = Some e.
Proof.
  intros Hq. destruct (makedirs_cases fs p) as [[x He]|[He Hnf]]; rewrite He; simpl; [done|].
  rewrite foldr_mkdir_lookup. case_decide as Hin; [|done].
  specialize (Hnf q Hin). apply elem_of_prefixes in Hin as [Hne _].
  unfold is_file in Hnf. rewrite (node_at_ne fs q Hne), Hq in Hnf. by destruct e.
Qed.

Lemma rmtree_lookup fs p q :
  rmtree fs p !! q =
    if is_dir fs p then (if decide (p `prefix_of` q) then None else fs !! q) else fs !! q.
Proof.
  unfold rmtree. destruct (is_dir fs p); [|done].
  case_decide as Hp.
  - apply map_lookup_filter_None. right. intros x Hx. simpl. tauto.
  - destruct (fs !! q) as [e|] eqn:E.
    + apply map_lookup_filter_Some. done.
    + apply map_lookup_filter_None. by left.
Qed.

Lemma rmtree_frame fs p q : ¬ p `prefix_of` q → rmtree fs p !! q = fs !! q.
Proof. intros H. rewrite rmtree_lookup. destruct (is_dir fs p); [|done]. by rewrite decide_False. Qed.

Lemma write_file_cases fs t c :
  (∃ e, write_file fs t c = (Some e, fs)) ∨
  (write_file fs t c = (None, <[t := EFile c]> fs) ∧
   is_dir fs t = false ∧ is_dir fs (parent t) = true).
Proof.
  unfold write_file, is_dir.
  destruct (node_at fs t) as [[|]|]; eauto;
    destruct (node_at fs (parent t)) as [[|]|]; eauto.
Qed.

Lemma write_file_frame fs t c q : q ≠ t → (write_file fs t c).2 !! q = fs !! q.
Proof.
  intros Hne. destruct (write_file_cases fs t c) as [[e ->]|[-> _]]; simpl; [done|].
  by rewrite lookup_insert_ne.
Qed.

Lemma copy_target_prefix fs src dst : dst `prefix_of` copy_target fs src dst.
Proof. unfold copy_target. destruct (is_dir fs dst); [by apply prefix_app_r|done]. Qed.

Lemma copy_to_frame fs src c dst q :
  ¬ dst `prefix_of` q → (copy_to fs src c dst).2 !! q = fs !! q.
Proof.
  intros Hq. unfold copy_to.
  case_decide; [done|]. apply write_file_frame.
  intros ->. apply Hq, copy_target_prefix.
Qed.

Lemma copy2_frame fs src dst q :
  ¬ dst `prefix_of` q → (copy2 fs src dst).2 !! q = fs !! q.
Proof.
  intros Hq. unfold copy2. destruct (node_at fs src) as [[c|]|]; try done.
  by apply copy_to_frame.
Qed.

Lemma prefix_snoc_not (dst : path) n q : ¬ dst `prefix_of` q → ¬ (dst ++ [n]) `prefix_of` q.
Proof. intros H [k Hk]. apply H. exists ([n] ++ k). by rewrite Hk, <-(assoc_L (++)). Qed.

Lemma copytree_rec_S fuel snap src dst st :
  copytree_rec (S fuel) snap src dst st =
    foldl (copytree_entry (copytree_rec fuel snap) src dst) st (listdir snap src).
Proof. reflexivity. Qed.

#[global] Arguments copytree_rec : simpl never.

Lemma copytree_entry_frame recurse src dst st ne q :
  (∀ src dst st, ¬ dst `prefix_of` q → (recurse src dst st).1 !! q = st.1 !! q) →
  ¬ dst `prefix_of` q →
  (copytree_entry recurse src dst st ne).1 !! q = st.1 !! q.
Proof.
  intros IH Hq. destruct ne as [n e]. unfold copytree_entry. simpl.
  pose proof (prefix_snoc_not dst n q Hq) as Hq'.
  destruct e as [c|].
  - pose proof (copy_to_frame st.1 (src ++ [n]) c (dst ++ [n]) q Hq') as Hc.
    destruct (copy_to _ _ _ _) as [[x|] fs']; simpl in *; done.
  - destruct (node_at st.1 (dst ++ [n])) as [[|]|]; simpl; try done.
    + by apply IH.
    + etrans; [by apply IH|]. simpl. rewrite lookup_insert_ne; [done|].
      intros <-. by apply Hq'.
Qed.

Lemma copytree_rec_frame fuel snap src dst st q :
  ¬ dst `prefix_of` q → (copytree_rec fuel snap src dst st).1 !! q = st.1 !! q.
Proof.
  revert src dst st. induction fuel as [|fuel IH]; intros src dst st Hq; [done|].
  rewrite copytree_rec_S. generalize (listdir snap src). intros l. revert st.
  induction l as [|ne l IHl]; intros st; [done|].
  simpl. rewrite IHl. by apply copytree_entry_frame.
Qed.

Lemma copytree_keeps fs src dst q e :
  fs !! q = Some e → ¬ dst `prefix_of` q → (copytree fs src dst).2 !! q = Some e.
Proof.
  intros Hq Hd. unfold copytree.
  destruct (node_at fs src) as [[|]|]; try done.
  pose proof (makedirs_keeps fs dst q e Hq) as Hm.
  destruct (makedirs fs dst) as [[x|] fs1]; simpl in *; [done|].
  by rewrite copytree_rec_frame.
Qed.

Lemma strip_prefix_Some (p q r : path) : strip_prefix p q = Some r → q = p ++ r.
Proof.
  revert q. induction p as [|a p IH]; intros q; simpl.
  - by intros [= ->].
  - destruct q as [|b q]; [done|]. case_decide; [|done]. subst. intros H. by rewrite (IH q H).
Qed.

Lemma elem_of_listdir (fs : filesystem) (p : path) n e :
  (n, e) ∈ listdir fs p → fs !! (p ++ [n]) = Some e.
Proof.
  unfold listdir. rewrite list_elem_of_omap. intros ([q e'] & Hin & Hc).
  apply elem_of_map_to_list in Hin. unfold child_of in Hc. simpl in Hc.
  destruct (strip_prefix p q) as [[|m [|? ?]]|] eqn:E; try done.
  injection Hc as -> ->. by rewrite <-(strip_prefix_Some _ _ _ E).
Qed.

Lemma lookup_subtree (fs : filesystem) (src q : path) :
  subtree fs src !! q = if decide (src `prefix_of` q) then fs !! q else None.
Proof.
  unfold subtree. case_decide as H.
  - destruct (fs !! q) as [e|] eqn:E.
    + by apply map_lookup_filter_Some.
    + apply map_lookup_filter_None. by left.
  - apply map_lookup_filter_None. right. intros e _. done.
Qed.

(** ** A destination written with [..] *)

Lemma makedirs_through_keeps fs ws p q e :
  fs !! q = Some e → (makedirs_through fs ws p).2 !! q = Some e.
Proof.
  revert fs. induction ws as [|w ws IH]; intros fs Hq; simpl.
  - by apply makedirs_keeps.
  - pose proof (makedirs_keeps fs w q e Hq) as Hm.
    destruct (makedirs fs w) as [[x|] fs1]; simpl in *; [by destruct x|].
    by apply IH.
Qed.

(** ** No call makes a regular file but where it copies one to *)

Lemma is_file_true fs k : is_file fs k = true → k ≠ [] ∧ ∃ c, fs !! k = Some (EFile c).
Proof.
  unfold is_file. destruct k as [|n k]; simpl; [done|].
  destruct (fs !! (n :: k)) as [[c|]|]; try done. eauto.
Qed.

Lemma is_file_from fs k c : k ≠ [] → fs !! k = Some (EFile c) → is_file fs k = true.
Proof. intros Hne H. unfold is_file. by rewrite node_at_ne, H. Qed.

Lemma is_file_ext (fs fs' : filesystem) k : fs' !! k = fs !! k → is_file fs' k = is_file fs k.
Proof. intros H. unfold is_file. destruct k; simpl; [done|]. by rewrite H. Qed.

Lemma makedirs_no_new_file fs p k :
  is_file (makedirs fs p).2 k = true → is_file fs k = true.
Proof.
  destruct (makedirs_cases fs p) as [[e ->]|[-> _]]; simpl; [done|].
  intros [Hne [c Hc]]%is_file_true. rewrite foldr_mkdir_lookup in Hc.
  case_decide; [done|]. by eapply is_file_from.
Qed.

Lemma makedirs_through_no_new_file fs ws p k :
  is_file (makedirs_through fs ws p).2 k = true → is_file fs k = true.
Proof.
  revert fs. induction ws as [|w ws IH]; intros fs; simpl.
  - apply makedirs_no_new_file.
  - pose proof (makedirs_no_new_file fs w k) as Hm.
    destruct (makedirs fs w) as [[x|] fs1]; simpl in *; [by destruct x|].
    intros H. apply Hm. by apply IH.
Qed.

Lemma rmtree_no_new_file fs p k : is_file (rmtree fs p) k = true → is_file fs k = true.
Proof.
  intros [Hne [c Hc]]%is_file_true. rewrite rmtree_lookup in Hc.
  destruct (is_dir fs p); [case_decide; [done|]|]; by eapply is_file_from.
Qed.

Lemma copy2_no_new_file fs src dst k :
  ¬ dst `prefix_of` k → is_file (copy2 fs src dst).2 k = is_file fs k.
Proof. intros H. apply is_file_ext. by apply copy2_frame. Qed.

Lemma copytree_no_new_file fs src dst k :
  ¬ dst `prefix_of` k → is_file (copytree fs src dst).2 k = true → is_file fs k = true.
Proof.
  intros Hd. unfold copytree.
  destruct (node_at fs src) as [[|]|]; try done.
  pose proof (makedirs_no_new_file fs dst k) as Hm.
  destruct (makedirs fs dst) as [[x|] fs1]; simpl in *; [done|].
  intros H. apply Hm. rewrite <-H. symmetry. apply is_file_ext.
  by apply copytree_rec_frame.
Qed.

(** ** A regular file that no copied file lands on is kept *)

Lemma basename_snoc (p : path) n : basename (p ++ [n]) = n.
Proof. unfold basename. apply last_last. Qed.

Lemma copytree_entry_keeps_file (recurse : path → path → cstate → cstate)
    (snap : filesystem) (src dst : path) (st : cstate) (ne : string * entry)
    (q : path) (c : string) :
  (∀ src dst st, st.1 !! q = Some (EFile c) →
     (∀ r, q = dst ++ r → is_file snap (src ++ r) = false) →
     (recurse src dst st).1 !! q = Some (EFile c)) →
  snap !! (src ++ [ne.1]) = Some ne.2 →
  (∀ p n, q ≠ p ++ [n; n]) →
  st.1 !! q = Some (EFile c) →
  (∀ r, q = dst ++ r → is_file snap (src ++ r) = false) →
  (copytree_entry recurse src dst st ne).1 !! q = Some (EFile c).
Proof.
  intros IH Hne Hrep Hq Hland. destruct ne as [n e]. simpl in Hne.
  unfold copytree_entry. cbn [fst snd].
  assert (Hsub : ∀ r, q = (dst ++ [n]) ++ r → is_file snap ((src ++ [n]) ++ r) = false).
  { intros r ->. rewrite <-app_assoc. apply Hland. by rewrite <-app_assoc. }
  destruct e as [c'|].
  - assert (Hq1 : q ≠ dst ++ [n]).
    { intros ->. specialize (Hland [n] eq_refl).
      rewrite (is_file_from snap (src ++ [n]) c') in Hland; [done|by destruct src|done]. }
    assert (Hw : (copy_to st.1 (src ++ [n]) c' (dst ++ [n])).2 !! q = Some (EFile c)).
    { unfold copy_to. case_decide; [done|]. rewrite write_file_frame; [done|].
      unfold copy_target. rewrite basename_snoc.
      destruct (is_dir st.1 (dst ++ [n])); [|done].
      rewrite <-app_assoc. apply Hrep. }
    destruct (copy_to _ _ _ _) as [[x|] fs']; simpl in *; done.
  - rewrite node_at_app.
    destruct (st.1 !! (dst ++ [n])) as [[|]|] eqn:Hd; simpl; try done.
    + by apply IH.
    + apply IH; [|done]. simpl. rewrite lookup_insert_ne; [done|].
      intros E. by rewrite E, Hq in Hd.
Qed.

Lemma copytree_rec_keeps_file (fuel : nat) (snap : filesystem) (src dst : path)
    (st : cstate) (q : path) (c : string) :
  (∀ p n, q ≠ p ++ [n; n]) →
  st.1 !! q = Some (EFile c) →
  (∀ r, q = dst ++ r → is_file snap (src ++ r) = false) →
  (copytree_rec fuel snap src dst st).1 !! q = Some (EFile c).
Proof.
  intros Hrep. revert src dst st.
  induction fuel as [|fuel IH]; intros src dst st Hq Hland; [done|].
  rewrite copytree_rec_S.
  assert (Hl : Forall (λ ne, snap !! (src ++ [ne.1]) = Some ne.2) (listdir snap src)).
  { apply Forall_forall. intros [n e] Hin. by apply elem_of_listdir. }
  revert Hl. generalize (listdir snap src). intros l. revert st Hq.
  induction l as [|ne l IHl]; intros st Hq Hl; [done|].
  inversion Hl as [|? ? Hne Hl']; subst. simpl. apply IHl; [|done].
  apply copytree_entry_keeps_file with (snap := snap); done.
Qed.

Lemma copytree_through_keeps_file (fs : filesystem) (src : path) (ws : list path)
    (dst q : path) (c : string) :
  (∀ p n, q ≠ p ++ [n; n]) →
  fs !! q = Some (EFile c) →
  (∀ r, q = dst ++ r → is_file fs (src ++ r) = false) →
  (copytree_through fs src ws dst).2 !! q = Some (EFile c).
Proof.
  intros Hrep Hq Hland. unfold copytree_through.
  destruct (node_at fs src) as [[|]|]; try done.
  pose proof (makedirs_through_keeps fs ws dst q _ Hq) as Hm.
  destruct (makedirs_through fs ws dst) as [[x|] fs1]; simpl in *; [done|].
  apply copytree_rec_keeps_file; [done|done|].
  intros r Hr. specialize (Hland r Hr).
  destruct (is_file (subtree fs src) (src ++ r)) eqn:E; [|done].
  apply is_file_true in E as [Hne [c' Hc']]. rewrite lookup_subtree in Hc'.
  case_decide; [|done]. by rewrite (is_file_from fs _ c') in Hland.
Qed.

(** ** Paths written with names only *)

Lemma target_names (cur l : path) : target cur (map Name l) = cur ++ l.
Proof.
  revert cur. induction l as [|n l IH]; intros cur; simpl.
  - by rewrite app_nil_r.
  - by rewrite IH, <-app_assoc.
Qed.

Lemma walked_names (cur l : path) : walked cur (map Name l) = [].
Proof. revert cur. induction l as [|n l IH]; intros cur; simpl; [done|apply IH]. Qed.

Lemma path_join_configs cfg : path_join cfg (DOMAIN +:+ "/configs") = cfg ++ [DOMAIN; "configs"].
Proof. apply (target_names cfg [DOMAIN; "configs"]). Qed.

Lemma path_join_addons cfg : path_join cfg (DOMAIN +:+ "/addons") = cfg ++ [DOMAIN; "addons"].
Proof. apply (target_names cfg [DOMAIN; "addons"]). Qed.

Lemma path_join_dashboard cfg :
  path_join cfg (DOMAIN +:+ "/dashboard") = cfg ++ [DOMAIN; "dashboard"].
Proof. apply (target_names cfg [DOMAIN; "dashboard"]). Qed.

Lemma path_join_custom_actions cfg :
  path_join cfg (DOMAIN +:+ "/custom_actions") = cfg ++ [DOMAIN; "custom_actions"].
Proof. apply (target_names cfg [DOMAIN; "custom_actions"]). Qed.

Lemma path_join_ui cfg :
  path_join cfg (DOMAIN +:+ "/dashboard/ui.yaml") = cfg ++ [DOMAIN; "dashboard"; "ui.yaml"].
Proof. apply (target_names cfg [DOMAIN; "dashboard"; "ui.yaml"]). Qed.

Lemma path_join_custom_actions_file cfg :
  path_join cfg (DOMAIN +:+ "/custom_actions/custom_actions.yaml") =
    cfg ++ [DOMAIN; "custom_actions"; "custom_actions.yaml"].
Proof. apply (target_names cfg [DOMAIN; "custom_actions"; "custom_actions.yaml"]). Qed.

Lemma prefix_app_same (cfg a b : path) : (cfg ++ a) `prefix_of` (cfg ++ b) → a `prefix_of` b.
Proof. apply prefix_app_inv. Qed.

Lemma path_exists_Some fs q e : q ≠ [] → fs !! q = Some e → path_exists fs q = true.
Proof. intros Hne H. unfold path_exists. by rewrite node_at_ne, H. Qed.

Lemma apart_not_both (s d q : path) : apart s d → s `prefix_of` q → ¬ d `prefix_of` q.
Proof.
  intros [H1 H2] Hs Hd. destruct (prefix_weak_total s d q Hs Hd); auto.
Qed.

Lemma hoare_try {A} (P : World → Prop) (body : M A) (h : exn → M A) (Q : A → World → Prop)
    (E' E : World → Prop) :
  hoare P body Q E' → (∀ e, hoare E' (h e) Q E) → hoare P (try_except body h) Q E.
Proof.
  intros Hb Hh w Hw. unfold try_except. specialize (Hb w Hw).
  destruct (body w) as [[a|e] w']; [done|]. by apply Hh.
Qed.

(** ** The installer keeps a user's file that no theme file lands on *)

Section file_kept.
Context (self : MuiBase) (q : path) (c : string) (cfg : path) (cf : gmap string pyval).
Context (render : pyval → string).
Hypothesis Hq : q = cfg ++ [DOMAIN; "dashboard"; "ui.yaml"] ∨
                q = cfg ++ [DOMAIN; "custom_actions"; "custom_actions.yaml"].
Hypothesis Hlayout :
  ∀ i, integration self = Some i → file_path i = cfg ++ ["custom_components"; DOMAIN].

Local Abbreviation themes :=
  (path_join cfg (py_str render (default PNone (getattr cf "theme_path")) +:+ "/")).
Local Abbreviation bundle := (cfg ++ ["custom_components"; DOMAIN; "dashboard"; "themefiles"]).
Local Abbreviation I := (file_kept q c cfg cf render).
Local Abbreviation J :=
  (λ x, I x ∧ (is_Some (integration self) → lands_elsewhere bundle themes q (files x))).

Lemma kept_weaker x : J x → I x.
Proof. by intros [? _]. Qed.

Lemma kept_not_empty : q ≠ [].
Proof. destruct Hq as [-> | ->]; by destruct cfg. Qed.

Lemma kept_no_repeat : ∀ p n, q ≠ p ++ [n; n].
Proof.
  intros p n E. destruct Hq as [-> | ->].
  - change (cfg ++ [DOMAIN; "dashboard"; "ui.yaml"])
      with (cfg ++ [DOMAIN] ++ ["dashboard"; "ui.yaml"]) in E.
    rewrite app_assoc in E. apply app_inj_2 in E as [_ E]; [|done]. by injection E as <-.
  - change (cfg ++ [DOMAIN; "custom_actions"; "custom_actions.yaml"])
      with (cfg ++ [DOMAIN] ++ ["custom_actions"; "custom_actions.yaml"]) in E.
    rewrite app_assoc in E. apply app_inj_2 in E as [_ E]; [|done]. by injection E as <-.
Qed.

(** Destinations below the configuration directory's [minimalist_ui]
    and below the templates directory are neither in the bundle nor
    above it. *)
Lemma outside_bundle (tail : path) (k : path) :
  bundle `prefix_of` k →
  (∃ r, tail = DOMAIN :: r) ∨ (∃ r, tail = "custom_components" :: DOMAIN :: "__ui_minimalist__" :: r) →
  ¬ (cfg ++ tail) `prefix_of` k.
Proof.
  intros [r1 ->] Ht [r2 E]. rewrite <-!app_assoc in E. apply app_inv_head in E.
  destruct Ht as [[r ->]|[r ->]]; simpl in E; by injection E.
Qed.

Lemma kept_fs_call (op : filesystem → fs_result) :
  (∀ fs, fs !! q = Some (EFile c) → (op fs).2 !! q = Some (EFile c)) →
  (∀ fs k, bundle `prefix_of` k → is_file (op fs).2 k = true → is_file fs k = true) →
  keeps J (fs_call op) (λ _, True).
Proof.
  intros H1 H2. apply keeps_fs_call. intros w [(Hf & Hc & Hcf & Hr) Hl].
  split; [repeat split; simpl; auto|].
  intros Hi r Hr'. simpl. specialize (Hl Hi r Hr').
  destruct (is_file (op (files w)).2 (bundle ++ r)) eqn:E; [|done].
  rewrite (H2 (files w) (bundle ++ r)) in Hl; [done| |done]. by apply prefix_app_r.
Qed.

Lemma kept_config_path s :
  keeps J (config_path self s) (λ p, p = path_join cfg s).
Proof. apply keeps_config_path. by intros w [(_ & -> & _) _]. Qed.

Lemma kept_attr name : keeps J (attr name) (λ v, getattr cf name = Some v).
Proof. apply keeps_attr. by intros w v [(_ & _ & -> & _) _]. Qed.

Lemma kept_exists p : keeps J (os_path_exists p) (λ b, p = q → b = true).
Proof.
  apply keeps_os_path_exists. intros w [(Hf & _) _] ->.
  eapply path_exists_Some; [apply kept_not_empty|done].
Qed.

Lemma kept_copytree src dst tail :
  dst = cfg ++ tail →
  ¬ (cfg ++ tail) `prefix_of` q →
  (∃ r, tail = DOMAIN :: r) ∨ (∃ r, tail = "custom_components" :: DOMAIN :: "__ui_minimalist__" :: r) →
  keeps J (fs_call (λ fs, copytree fs src dst)) (λ _, True).
Proof.
  intros -> H Ht. apply kept_fs_call.
  - intros fs Hfs. by apply copytree_keeps.
  - intros fs k Hk. apply copytree_no_new_file. by apply outside_bundle.
Qed.

Lemma kept_copy2 src dst tail :
  dst = cfg ++ tail →
  ¬ (cfg ++ tail) `prefix_of` q →
  (∃ r, tail = DOMAIN :: r) ∨ (∃ r, tail = "custom_components" :: DOMAIN :: "__ui_minimalist__" :: r) →
  keeps J (fs_call (λ fs, copy2 fs src dst)) (λ _, True).
Proof.
  intros -> H Ht. apply kept_fs_call.
  - intros fs Hfs. by rewrite copy2_frame.
  - intros fs k Hk. rewrite copy2_no_new_file; [done|]. by apply outside_bundle.
Qed.

Lemma kept_makedirs p : keeps J (fs_call (λ fs, makedirs fs p)) (λ _, True).
Proof.
  apply kept_fs_call.
  - intros fs Hfs. by apply makedirs_keeps.
  - intros fs k _. apply makedirs_no_new_file.
Qed.

Lemma kept_rmtree p :
  ¬ p `prefix_of` q → keeps J (fs_call (λ fs, (None, rmtree fs p))) (λ _, True).
Proof.
  intros H. apply kept_fs_call.
  - intros fs Hfs. simpl. by rewrite rmtree_frame.
  - intros fs k _. apply rmtree_no_new_file.
Qed.

Lemma kept_templates :
  keeps J (templates_dir self)
    (λ t, t = cfg ++ ["custom_components"; DOMAIN; "__ui_minimalist__"; "mui_templates"]).
Proof.
  eapply keeps_weaken; [apply keeps_templates_dir|].
  intros t Ht. unfold templates_dir_of in Ht.
  destruct (integration self) as [i|] eqn:Hi; [|done]. injection Ht as <-.
  by rewrite (Hlayout i), <-app_assoc.
Qed.

Lemma kept_integration_dir :
  keeps J (integration_dir self)
    (λ d, d = cfg ++ ["custom_components"; DOMAIN] ∧ is_Some (integration self)).
Proof.
  eapply keeps_weaken; [apply keeps_integration_dir|].
  intros d (i & Hi & ->). split; [by apply Hlayout|by exists i].
Qed.

(** The statements of [install_assets] before the copy of the themes. *)
Lemma kbind {A B} (m : M A) (k : A → M B) (φ : A → Prop) (R : B → World → Prop) :
  keeps J m φ → (∀ a, φ a → hoare J (k a) R I) → hoare J (m ≫= k) R I.
Proof.
  intros Hm Hk. eapply hoare_bind.
  - apply (keeps_hoare J m φ I Hm). apply kept_weaker.
  - intros a w [Hw Ha]. by apply Hk.
Qed.

Lemma not_templates (tail : path) :
  ¬ (cfg ++ "custom_components" :: tail) `prefix_of` q.
Proof.
  destruct Hq as [-> | ->]; intros H%prefix_app_same; by destruct H as [k [=]].
Qed.

Lemma kept_install_assets : hoare J (install_assets self) (λ _, I) I.
Proof.
  unfold install_assets.
  eapply kbind; [apply kept_templates|intros t ->].
  eapply kbind; [apply kept_makedirs|intros _ _].
  eapply kbind; [apply kept_attr|intros lang _].
  eapply kbind; [apply keeps_lookup_language|intros language _].
  eapply kbind; [apply kept_integration_dir|intros d [-> _]].
  eapply kbind; [apply kept_templates|intros t' ->].
  eapply kbind.
  { eapply kept_copy2; [by rewrite <-app_assoc|apply not_templates|right; eauto]. }
  intros _ _.
  eapply kbind; [apply kept_attr|intros sidepanel_enabled _].
  eapply kbind.
  { instantiate (1 := λ _, True). destruct (truthy sidepanel_enabled); [|by apply keeps_ret].
    eapply keeps_bind; [apply kept_config_path|intros p ->].
    eapply keeps_bind; [apply kept_exists|intros found Hfound].
    destruct found; simpl; [by apply keeps_ret|].
    eapply keeps_bind; [apply kept_integration_dir|intros d' _].
    eapply keeps_bind; [apply kept_config_path|intros p ->].
    eapply kept_copy2; [apply path_join_ui| |left; eauto].
    rewrite path_join_ui in Hfound.
    destruct Hq as [-> | ->].
    - by specialize (Hfound eq_refl).
    - intros H%prefix_app_same. by destruct H as [k [=]]. }
  intros _ _.
  eapply kbind; [apply kept_config_path|intros p ->].
  eapply kbind; [apply kept_exists|intros found Hfound].
  eapply kbind.
  { instantiate (1 := λ _, True). destruct found; simpl; [by apply keeps_ret|].
    eapply keeps_bind; [apply kept_integration_dir|intros d' _].
    eapply keeps_bind; [apply kept_config_path|intros p ->].
    eapply kept_copy2; [apply path_join_custom_actions_file| |left; eauto].
    rewrite path_join_custom_actions_file in Hfound.
    destruct Hq as [-> | ->].
    - intros H%prefix_app_same. by destruct H as [k [=]].
    - by specialize (Hfound eq_refl). }
  intros _ _.
  eapply kbind; [apply kept_integration_dir|intros d2 _].
  eapply kbind; [apply kept_templates|intros t2 ->].
  eapply kbind.
  { eapply kept_copy2; [by rewrite <-app_assoc|apply not_templates|right; eauto]. }
  intros _ _.
  eapply kbind; [apply kept_integration_dir|intros d3 _].
  eapply kbind; [apply kept_templates|intros t3 ->].
  eapply kbind.
  { eapply kept_copytree; [reflexivity|apply not_templates|right; eauto]. }
  intros _ _.
  eapply kbind; [apply kept_config_path|intros p ->].
  eapply kbind; [apply kept_templates|intros t4 ->].
  eapply kbind.
  { eapply kept_copytree; [by rewrite <-app_assoc|apply not_templates|right; eauto]. }
  intros _ _.
  eapply kbind; [apply kept_integration_dir|intros d4 [-> Hsome]].
  eapply kbind; [apply kept_attr|intros tp Htp].
  eapply kbind.
  { apply (keeps_gets J _ (λ s, s = py_str render tp +:+ "/")).
    by intros w [(_ & _ & _ & ->) _]. }
  intros theme ->.
  eapply kbind; [apply kept_config_path|intros p ->].
  eapply kbind; [by apply (keeps_gets J _ (λ _, True))|intros through _].
  intros w [(Hf & Hc & Hcf & Hr) Hl]. unfold fs_call.
  assert (Hkeep : (copytree_through (files w)
                     ((cfg ++ ["custom_components"; DOMAIN]) ++ ["dashboard"; "themefiles"])
                     through (path_join cfg (py_str render tp +:+ "/"))).2 !! q
                  = Some (EFile c)).
  { apply copytree_through_keeps_file; [apply kept_no_repeat|done|].
    rewrite <-app_assoc. rewrite (getattr_default cf "theme_path" (PStr DEFAULT_THEME_PATH)) in Htp
      by reflexivity.
    injection Htp as <-. by apply Hl. }
  destruct (copytree_through _ _ _ _) as [[e|] fs']; simpl in *; by repeat split.
Qed.

Lemma kept_host (w : World) (h : Hass) :
  config_dir h = config_dir (host w) → object_text h = object_text (host w) →
  I w → I (set_host h w).
Proof. intros H1 H2 (? & ? & ? & ?). repeat split; simpl; congruence. Qed.

Lemma kept_bus_async_fire name : keeps I (bus_async_fire self name) (λ _, True).
Proof.
  unfold bus_async_fire.
  eapply keeps_bind; [apply keeps_self_hass|intros _ _].
  eapply keeps_bind; [apply keeps_host_does|intros _ _].
  apply (keeps_modify _ _ (λ _, True)). intros w Hw. by apply kept_host.
Qed.

Lemma kept_services_async_register d n :
  keeps I (services_async_register self d n) (λ _, True).
Proof.
  unfold services_async_register.
  eapply keeps_bind; [apply keeps_self_hass|intros _ _].
  eapply keeps_bind; [apply keeps_host_does|intros _ _].
  apply (keeps_modify _ _ (λ _, True)). intros w Hw. by apply kept_host.
Qed.

Lemma kept_configure_mui_body : hoare J (configure_mui_body self) (λ _, I) I.
Proof.
  unfold configure_mui_body, cleanup, create_and_install.
  eapply kbind.
  { instantiate (1 := λ _, True).
    eapply keeps_bind; [apply kept_config_path|intros p ->].
    eapply keeps_bind.
    { apply kept_rmtree. rewrite path_join_configs.
      destruct Hq as [-> | ->]; intros H%prefix_app_same; by destruct H as [k [=]]. }
    intros _ _.
    eapply keeps_bind; [apply kept_config_path|intros p ->].
    apply kept_rmtree. rewrite path_join_addons.
    destruct Hq as [-> | ->]; intros H%prefix_app_same; by destruct H as [k [=]]. }
  intros _ _.
  eapply kbind; [apply kept_config_path|intros p ->].
  eapply kbind; [by apply kept_makedirs|intros _ _].
  eapply kbind; [apply kept_config_path|intros p ->].
  eapply kbind; [by apply kept_makedirs|intros _ _].
  eapply kbind; [apply kept_config_path|intros p ->].
  eapply kbind; [apply kept_exists|intros found _].
  eapply hoare_bind.
  { instantiate (1 := λ _, I). destruct found; [apply kept_install_assets|].
    intros w Hw. by apply kept_weaker. }
  intros ?.
  eapply hoare_bind.
  { apply (keeps_hoare_inv I _ (λ _, True)). apply kept_bus_async_fire. }
  intros ?. apply (keeps_hoare_inv I _ (λ _, True)). apply kept_services_async_register.
Qed.

Lemma kept_configure_mui : hoare J (configure_mui self) (λ _, I) I.
Proof.
  unfold configure_mui.
  eapply kbind; [by apply keeps_log_text|intros _ _].
  apply hoare_try with (E' := I).
  - eapply hoare_bind; [apply kept_configure_mui_body|intros ?].
    intros w Hw. exact Hw.
  - intros e. apply (keeps_hoare_inv I _ (λ _, True)).
    eapply keeps_bind; [by apply keeps_log_exception|intros _ _].
    eapply keeps_bind; [by apply keeps_disable_load|intros _ _]. by apply keeps_ret.
Qed.
End file_kept.

(** ** Statements that only read the world or write files and the log *)

Section blind.
Context (I : World → Prop).
Hypothesis Hfiles : ∀ w f, I w → I (set_files f w).
Hypothesis Hlog : ∀ w r, I w → I (add_log r w).

Lemma blind_fs_call op : keeps I (fs_call op) (λ _, True).
Proof. apply keeps_fs_call. auto. Qed.

Lemma blind_config_path self s : keeps I (config_path self s) (λ _, True).
Proof. by apply keeps_config_path. Qed.

Lemma blind_attr name : keeps I (attr name) (λ _, True).
Proof. by apply keeps_attr. Qed.

Lemma blind_exists p : keeps I (os_path_exists p) (λ _, True).
Proof. by apply keeps_os_path_exists. Qed.

Lemma blind_install_assets self : keeps I (install_assets self) (λ _, True).
Proof.
  unfold install_assets.
  repeat first
    [ apply blind_fs_call
    | apply blind_config_path
    | apply blind_attr
    | apply blind_exists
    | by apply keeps_gets
    | apply keeps_lookup_language
    | by apply keeps_ret
    | eapply keeps_weaken; [apply keeps_templates_dir|done]
    | eapply keeps_weaken; [apply keeps_integration_dir|done]
    | match goal with
      | |- keeps _ (if ?b then _ else _) _ => destruct b
      | |- keeps _ (_ ≫= _) _ => eapply (keeps_bind _ _ _ (λ _, True)); [|intros ? _]
      end ].
Qed.

End blind.


Lemma fire_hoare self ev :
  hoare (events_are ev) (bus_async_fire self RELOAD_EVENT)
        (λ _, events_are (ev ++ [RELOAD_EVENT])) (events_are ev).
Proof.
  intros w Hw. unfold bus_async_fire. rewrite run_bind. unfold self_hass.
  destruct (hass self); [|done]. unfold ret at 1.
  rewrite run_bind. unfold host_does. destruct (faults (host w) BusFire); [done|].
  unfold modify, events_are in *. simpl. by rewrite Hw.
Qed.

Lemma register_keeps_events self ev d n :
  keeps (events_are ev) (services_async_register self d n) (λ _, True).
Proof.
  unfold services_async_register.
  eapply keeps_bind; [apply keeps_self_hass|intros _ _].
  eapply keeps_bind; [apply keeps_host_does|intros _ _].
  by apply (keeps_modify _ _ (λ _, True)).
Qed.

Lemma configure_mui_body_events self ev :
  hoare (events_are ev) (configure_mui_body self)
        (λ _, events_are (ev ++ [RELOAD_EVENT])) (λ _, True).
Proof.
  unfold configure_mui_body, cleanup, create_and_install.
  assert (Hk : ∀ {A} (m : M A) φ, keeps (events_are ev) m φ →
             hoare (events_are ev) m (λ _, events_are ev) (λ _, True)).
  { intros A m φ Hm. eapply hoare_post; [by eapply keeps_hoare|]. by intros a w [? _]. }
  assert (Hfs : ∀ op, hoare (events_are ev) (fs_call op) (λ _, events_are ev) (λ _, True)).
  { intros op. by eapply Hk, blind_fs_call. }
  assert (Hcp : ∀ s, hoare (events_are ev) (config_path self s) (λ _, events_are ev) (λ _, True)).
  { intros s. by eapply Hk, blind_config_path. }
  eapply hoare_bind.
  { instantiate (1 := λ _, events_are ev).
    eapply hoare_bind; [apply Hcp|intros p]. eapply hoare_bind; [apply Hfs|intros ?].
    eapply hoare_bind; [apply Hcp|intros p1]. apply Hfs. }
  intros ?.
  eapply hoare_bind; [apply Hcp|intros p2]. eapply hoare_bind; [apply Hfs|intros ?].
  eapply hoare_bind; [apply Hcp|intros p3]. eapply hoare_bind; [apply Hfs|intros ?].
  eapply hoare_bind; [apply Hcp|intros p4].
  eapply hoare_bind; [by eapply Hk, blind_exists|intros found].
  eapply hoare_bind.
  { destruct found; [by eapply Hk, blind_install_assets|]. apply (Hk _ _ (λ _, True)). by apply keeps_ret. }
  intros ?.
  eapply hoare_bind.
  { eapply hoare_conseq; [apply (fire_hoare self ev)|done..]. }
  intros ?. eapply hoare_conseq; [eapply keeps_hoare; [apply register_keeps_events|done]|..].
  - done.
  - by intros ? w [? _].
  - done.
Qed.

Lemma configure_mui_fires_once self w w' :
  configure_mui self w = (Ok true, w') →
  bus_events (host w') = bus_events (host w) ++ [RELOAD_EVENT].
Proof.
  rewrite configure_mui_run.
  pose proof (configure_mui_body_events self (bus_events (host w))
                (add_log (LogText LvlInfo "Setup MUI Configuration") w) eq_refl) as H.
  destruct (configure_mui_body _ _) as [[[]|e] wb]; intros [= <-]. exact H.
Qed.

Lemma reload_configuration_events self ev :
  hoare (events_are ev) (reload_configuration self)
        (λ _, events_are (ev ++ [RELOAD_EVENT])) (events_are ev).
Proof.
  unfold reload_configuration.
  eapply hoare_bind; [by eapply keeps_hoare_inv, blind_config_path|intros p].
  eapply hoare_bind; [by eapply keeps_hoare_inv, (blind_exists (events_are ev))|intros found].
  eapply hoare_bind; [|intros ?; apply fire_hoare].
  eapply (keeps_hoare_inv _ _ (λ _, True)).
  destruct found; [|by apply keeps_ret].
  eapply (keeps_bind _ _ _ (λ _, True)); [by apply blind_config_path|intros ? _].
  eapply (keeps_bind _ _ _ (λ _, True)); [|intros ? _; by apply blind_fs_call].
  eapply keeps_weaken; [apply keeps_templates_dir|done].
Qed.

(** ** The dependency check *)

Section host_and_log.
Context (I : World → Prop).
Hypothesis Hhost : ∀ w h, config_dir h = config_dir (host w) → I w → I (set_host h w).
Hypothesis Hlog : ∀ w r, I w → I (add_log r w).

Lemma hl_add_extra_js_url url : keeps I (add_extra_js_url url) (λ _, True).
Proof.
  unfold add_extra_js_url.
  eapply keeps_bind; [apply keeps_host_does|intros _ _].
  apply (keeps_modify _ _ (λ _, True)). intros w Hw. by apply Hhost.
Qed.

Lemma hl_configure_plugins_body self : keeps I (configure_plugins_body self) (λ _, True).
Proof.
  unfold configure_plugins_body.
  repeat first
    [ by apply keeps_config_path
    | by apply keeps_os_path_exists
    | by apply keeps_attr
    | by apply keeps_log_text
    | apply hl_add_extra_js_url
    | apply keeps_host_does
    | by apply keeps_ret
    | eapply keeps_weaken; [apply keeps_self_hass|done]
    | eapply keeps_weaken; [apply keeps_integration_dir|done]
    | apply keeps_for_each; intros ?
    | apply (keeps_modify _ _ (λ _, True)); intros w Hw; by apply Hhost
    | match goal with
      | |- keeps _ (if ?b then _ else _) _ => destruct b
      | |- keeps _ (_ ≫= _) _ => eapply (keeps_bind _ _ _ (λ _, True)); [|intros ? _]
      end ].
Qed.
End host_and_log.

Lemma configure_plugins_frame self w b w' :
  configure_plugins self w = (Ok b, w') →
  files w' = files w ∧ configuration w' = configuration w ∧
  config_dir (host w') = config_dir (host w) ∧
  running (system w') = running (system w) ∧
  disabled_reason (system w') =
    (if b then disabled_reason (system w) else Some LOAD_MUI).
Proof.
  rewrite configure_plugins_run.
  set (w0 := add_log _ w).
  assert (H : keeps
    (λ x, files x = files w ∧ configuration x = configuration w ∧
          config_dir (host x) = config_dir (host w) ∧ system x = system w)
    (configure_plugins_body self) (λ _, True)).
  { apply hl_configure_plugins_body; [|done].
    intros x h Hh (? & ? & ? & ?). repeat split; simpl; congruence. }
  destruct (H w0) as [(Hf & Hc & Hd & Hs) _]; [done|].
  destruct (configure_plugins_body self w0) as [[[]|e] wb]; simpl in *;
    intros [= <- <-]; simpl; rewrite ?Hs; done.
Qed.

(** ** Relating two runs *)

Section agree_rules.
Context (R : World → World → Prop).

Lemma agree_bind {A B} (m : M A) (k : A → M B) :
  agree R m → (∀ a, agree R (k a)) → agree R (m ≫= k).
Proof.
  intros Hm Hk w1 w2 HR. rewrite !run_bind.
  destruct (Hm w1 w2 HR) as [Ho HR'].
  destruct (m w1) as [[a1|e1] w1'], (m w2) as [[a2|e2] w2']; simpl in *; simplify_eq.
  - by apply Hk.
  - done.
Qed.

Lemma agree_ret {A} (a : A) : agree R (ret a).
Proof. by intros w1 w2 HR. Qed.

Lemma agree_raise {A} (e : exn) : agree R (raise (A:=A) e).
Proof. by intros w1 w2 HR. Qed.

Lemma agree_gets {A} (f : World → A) :
  (∀ w1 w2, R w1 w2 → f w1 = f w2) → agree R (gets f).
Proof. intros H w1 w2 HR. unfold gets. simpl. split; [f_equal; auto|done]. Qed.

Lemma agree_modify (f : World → World) :
  (∀ w1 w2, R w1 w2 → R (f w1) (f w2)) → agree R (modify f).
Proof. intros H w1 w2 HR. unfold modify. simpl. auto. Qed.

Lemma agree_for_each {A} (l : list A) (f : A → M unit) :
  (∀ a, agree R (f a)) → agree R (for_each l f).
Proof.
  intros Hf. induction l as [|a l IH]; simpl; [apply agree_ret|].
  apply agree_bind; auto.
Qed.

Lemma agree_try {A} (body : M A) (h : exn → M A) :
  agree R body → (∀ e, agree R (h e)) → agree R (try_except body h).
Proof.
  intros Hb Hh w1 w2 HR. unfold try_except.
  destruct (Hb w1 w2 HR) as [Ho HR'].
  destruct (body w1) as [[a1|e1] w1'], (body w2) as [[a2|e2] w2']; simpl in *; simplify_eq.
  - done.
  - by apply Hh.
Qed.

Lemma agree_self_hass self name : agree R (self_hass self name).
Proof. unfold self_hass. destruct (hass self); [apply agree_ret|apply agree_raise]. Qed.

Lemma agree_integration_dir self : agree R (integration_dir self).
Proof.
  unfold integration_dir. destruct (integration self); [apply agree_ret|apply agree_raise].
Qed.
End agree_rules.

Section files_and_log.
Local Abbreviation R := same_but_files_and_log.

Lemma fl_log r1 r2 w1 w2 : R w1 w2 → R (add_log r1 w1) (add_log r2 w2).
Proof. done. Qed.

Lemma fl_log_l r w1 w2 : R w1 w2 → R (add_log r w1) w2.
Proof. done. Qed.

Lemma fl_log_r r w1 w2 : R w1 w2 → R w1 (add_log r w2).
Proof. done. Qed.

Lemma fl_log_text lvl msg : agree R (log_text lvl msg).
Proof. apply agree_modify. intros. by apply fl_log. Qed.

Lemma fl_attr name : agree R (attr name).
Proof.
  intros w1 w2 HR. unfold attr. destruct HR as (? & Hc & ?). rewrite Hc.
  by destruct (getattr (configuration w2) name).
Qed.

Lemma fl_config_path self s : agree R (config_path self s).
Proof.
  unfold config_path. apply agree_bind; [apply agree_self_hass|intros _].
  apply agree_gets. by intros w1 w2 (_ & _ & ->).
Qed.

Lemma fl_host_does c : agree R (host_does c).
Proof.
  intros w1 w2 HR. unfold host_does. pose proof HR as (_ & _ & ->).
  by destruct (faults (host w2) c).
Qed.

Lemma fl_modify_host (f : Hass → Hass) :
  agree R (modify (λ w, set_host (f (host w)) w)).
Proof.
  apply agree_modify. intros w1 w2 (Hs & Hc & Hh). unfold same_but_files_and_log.
  simpl. by rewrite Hs, Hc, Hh.
Qed.

Lemma fl_exists_then p (stmt : bool → M unit) :
  test_blind stmt → agree R (os_path_exists p ≫= stmt).
Proof.
  intros H w1 w2 HR. rewrite !run_bind. unfold os_path_exists, gets.
  destruct (H (path_exists (files w1) p) (path_exists (files w2) p) w1 w2 HR)
    as (H1 & H2 & H3).
  split; [congruence|done].
Qed.

Lemma fl_exists_then_seq {B} p (stmt : bool → M unit) (k : M B) :
  test_blind stmt → agree R k →
  agree R (os_path_exists p ≫= λ found, stmt found ≫= λ _, k).
Proof.
  intros H Hk w1 w2 HR. rewrite !run_bind. unfold os_path_exists, gets.
  destruct (H (path_exists (files w1) p) (path_exists (files w2) p) w1 w2 HR)
    as (H1 & H2 & H3).
  rewrite !run_bind.
  destruct (stmt _ w1) as [[[]|] w1'], (stmt _ w2) as [[[]|] w2']; simpl in *; try done.
  by apply Hk.
Qed.

Lemma test_blind_log_if_not lvl msg :
  test_blind (λ found, if negb found then log_text lvl msg else ret tt).
Proof. intros b1 b2 w1 w2 HR. by destruct b1, b2. Qed.

Lemma test_blind_log_if lvl msg :
  test_blind (λ found : bool, if found then log_text lvl msg else ret tt).
Proof. intros b1 b2 w1 w2 HR. by destruct b1, b2. Qed.

Lemma fl_add_extra_js_url url : agree R (add_extra_js_url url).
Proof.
  unfold add_extra_js_url. apply agree_bind; [apply fl_host_does|intros _].
  apply (fl_modify_host (λ h, set_extra_js_urls (extra_js_urls h ++ [url]) h)).
Qed.

Lemma fl_configure_plugins_body self : agree R (configure_plugins_body self).
Proof.
  unfold configure_plugins_body.
  apply agree_bind; [apply fl_config_path|intros p].
  apply fl_exists_then_seq; [apply test_blind_log_if_not|].
  apply agree_bind.
  { apply agree_for_each. intros name.
    apply agree_bind; [apply fl_attr|intros ioc].
    destruct (negb (truthy ioc)).
    - apply agree_bind; [apply fl_config_path|intros q].
      apply fl_exists_then, test_blind_log_if_not.
    - apply agree_bind; [apply fl_config_path|intros q].
      apply fl_exists_then, test_blind_log_if. }
  intros _.
  apply agree_bind; [apply fl_attr|intros ioc].
  apply agree_bind.
  { destruct (truthy ioc); [|apply agree_ret].
    apply agree_for_each. intros name.
    apply agree_bind; [apply agree_self_hass|intros _]. apply fl_add_extra_js_url. }
  intros _.
  apply agree_bind; [apply agree_self_hass|intros _].
  apply agree_bind; [apply agree_self_hass|intros _].
  apply agree_bind; [apply agree_integration_dir|intros d].
  apply agree_bind; [apply fl_host_does|intros _].
  apply (fl_modify_host (λ h, set_static_paths (static_paths h ++
    [("/minimalist_ui/ext_dependencies", d ++ ["ext_dependencies"], true)]) h)).
Qed.

Lemma fl_caught e1 e2 w1 w2 : R w1 w2 → R (caught e1 w1) (caught e2 w2).
Proof. intros (Hs & Hc & Hh). unfold same_but_files_and_log. simpl. by rewrite Hs, Hc, Hh. Qed.

Lemma configure_plugins_agrees self w1 w2 :
  R w1 w2 →
  (configure_plugins self w1).1 = (configure_plugins self w2).1 ∧
  R (configure_plugins self w1).2 (configure_plugins self w2).2.
Proof.
  intros HR. rewrite !configure_plugins_run.
  destruct (fl_configure_plugins_body self
              (add_log (LogText LvlDebug "Checking Dependencies.") w1)
              (add_log (LogText LvlDebug "Checking Dependencies.") w2)) as [Ho HR'].
  { by apply fl_log. }
  destruct (configure_plugins_body self _) as [[[]|e1] w1'],
           (configure_plugins_body self _) as [[[]|e2] w2']; simpl in *; try done.
  split; [done|]. by apply fl_caught.
Qed.
End files_and_log.

(** ** The cleanup at the start of [configure_mui] *)

Lemma config_path_run self s w :
  hass self = true →
  config_path self s w = (Ok (path_join (config_dir (host w)) s), w).
Proof. intros H. unfold config_path, self_hass. rewrite H. reflexivity. Qed.

Lemma is_dir_lookup fs p : p ≠ [] → is_dir fs p = true ↔ fs !! p = Some EDir.
Proof.
  intros Hne. unfold is_dir. rewrite node_at_ne by done.
  destruct (fs !! p) as [[|]|]; naive_solver.
Qed.

Lemma rmtree_not_dir fs p : is_dir fs p = false → rmtree fs p = fs.
Proof. unfold rmtree. by intros ->. Qed.

Lemma is_dir_rmtree_same fs p : p ≠ [] → is_dir (rmtree fs p) p = false.
Proof.
  intros Hne. unfold is_dir at 1. rewrite node_at_ne by done. rewrite rmtree_lookup.
  destruct (is_dir fs p) eqn:E.
  - by rewrite decide_True.
  - unfold is_dir in E. rewrite node_at_ne in E by done. by destruct (fs !! p) as [[|]|].
Qed.

Lemma is_dir_rmtree_other fs p q :
  q ≠ [] → ¬ p `prefix_of` q → is_dir (rmtree fs p) q = is_dir fs q.
Proof.
  intros Hne Hp. unfold is_dir. rewrite !node_at_ne by done. by rewrite rmtree_frame.
Qed.

Lemma rmtree_pair_again fs c a :
  c ≠ [] → a ≠ [] → ¬ a `prefix_of` c →
  let g := rmtree (rmtree fs c) a in rmtree (rmtree g c) a = g.
Proof.
  intros Hc Ha Hac g.
  assert (rmtree g c = g) as ->.
  { apply rmtree_not_dir. unfold g. rewrite is_dir_rmtree_other by done.
    by apply is_dir_rmtree_same. }
  apply rmtree_not_dir. by apply is_dir_rmtree_same.
Qed.

Lemma configs_addons cfg : ¬ (cfg ++ [DOMAIN; "addons"]) `prefix_of` (cfg ++ [DOMAIN; "configs"]).
Proof. intros H%prefix_app_same. by destruct H as [k [=]]. Qed.

Lemma cleanup_run self w :
  hass self = true → cleanup self w = (Ok tt, cleaned w).
Proof.
  intros Hh. unfold cleanup.
  rewrite run_bind, config_path_run by done. rewrite path_join_configs.
  rewrite run_bind. unfold fs_call at 1. cbn [fst snd].
  rewrite run_bind, config_path_run by done. rewrite path_join_addons.
  reflexivity.
Qed.

Lemma cleaned_cleaned w : cleaned (cleaned w) = cleaned w.
Proof.
  unfold cleaned at 1 2, clean_files. simpl files. simpl host.
  fold (configs_dir w). fold (addons_dir w).
  rewrite (rmtree_pair_again (files w) (configs_dir w) (addons_dir w)).
  - reflexivity.
  - unfold configs_dir. by destruct (config_dir (host w)).
  - unfold addons_dir. by destruct (config_dir (host w)).
  - apply configs_addons.
Qed.

Lemma configure_mui_body_cleaned self w :
  hass self = true → configure_mui_body self w = configure_mui_body self (cleaned w).
Proof.
  intros Hh. unfold configure_mui_body.
  rewrite !run_bind, !cleanup_run by done. by rewrite cleaned_cleaned.
Qed.

Lemma configure_mui_cleaned self w :
  hass self = true → configure_mui self w = configure_mui self (cleaned w).
Proof.
  intros Hh. rewrite !configure_mui_run.
  rewrite (configure_mui_body_cleaned self (add_log _ w)) by done.
  reflexivity.
Qed.

Lemma async_startup_cleaned self w :
  hass self = true → async_startup self w = async_startup self (cleaned w).
Proof.
  intros Hh. unfold async_startup. by rewrite !run_bind, <-configure_mui_cleaned.
Qed.

Lemma cleaned_nothing_below_configs w q :
  is_dir (files w) (configs_dir w) = true →
  configs_dir w `prefix_of` q → files (cleaned w) !! q = None.
Proof.
  intros Hd Hq. unfold cleaned, clean_files. simpl.
  fold (configs_dir w). fold (addons_dir w). rewrite rmtree_lookup.
  assert (rmtree (files w) (configs_dir w) !! q = None) as Hn.
  { rewrite rmtree_lookup, Hd. by rewrite decide_True. }
  destruct (is_dir _ (addons_dir w)); [|done]. by case_decide.
Qed.

Lemma cleaned_nothing_below_addons w q :
  is_dir (files w) (addons_dir w) = true →
  addons_dir w `prefix_of` q → files (cleaned w) !! q = None.
Proof.
  intros Hd Hq. unfold cleaned, clean_files. simpl.
  fold (configs_dir w). fold (addons_dir w). rewrite rmtree_lookup.
  assert (Ha : addons_dir w ≠ []).
  { unfold addons_dir. by destruct (config_dir (host w)). }
  assert (is_dir (rmtree (files w) (configs_dir w)) (addons_dir w) = true) as ->.
  { rewrite is_dir_rmtree_other; [done|done|].
    unfold configs_dir, addons_dir. intros H%prefix_app_same. by destruct H as [k [=]]. }
  by rewrite decide_True.
Qed.

Lemma cleaned_elsewhere w q :
  ¬ configs_dir w `prefix_of` q → ¬ addons_dir w `prefix_of` q →
  files (cleaned w) !! q = files w !! q.
Proof. intros H1 H2. unfold cleaned, clean_files. simpl. by rewrite !rmtree_frame. Qed.

(** ** Kinds only grow *)

Lemma kind_le_refl a : kind_le a a.
Proof. intros q. destruct (a !! q) as [[c|]|]; eauto. Qed.

Lemma kind_le_trans a b c : kind_le a b → kind_le b c → kind_le a c.
Proof.
  intros H1 H2 q. specialize (H1 q). specialize (H2 q).
  destruct (a !! q) as [[x|]|]; [|by rewrite H1 in H2|done].
  destruct H1 as [y Hy]. by rewrite Hy in H2.
Qed.

Lemma kind_le_dir a A p : kind_le a A → is_dir a p = true → is_dir A p = true.
Proof.
  intros H. destruct p as [|n p]; [done|]. unfold is_dir. rewrite !node_at_cons.
  specialize (H (n :: p)). destruct (a !! (n :: p)) as [[c|]|]; try done. by rewrite H.
Qed.

Lemma kind_le_file a A p : kind_le a A → is_file a p = true → is_file A p = true.
Proof.
  intros H. destruct p as [|n p]; [done|]. unfold is_file. rewrite !node_at_cons.
  specialize (H (n :: p)). destruct (a !! (n :: p)) as [[c|]|]; try done.
  destruct H as [c' ->]. done.
Qed.

Lemma kind_le_exists a A p : kind_le a A → path_exists a p = true → path_exists A p = true.
Proof.
  intros H. destruct p as [|n p]; [done|]. unfold path_exists. rewrite !node_at_cons.
  specialize (H (n :: p)). destruct (a !! (n :: p)) as [[c|]|]; try done.
  - destruct H as [c' ->]. done.
  - by rewrite H.
Qed.

Lemma kind_le_insert_file a t c :
  is_dir a t = false → kind_le a (<[t := EFile c]> a).
Proof.
  intros Hd q. destruct (decide (t = q)) as [->|Hne].
  - rewrite lookup_insert_eq. unfold is_dir in Hd.
    destruct q as [|n q]; [done|]. rewrite node_at_cons in Hd.
    destruct (a !! (n :: q)) as [[x|]|]; eauto. done.
  - rewrite lookup_insert_ne by done. destruct (a !! q) as [[x|]|]; eauto.
Qed.

Lemma kind_le_insert_dir a t :
  t ≠ [] → is_file a t = false → kind_le a (<[t := EDir]> a).
Proof.
  intros Hne' Hd q. destruct (decide (t = q)) as [->|Hne].
  - rewrite lookup_insert_eq. unfold is_file in Hd.
    destruct q as [|n q]; [done|]. rewrite node_at_cons in Hd.
    destruct (a !! (n :: q)) as [[x|]|]; eauto. done.
  - rewrite lookup_insert_ne by done. destruct (a !! q) as [[x|]|]; eauto.
Qed.

Lemma kind_le_keeps a A :
  (∀ q e, a !! q = Some e → A !! q = Some e) → kind_le a A.
Proof.
  intros H q. destruct (a !! q) as [[x|]|] eqn:E; eauto.
Qed.

(** ** A file system between two others *)

Lemma between_same a b : between a a b → b = a.
Proof. intros H. apply map_eq. intros q. by destruct (H q). Qed.

Lemma between_insert A a b t e :
  between A a b → between A (<[t := e]> a) (<[t := e]> b).
Proof.
  intros H q. destruct (decide (t = q)) as [->|Hne].
  - left. by rewrite !lookup_insert_eq.
  - rewrite !lookup_insert_ne by done. apply H.
Qed.

Lemma between_dir A a b p :
  between A a b → kind_le a A → is_dir a p = true → is_dir b p = true.
Proof.
  intros Hb Hk Hd. pose proof (kind_le_dir a A p Hk Hd) as HA.
  destruct p as [|n p]; [done|]. unfold is_dir in *. rewrite !node_at_cons in *.
  destruct (Hb (n :: p)) as [-> | ->]; done.
Qed.

Lemma between_file A a b p :
  between A a b → kind_le a A → is_file a p = true → is_file b p = true.
Proof.
  intros Hb Hk Hd. pose proof (kind_le_file a A p Hk Hd) as HA.
  destruct p as [|n p]; [done|]. unfold is_file in *. rewrite !node_at_cons in *.
  destruct (Hb (n :: p)) as [-> | ->]; done.
Qed.

Lemma between_exists A a b p :
  between A a b → kind_le a A → path_exists a p = true → path_exists b p = true.
Proof.
  intros Hb Hk Hd. pose proof (kind_le_exists a A p Hk Hd) as HA.
  destruct p as [|n p]; [done|]. unfold path_exists in *. rewrite !node_at_cons in *.
  destruct (Hb (n :: p)) as [-> | ->]; done.
Qed.

(** A path that is no directory in [a] and no directory in [A] is none in [b]. *)
Lemma between_not_dir A a b p :
  between A a b → is_dir a p = false → is_dir A p = false → is_dir b p = false.
Proof.
  intros Hb Ha HA. destruct p as [|n p]; [done|]. unfold is_dir in *.
  rewrite !node_at_cons in *. destruct (Hb (n :: p)) as [-> | ->]; done.
Qed.

Lemma between_not_file A a b p :
  between A a b → is_file a p = false → is_file A p = false → is_file b p = false.
Proof.
  intros Hb Ha HA. destruct p as [|n p]; [done|]. unfold is_file in *.
  rewrite !node_at_cons in *. destruct (Hb (n :: p)) as [-> | ->]; done.
Qed.

Lemma is_dir_not_file fs p : is_dir fs p = true → is_file fs p = false.
Proof. unfold is_dir, is_file. by destruct (node_at fs p) as [[|]|]. Qed.

Lemma is_file_not_dir fs p : is_file fs p = true → is_dir fs p = false.
Proof. unfold is_dir, is_file. by destruct (node_at fs p) as [[|]|]. Qed.

Lemma is_dir_insert_dir fs t : is_dir (<[t := EDir]> fs) t = true.
Proof.
  destruct t as [|n t]; [done|]. unfold is_dir. by rewrite node_at_cons, lookup_insert_eq.
Qed.

Lemma is_file_insert_file fs t c : t ≠ [] → is_file (<[t := EFile c]> fs) t = true.
Proof.
  intros Hne. destruct t as [|n t]; [done|]. unfold is_file.
  by rewrite node_at_cons, lookup_insert_eq.
Qed.

(** ** [makedirs] *)

Lemma makedirs_ok fs p :
  (∀ q, q ∈ prefixes p → is_file fs q = false) →
  makedirs fs p = (None, foldr (λ q acc, <[q := EDir]> acc) fs (prefixes p)).
Proof.
  intros H. unfold makedirs.
  destruct (list_find _ _) as [[i q]|] eqn:E; [|done].
  apply list_find_Some in E as (Hi & Hq & _).
  rewrite H in Hq; [done|]. by eapply list_elem_of_lookup_2.
Qed.

Lemma makedirs_kind_le fs p : kind_le fs (makedirs fs p).2.
Proof. apply kind_le_keeps. intros q e. apply makedirs_keeps. Qed.

Lemma makedirs_is_dir fs p fs' : makedirs fs p = (None, fs') → is_dir fs' p = true.
Proof.
  intros H. destruct p as [|n p]; [done|]. unfold is_dir. rewrite node_at_cons.
  rewrite (makedirs_ok_lookup _ _ _ _ H). rewrite decide_True; [done|].
  apply elem_of_prefixes. done.
Qed.

Lemma makedirs_replay A a b p a' :
  between A a b → makedirs a p = (None, a') → kind_le a' A →
  ∃ b', makedirs b p = (None, b') ∧ between A a' b'.
Proof.
  intros Hb Hm Hk.
  destruct (makedirs_cases a p) as [[e He]|[He Hnf]]; [congruence|].
  assert (HA : ∀ q, q ∈ prefixes p → A !! q = Some EDir).
  { intros q Hq. specialize (Hk q).
    rewrite (makedirs_ok_lookup _ _ _ q Hm), decide_True in Hk by done. done. }
  assert (Hbf : ∀ q, q ∈ prefixes p → is_file b q = false).
  { intros q Hq. apply (between_not_file A a b q Hb); [by apply Hnf|].
    apply elem_of_prefixes in Hq as Hq'. destruct Hq' as [Hne _].
    unfold is_file. by rewrite node_at_ne, (HA q Hq). }
  eexists. split; [by apply makedirs_ok|].
  intros q. rewrite (makedirs_ok_lookup _ _ _ q Hm), foldr_mkdir_lookup.
  case_decide; [by left|apply Hb].
Qed.

(** ** Copying a file *)

Lemma write_file_ok fs t c :
  is_dir fs t = false → is_dir fs (parent t) = true →
  write_file fs t c = (None, <[t := EFile c]> fs).
Proof.
  unfold write_file, is_dir. intros H1 H2.
  destruct (node_at fs t) as [[|]|]; try done;
    destruct (node_at fs (parent t)) as [[|]|]; done.
Qed.

Lemma write_file_kind_le fs t c : kind_le fs (write_file fs t c).2.
Proof.
  destruct (write_file_cases fs t c) as [[e ->]|(-> & Hd & _)]; simpl.
  - apply kind_le_refl.
  - by apply kind_le_insert_file.
Qed.

Lemma copy_to_kind_le fs src c dst : kind_le fs (copy_to fs src c dst).2.
Proof.
  unfold copy_to. case_decide; [apply kind_le_refl|apply write_file_kind_le].
Qed.

Lemma copy2_kind_le fs src dst : kind_le fs (copy2 fs src dst).2.
Proof.
  unfold copy2. destruct (node_at fs src) as [[c|]|]; try apply kind_le_refl.
  apply copy_to_kind_le.
Qed.

Lemma parent_snoc (p : path) n : parent (p ++ [n]) = p.
Proof. unfold parent. apply removelast_last. Qed.

Lemma is_dir_insert_ne fs t e p : t ≠ p → is_dir (<[t := e]> fs) p = is_dir fs p.
Proof.
  intros Hne. destruct p as [|n p]; [done|]. unfold is_dir.
  by rewrite !node_at_cons, lookup_insert_ne.
Qed.

Lemma copy_to_cases fs src c dst :
  let t := copy_target fs src dst in
  (∃ e, copy_to fs src c dst = (Some e, fs) ∧
        (t = src ∨ is_dir fs t = true ∨ is_dir fs (parent t) = false)) ∨
  (copy_to fs src c dst = (None, <[t := EFile c]> fs) ∧
   t ≠ src ∧ is_dir fs t = false ∧ is_dir fs (parent t) = true).
Proof.
  intros t. unfold copy_to. fold t.
  case_decide as Ht; [left; eauto|].
  unfold write_file, is_dir.
  destruct (node_at fs t) as [[|]|]; eauto 10;
    destruct (node_at fs (parent t)) as [[|]|]; eauto 10.
Qed.

(** The target of a copy is the same in [b] as in [a] once the copy has
    been made in [a] and its result has lasted to [A]. *)
Lemma copy_target_between A a b src c dst :
  between A a b → kind_le a A →
  is_dir a (copy_target a src dst) = false →
  kind_le (<[copy_target a src dst := EFile c]> a) A →
  copy_target b src dst = copy_target a src dst.
Proof.
  intros Hb Hk Hnd HkA. unfold copy_target in *.
  destruct (is_dir a dst) eqn:Hd.
  - by rewrite (between_dir A a b dst Hb Hk Hd).
  - assert (dst ≠ []) as Hne by (by destruct dst).
    assert (is_dir A dst = false) as HA.
    { specialize (HkA dst). rewrite lookup_insert_eq in HkA. destruct HkA as [c' HA].
      unfold is_dir. by rewrite node_at_ne, HA. }
    by rewrite (between_not_dir A a b dst Hb Hd HA).
Qed.

Lemma copy_to_replay A a b src c dst a' :
  between A a b → copy_to a src c dst = (None, a') → kind_le a' A →
  ∃ b', copy_to b src c dst = (None, b') ∧ between A a' b'.
Proof.
  intros Hb Hc HkA.
  destruct (copy_to_cases a src c dst) as [(e & He & _)|(He & Hts & Hnd & Hpd)];
    [congruence|].
  rewrite He in Hc. injection Hc as <-.
  set (t := copy_target a src dst) in *.
  assert (Hk : kind_le a A).
  { eapply kind_le_trans; [|exact HkA]. by apply kind_le_insert_file. }
  assert (Ht : copy_target b src dst = t) by (by eapply copy_target_between).
  assert (t ≠ []) as Hne by (intros E; by rewrite E in Hnd).
  assert (is_dir A t = false) as HA.
  { specialize (HkA t). rewrite lookup_insert_eq in HkA. destruct HkA as [c' HA].
    unfold is_dir. by rewrite node_at_ne, HA. }
  exists (<[t := EFile c]> b). split; [|by apply between_insert].
  unfold copy_to. rewrite Ht.
  rewrite decide_False by done. apply write_file_ok.
  - by apply (between_not_dir A a b t).
  - by apply (between_dir A a b (parent t)).
Qed.

(** A copy that fails in [a] fails in [b]. *)
Lemma copy_to_replay_error A a b src c dst e :
  between A a b → kind_le a A →
  copy_to a src c dst = (Some e, a) →
  copy_target a src dst ≠ src → is_dir a (parent dst) = true →
  ∃ e', copy_to b src c dst = (Some e', b).
Proof.
  intros Hb Hk Hc Hts Hpd.
  destruct (copy_to_cases a src c dst) as [(e0 & He & Hwhy)|(He & _)]; [|congruence].
  destruct Hwhy as [Hsame|[Hdir|Hpar]]; [done| |].
  - unfold copy_target in Hdir. destruct (is_dir a dst) eqn:Hd; [|congruence].
    pose proof (between_dir A a b dst Hb Hk Hd) as Hbd.
    pose proof (between_dir A a b _ Hb Hk Hdir) as Hbt.
    destruct (copy_to_cases b src c dst) as [(e1 & He1 & _)|(_ & _ & Hnd & _)]; [eauto|].
    unfold copy_target in Hnd. rewrite Hbd in Hnd. congruence.
  - unfold copy_target in Hpar. destruct (is_dir a dst) eqn:Hd.
    + rewrite parent_snoc in Hpar. congruence.
    + congruence.
Qed.

Lemma copy2_replay A a b src dst a' :
  between A a b → copy2 a src dst = (None, a') → kind_le a' A →
  A !! src = a !! src →
  ∃ b', copy2 b src dst = (None, b') ∧ between A a' b'.
Proof.
  intros Hb Hc HkA Hsrc. unfold copy2 in *.
  assert (node_at b src = node_at a src) as ->.
  { destruct src as [|n src]; [done|]. rewrite !node_at_cons.
    destruct (Hb (n :: src)) as [->| ->]; done. }
  destruct (node_at a src) as [[c|]|]; try done.
  by eapply copy_to_replay.
Qed.

(** ** Copying a tree *)


Lemma prefix_snoc_inv (p q : path) n : (p ++ [n]) `prefix_of` (q ++ [n]) → p `prefix_of` q.
Proof.
  intros [k Hk]. destruct (decide (k = [])) as [->|Hne].
  - rewrite app_nil_r in Hk. by apply app_inj_tail in Hk as [-> _].
  - destruct (exists_last Hne) as (k' & x & ->).
    rewrite app_assoc in Hk. apply app_inj_tail in Hk as [-> _].
    rewrite <-app_assoc. by apply prefix_app_r.
Qed.

Lemma apart_snoc (src dst : path) n : apart src dst → apart (src ++ [n]) (dst ++ [n]).
Proof. intros [H1 H2]. split; intros H%prefix_snoc_inv; auto. Qed.

Lemma apart_target fs (src dst : path) n :
  apart src dst → copy_target fs (src ++ [n]) (dst ++ [n]) ≠ src ++ [n].
Proof.
  intros [H1 H2]. unfold copy_target. destruct (is_dir fs (dst ++ [n])).
  - intros E. apply app_inj_tail in E as [E _]. apply H2. rewrite <-E. by apply prefix_app_r.
  - intros E. apply app_inj_tail in E as [E _]. apply H1. by rewrite E.
Qed.

Section entries.
Context (A : filesystem) (recurse : path → path → cstate → cstate).
Hypothesis recurse_kind_le : ∀ s d st, kind_le st.1 (recurse s d st).1.
Hypothesis recurse_replay : ∀ s d (sta stb : cstate),
  apart s d → between A sta.1 stb.1 → sta.2 = stb.2 → is_dir sta.1 d = true →
  kind_le (recurse s d sta).1 A →
  between A (recurse s d sta).1 (recurse s d stb).1 ∧
  (recurse s d sta).2 = (recurse s d stb).2.

Lemma copytree_entry_kind_le (src dst : path) (st : cstate) (ne : string * entry) :
  kind_le st.1 (copytree_entry recurse src dst st ne).1.
Proof.
  unfold copytree_entry. destruct ne as [n [c|]]; simpl.
  - pose proof (copy_to_kind_le st.1 (src ++ [n]) c (dst ++ [n])) as H.
    destruct (copy_to _ _ _ _) as [[e|] fs']; simpl in *; [apply kind_le_refl|done].
  - destruct (node_at st.1 (dst ++ [n])) as [[|]|] eqn:E; simpl.
    + apply kind_le_refl.
    + apply recurse_kind_le.
    + eapply kind_le_trans; [|apply recurse_kind_le]. simpl.
      apply kind_le_insert_dir; [by destruct dst|]. unfold is_file. by rewrite E.
Qed.

Lemma copytree_entries_kind_le (src dst : path) (l : list (string * entry)) (st : cstate) :
  kind_le st.1 (foldl (copytree_entry recurse src dst) st l).1.
Proof.
  revert st. induction l as [|ne l IH]; intros st; simpl; [apply kind_le_refl|].
  eapply kind_le_trans; [apply copytree_entry_kind_le|apply IH].
Qed.

Lemma copytree_entry_replay (src dst : path) (sta stb : cstate) (ne : string * entry) :
  apart src dst → between A sta.1 stb.1 → sta.2 = stb.2 → is_dir sta.1 dst = true →
  kind_le (copytree_entry recurse src dst sta ne).1 A →
  between A (copytree_entry recurse src dst sta ne).1
            (copytree_entry recurse src dst stb ne).1 ∧
  (copytree_entry recurse src dst sta ne).2 = (copytree_entry recurse src dst stb ne).2.
Proof.
  intros Hap Hb He Hd HkA.
  assert (Hk : kind_le sta.1 A).
  { eapply kind_le_trans; [apply copytree_entry_kind_le|exact HkA]. }
  destruct sta as [a ea], stb as [b eb]. simpl in *. subst eb.
  unfold copytree_entry in *. destruct ne as [n [c|]]; simpl in *.
  - destruct (copy_to a (src ++ [n]) c (dst ++ [n])) as [[e|] a'] eqn:Hc; simpl in *.
    + assert (a' = a) as ->.
      { destruct (copy_to_cases a (src ++ [n]) c (dst ++ [n])) as [(? & E & _)|(E & _)];
          congruence. }
      destruct (copy_to_replay_error A a b (src ++ [n]) c (dst ++ [n]) e) as [e' ->]; try done.
      * by apply apart_target.
      * by rewrite parent_snoc.
    + destruct (copy_to_replay A a b _ _ _ _ Hb Hc HkA) as (b' & -> & Hb'). done.
  - destruct (node_at a (dst ++ [n])) as [[x|]|] eqn:E; simpl in *.
    + assert (is_file b (dst ++ [n]) = true) as Hf.
      { apply (between_file A a b); [done..|]. unfold is_file. by rewrite E. }
      unfold is_file in Hf. destruct (node_at b (dst ++ [n])) as [[y|]|]; done.
    + assert (is_dir b (dst ++ [n]) = true) as Hf.
      { apply (between_dir A a b); [done..|]. unfold is_dir. by rewrite E. }
      unfold is_dir in Hf. destruct (node_at b (dst ++ [n])) as [[y|]|]; try done.
      apply recurse_replay; simpl; try done.
      * by apply apart_snoc.
      * unfold is_dir. by rewrite E.
    + assert (HAd : A !! (dst ++ [n]) = Some EDir).
      { pose proof (recurse_kind_le (src ++ [n]) (dst ++ [n])
                      (<[dst ++ [n] := EDir]> a, ea)) as H1.
        pose proof (kind_le_trans _ _ _ H1 HkA (dst ++ [n])) as H2.
        simpl in H2. by rewrite lookup_insert_eq in H2. }
      rewrite node_at_app in E.
      destruct (Hb (dst ++ [n])) as [Hbn|Hbn]; rewrite E in Hbn || rewrite HAd in Hbn;
        rewrite node_at_app, Hbn.
      * apply recurse_replay; simpl; try done.
        -- by apply apart_snoc.
        -- by apply between_insert.
        -- apply is_dir_insert_dir.
      * apply recurse_replay; simpl; try done.
        -- by apply apart_snoc.
        -- intros q. destruct (decide (dst ++ [n] = q)) as [<-|Hne].
           ++ left. by rewrite lookup_insert_eq.
           ++ rewrite lookup_insert_ne by done. apply Hb.
        -- apply is_dir_insert_dir.
Qed.

Lemma copytree_entries_replay (src dst : path) (l : list (string * entry)) (sta stb : cstate) :
  apart src dst → between A sta.1 stb.1 → sta.2 = stb.2 → is_dir sta.1 dst = true →
  kind_le (foldl (copytree_entry recurse src dst) sta l).1 A →
  between A (foldl (copytree_entry recurse src dst) sta l).1
            (foldl (copytree_entry recurse src dst) stb l).1 ∧
  (foldl (copytree_entry recurse src dst) sta l).2 =
  (foldl (copytree_entry recurse src dst) stb l).2.
Proof.
  intros Hap. revert sta stb. induction l as [|ne l IH]; intros sta stb Hb He Hd HkA;
    simpl in *; [done|].
  assert (Hk1 : kind_le (copytree_entry recurse src dst sta ne).1 A).
  { eapply kind_le_trans; [apply copytree_entries_kind_le|exact HkA]. }
  destruct (copytree_entry_replay src dst sta stb ne) as [Hb1 He1]; try done.
  apply IH; try done.
  eapply kind_le_dir; [apply copytree_entry_kind_le|done].
Qed.
End entries.

Lemma copytree_rec_kind_le (fuel : nat) (snap : filesystem) (src dst : path) (st : cstate) :
  kind_le st.1 (copytree_rec fuel snap src dst st).1.
Proof.
  revert src dst st. induction fuel as [|fuel IH]; intros src dst st; [apply kind_le_refl|].
  rewrite copytree_rec_S. by apply copytree_entries_kind_le.
Qed.

Lemma copytree_rec_replay (A : filesystem) (fuel : nat) (snap : filesystem) (src dst : path) (sta stb : cstate) :
  apart src dst → between A sta.1 stb.1 → sta.2 = stb.2 → is_dir sta.1 dst = true →
  kind_le (copytree_rec fuel snap src dst sta).1 A →
  between A (copytree_rec fuel snap src dst sta).1 (copytree_rec fuel snap src dst stb).1 ∧
  (copytree_rec fuel snap src dst sta).2 = (copytree_rec fuel snap src dst stb).2.
Proof.
  revert src dst sta stb. induction fuel as [|fuel IH]; intros src dst sta stb; [done|].
  rewrite !copytree_rec_S. apply copytree_entries_replay; [|done].
  intros. apply copytree_rec_kind_le.
Qed.

Lemma copytree_kind_le (fs : filesystem) (src dst : path) : kind_le fs (copytree fs src dst).2.
Proof.
  unfold copytree. destruct (node_at fs src) as [[|]|]; try apply kind_le_refl.
  pose proof (makedirs_kind_le fs dst) as Hm.
  destruct (makedirs fs dst) as [[e|] fs1]; simpl in *; [done|].
  eapply kind_le_trans; [exact Hm|].
  apply (copytree_rec_kind_le _ _ src dst (fs1, [])).
Qed.

Lemma subtree_ext (a b : filesystem) (src : path) :
  (∀ q, src `prefix_of` q → b !! q = a !! q) → subtree b src = subtree a src.
Proof.
  intros H. apply map_eq. intros q. rewrite !lookup_subtree.
  case_decide; [by apply H|done].
Qed.

Lemma makedirs_frame (fs : filesystem) (d s q : path) :
  apart s d → s `prefix_of` q → (makedirs fs d).2 !! q = fs !! q.
Proof.
  intros [H1 H2] Hs.
  destruct (makedirs_cases fs d) as [[e ->]|[-> _]]; simpl; [done|].
  rewrite foldr_mkdir_lookup. case_decide as Hin; [|done].
  apply elem_of_prefixes in Hin as [_ Hq]. exfalso. apply H1. by etrans.
Qed.

Lemma copytree_frame (fs : filesystem) (src dst s q : path) :
  apart s dst → s `prefix_of` q → (copytree fs src dst).2 !! q = fs !! q.
Proof.
  intros Hap Hs. unfold copytree.
  destruct (node_at fs src) as [[|]|]; try done.
  pose proof (makedirs_frame fs dst s q Hap Hs) as Hm.
  destruct (makedirs fs dst) as [[x|] fs1]; simpl in *; [done|].
  etrans; [|exact Hm].
  apply (copytree_rec_frame _ _ src dst (fs1, [])). by eapply apart_not_both.
Qed.

Lemma run_op_frame (o : fsop) (fs : filesystem) (s q : path) :
  (∀ d, op_dst o = Some d → apart s d) → s `prefix_of` q →
  (run_op o fs).2 !! q = fs !! q.
Proof.
  intros Hap Hs. destruct o as [p|src dst|src dst|src dst|e]; simpl.
  - apply (makedirs_frame fs p s); [by apply Hap|done].
  - apply copy2_frame. eapply apart_not_both; [by apply Hap|done].
  - destruct (path_exists fs dst); [done|].
    apply copy2_frame. eapply apart_not_both; [by apply Hap|done].
  - apply (copytree_frame fs src dst s); [by apply Hap|done].
  - done.
Qed.

Lemma run_op_kind_le (o : fsop) (fs : filesystem) : kind_le fs (run_op o fs).2.
Proof.
  destruct o as [p|src dst|src dst|src dst|e]; simpl.
  - apply makedirs_kind_le.
  - apply copy2_kind_le.
  - destruct (path_exists fs dst); [apply kind_le_refl|apply copy2_kind_le].
  - apply copytree_kind_le.
  - apply kind_le_refl.
Qed.

Lemma run_ops_kind_le (ops : list fsop) (fs : filesystem) : kind_le fs (run_ops ops fs).2.
Proof.
  revert fs. induction ops as [|o ops IH]; intros fs; simpl; [apply kind_le_refl|].
  pose proof (run_op_kind_le o fs) as H.
  destruct (run_op o fs) as [[e|] fs']; simpl in *; [done|].
  eapply kind_le_trans; [exact H|apply IH].
Qed.

Lemma run_ops_frame (ops : list fsop) (fs : filesystem) (s q : path) :
  (∀ o d, o ∈ ops → op_dst o = Some d → apart s d) → s `prefix_of` q →
  (run_ops ops fs).2 !! q = fs !! q.
Proof.
  revert fs. induction ops as [|o ops IH]; intros fs Hap Hs; simpl; [done|].
  pose proof (run_op_frame o fs s q) as H.
  destruct (run_op o fs) as [[e|] fs']; simpl in *.
  - apply H; [|done]. intros d. apply Hap. by left.
  - rewrite IH; [|intros o' d Ho'; apply Hap; by right|done].
    apply H; [|done]. intros d. apply Hap. by left.
Qed.

(** ** Replaying one operation *)

Lemma copytree_replay (A a b : filesystem) (src dst : path) r a' :
  between A a b → copytree a src dst = (r, a') → kind_le a' A →
  (∀ q, src `prefix_of` q → A !! q = a !! q) → apart src dst →
  (r ≠ None → A = a') →
  ∃ b', copytree b src dst = (r, b') ∧ between A a' b'.
Proof.
  intros Hb Hc HkA Hsrc Hap Herr.
  assert (Hsame : ∀ q, src `prefix_of` q → b !! q = a !! q).
  { intros q Hq. destruct (Hb q) as [->| ->]; [done|by apply Hsrc]. }
  assert (Hatomic : a' = a → r ≠ None → ∃ b', copytree b src dst = (r, b') ∧ between A a' b').
  { intros -> Hr. specialize (Herr Hr). subst A.
    rewrite (between_same a b Hb). exists a. split; [done|]. by intros q; left. }
  unfold copytree in Hc |- *.
  assert (node_at b src = node_at a src) as ->.
  { destruct src as [|n src]; [done|]. rewrite !node_at_cons. by apply Hsame. }
  destruct (node_at a src) as [[c|]|] eqn:Hn.
  - injection Hc as <- <-. destruct Hatomic as (b' & Hb' & ?); [done..|].
    unfold copytree in Hb'.
    assert (node_at b src = node_at a src) as E.
    { destruct src as [|n src]; [done|]. rewrite !node_at_cons. by apply Hsame. }
    rewrite E, Hn in Hb'. eauto.
  - destruct (makedirs a dst) as [[e|] a1] eqn:Hm.
    + injection Hc as <- <-.
      assert (a1 = a) as ->.
      { destruct (makedirs_cases a dst) as [[x Hx]|[Hx _]]; congruence. }
      destruct Hatomic as (b' & Hb' & ?); [done..|].
      unfold copytree in Hb'.
      assert (node_at b src = node_at a src) as E.
      { destruct src as [|n src]; [done|]. rewrite !node_at_cons. by apply Hsame. }
      rewrite E, Hn in Hb'. eauto.
    + cbv zeta in Hc. rewrite (subtree_ext a b src Hsame).
      set (snap := subtree a src) in *. set (fuel := S (depth_bound snap)) in *.
      injection Hc as Hr Ha'.
      assert (Hk1 : kind_le a1 A).
      { eapply kind_le_trans; [|exact HkA]. rewrite <-Ha'.
        apply (copytree_rec_kind_le fuel snap src dst (a1, [])). }
      destruct (makedirs_replay A a b dst a1 Hb Hm Hk1) as (b1 & -> & Hb1).
      cbv zeta.
      destruct (copytree_rec_replay A fuel snap src dst (a1, []) (b1, [])) as [Hb2 He2];
        try done.
      { by eapply makedirs_is_dir. }
      { by rewrite Ha'. }
      rewrite <-He2, Hr. rewrite Ha' in Hb2. eauto.
  - injection Hc as <- <-. destruct Hatomic as (b' & Hb' & ?); [done..|].
    unfold copytree in Hb'.
    assert (node_at b src = node_at a src) as E.
    { destruct src as [|n src]; [done|]. rewrite !node_at_cons. by apply Hsame. }
    rewrite E, Hn in Hb'. eauto.
Qed.

Lemma copy2_error_atomic (fs : filesystem) (src dst : path) e fs' :
  copy2 fs src dst = (Some e, fs') → fs' = fs.
Proof.
  unfold copy2. destruct (node_at fs src) as [[c|]|]; try by intros [= _ <-].
  destruct (copy_to_cases fs src c dst) as [(x & -> & _)|(-> & _)]; by intros [= _ <-].
Qed.

Lemma copy2_absent (fs : filesystem) (src dst : path) fs' :
  path_exists fs dst = false → copy2 fs src dst = (None, fs') →
  ∃ c, fs' = <[dst := EFile c]> fs.
Proof.
  intros Hex. unfold copy2. destruct (node_at fs src) as [[c|]|]; try done.
  destruct (copy_to_cases fs src c dst) as [(x & -> & _)|(-> & _)]; [done|].
  intros [= <-]. exists c. unfold copy_target.
  assert (is_dir fs dst = false) as ->; [|done].
  unfold is_dir, path_exists in *. by destruct (node_at fs dst) as [[|]|].
Qed.

Lemma run_op_replay (A a b : filesystem) (o : fsop) r a' :
  between A a b → run_op o a = (r, a') → kind_le a' A →
  (∀ s, op_src o = Some s →
        (∀ q, s `prefix_of` q → A !! q = a !! q) ∧
        (∀ d, op_dst o = Some d → apart s d)) →
  (r ≠ None → A = a') →
  ∃ b', run_op o b = (r, b') ∧ between A a' b'.
Proof.
  intros Hb Hrun HkA Hsrc Herr.
  assert (Hatomic : a' = a → r ≠ None → ∃ b', run_op o b = (r, b') ∧ between A a' b').
  { intros -> Hr. specialize (Herr Hr). subst A.
    rewrite (between_same a b Hb). exists a. split; [done|]. by intros q; left. }
  destruct o as [p|src dst|src dst|src dst|e]; simpl in *.
  - destruct (makedirs_cases a p) as [[e He]|[He _]]; rewrite He in Hrun;
      injection Hrun as <- <-.
    + by apply Hatomic.
    + exact (makedirs_replay A a b p _ Hb He HkA).
  - destruct r as [e|].
    + apply Hatomic; [|done]. by eapply copy2_error_atomic.
    + destruct (Hsrc src eq_refl) as [Hs _].
      eapply copy2_replay; [done..|]. apply Hs. done.
  - destruct (path_exists a dst) eqn:Hex.
    + injection Hrun as <- <-.
      rewrite (between_exists A a b dst Hb HkA Hex). eauto.
    + destruct r as [e|].
      * destruct (Hatomic) as (b' & Hb' & ?); [by eapply copy2_error_atomic|done|].
        eauto.
      * destruct (Hsrc src eq_refl) as [Hs _].
        destruct (path_exists b dst) eqn:Hexb.
        -- exists b. split; [done|].
           destruct (copy2_absent a src dst a' Hex Hrun) as [c ->].
           assert (dst ≠ []) as Hne by (by destruct dst).
           intros q. destruct (decide (dst = q)) as [<-|Hq].
           ++ right. destruct (Hb dst) as [E|E]; [|done]. exfalso.
              unfold path_exists in Hex, Hexb. rewrite node_at_ne in Hex, Hexb by done.
              rewrite E in Hexb. by destruct (a !! dst).
           ++ rewrite lookup_insert_ne by done. apply Hb.
        -- eapply copy2_replay; [done..|]. apply Hs. done.
  - destruct (Hsrc src eq_refl) as [Hs Hd].
    eapply copytree_replay; eauto.
  - injection Hrun as <- <-. by apply Hatomic.
Qed.

(** ** Replaying the operations: from any file system between the start and
    the end of a run, the run ends where it ended. *)
Lemma run_ops_replay (ops : list fsop) :
  sources_apart ops →
  ∀ a b r A, run_ops ops a = (r, A) → between A a b → run_ops ops b = (r, A).
Proof.
  induction ops as [|o ops IH]; intros Hap a b r A Hrun Hb; simpl in *.
  - injection Hrun as <- <-. by rewrite (between_same a b Hb).
  - destruct Hap as [Hhead Hrest].
    destruct (run_op o a) as [[e|] a'] eqn:Ho.
    + injection Hrun as <- <-.
      destruct (run_op_replay a' a b o (Some e) a' Hb Ho) as (b' & -> & Hb'); try done.
      * apply kind_le_refl.
      * intros s Hs. split.
        -- intros q Hq. pose proof (run_op_frame o a s q) as H. rewrite Ho in H.
           apply H; [|done]. intros d Hd. eapply Hhead; [done| |done]. by left.
        -- intros d Hd. eapply Hhead; [done| |done]. by left.
      * by rewrite (between_same a' b' Hb').
    + assert (HkA : kind_le a' A).
      { pose proof (run_ops_kind_le ops a') as H. by rewrite Hrun in H. }
      destruct (run_op_replay A a b o None a' Hb Ho HkA) as (b' & -> & Hb'); try done.
      * intros s Hs. split.
        -- intros q Hq.
           pose proof (run_ops_frame ops a' s q) as H. rewrite Hrun in H. simpl in H.
           rewrite H; [| |done].
           ++ pose proof (run_op_frame o a s q) as H'. rewrite Ho in H'.
              apply H'; [|done]. intros d Hd. eapply Hhead; [done| |done]. by left.
           ++ intros o' d Ho' Hd. eapply Hhead; [done| |done]. by right.
        -- intros d Hd. eapply Hhead; [done| |done]. by left.
      * by eapply IH.
Qed.

(** ** The installer runs its list of file operations *)

Section tracking.
Context (self : MuiBase) (cfg : path) (cf : gmap string pyval) (themes : path)
  (F : filesystem).
Hypothesis Hhass : hass self = true.

Local Abbreviation E := (λ w : World, files w = F).

Lemma track_fs_call (o : fsop) (rest : list fsop) (op : filesystem → fs_result) :
  (∀ fs, op fs = run_op o fs) →
  hoare (tracks (o :: rest) cfg cf themes F) (fs_call op) (λ _, tracks rest cfg cf themes F) E.
Proof.
  intros Hop w (Hc & Hcf & Hth & Hwk & Hrun). unfold fs_call. rewrite Hop.
  simpl in Hrun. destruct (run_op o (files w)) as [[e|] fs']; simpl in *; [done|].
  done.
Qed.

Lemma track_raise {A} (e : exn) (rest : list fsop) (Q : A → World → Prop) :
  hoare (tracks (OpRaise e :: rest) cfg cf themes F) (raise e) Q E.
Proof. by intros w (Hc & Hcf & Hth & Hwk & Hrun). Qed.

Lemma track_config_path (rest : list fsop) (s : string) :
  hoare (tracks rest cfg cf themes F) (config_path self s)
    (λ p w, p = path_join cfg s ∧ tracks rest cfg cf themes F w) E.
Proof.
  intros w Hw. rewrite config_path_run by done. split; [|done].
  by destruct Hw as (-> & _).
Qed.

Lemma track_attr (rest : list fsop) (name : string) v0 :
  MuiConfiguration_class !! name = Some v0 →
  hoare (tracks rest cfg cf themes F) (attr name)
    (λ v w, v = default PNone (getattr cf name) ∧ tracks rest cfg cf themes F w) E.
Proof.
  intros Hcl w Hw. destruct (getattr_class cf name v0 Hcl) as [v Hv].
  pose proof Hw as (_ & Hcf & _).
  rewrite (attr_run name w v) by (by rewrite Hcf). by rewrite Hv.
Qed.

Lemma track_exists (rest : list fsop) (p : path) :
  hoare (tracks rest cfg cf themes F) (os_path_exists p)
    (λ b w, b = path_exists (files w) p ∧ tracks rest cfg cf themes F w) E.
Proof. by intros w Hw. Qed.

Lemma track_end {A} (m : M A) φ :
  keeps (tracks [] cfg cf themes F) m φ →
  hoare (tracks [] cfg cf themes F) m (λ _ w, files w = F) E.
Proof.
  intros Hm w Hw. destruct (Hm w Hw) as [(_ & _ & _ & _ & H) _].
  destruct (m w) as [[a|e] w']; done.
Qed.

Lemma tracks_host (rest : list fsop) w h :
  config_dir h = config_dir (host w) → object_text h = object_text (host w) →
  tracks rest cfg cf themes F w → tracks rest cfg cf themes F (set_host h w).
Proof.
  intros Hh Ho (Hc & Hcf & Hth & Hwk & Hrun).
  unfold tracks, theme_dir, theme_walked, theme_text in *; simpl.
  rewrite Hh, Ho. done.
Qed.

Lemma track_fs_call_with (o : fsop) (rest : list fsop) (op : filesystem → fs_result)
    (P Q : filesystem → Prop) :
  (∀ fs, op fs = run_op o fs) →
  (∀ fs fs', P fs → run_op o fs = (None, fs') → Q fs') →
  hoare (λ w, tracks (o :: rest) cfg cf themes F w ∧ P (files w)) (fs_call op)
        (λ _ w, tracks rest cfg cf themes F w ∧ Q (files w)) E.
Proof.
  intros Hop HPQ w [(Hc & Hcf & Hth & Hwk & Hrun) HP]. unfold fs_call. rewrite Hop.
  simpl in Hrun. specialize (HPQ (files w)).
  destruct (run_op o (files w)) as [[e|] fs']; simpl in *; [done|].
  split; [done|]. by eapply HPQ.
Qed.

Lemma track_integration_dir (rest : list fsop) i :
  integration self = Some i →
  hoare (tracks rest cfg cf themes F) (integration_dir self)
    (λ d w, d = file_path i ∧ tracks rest cfg cf themes F w) E.
Proof. intros Hi w Hw. unfold integration_dir. by rewrite Hi. Qed.

Lemma track_templates_dir (rest : list fsop) i :
  integration self = Some i →
  hoare (tracks rest cfg cf themes F) (templates_dir self)
    (λ t w, t = file_path i ++ ["__ui_minimalist__"; "mui_templates"] ∧
            tracks rest cfg cf themes F w) E.
Proof. intros Hi w Hw. unfold templates_dir, integration_dir. by rewrite Hi. Qed.

End tracking.

Section tracking_installer.
Context (self : MuiBase) (cfg : path) (cf : gmap string pyval) (themes : path)
  (F : filesystem).
Hypothesis Hhass : hass self = true.

Local Abbreviation E := (λ w : World, files w = F).
Local Abbreviation T := (λ rest, tracks rest cfg cf themes F).

Ltac step_templates Hi t := eapply hoare_bind;
  [by apply track_templates_dir|intros t; apply hoare_pure; intros ->].
Ltac step_integration Hi d := eapply hoare_bind;
  [by apply track_integration_dir|intros d; apply hoare_pure; intros ->].
Ltac step_config_path p := eapply hoare_bind;
  [by apply track_config_path|intros p; apply hoare_pure; intros ->].
Ltac step_fs := eapply hoare_bind; [by apply track_fs_call|intros ?].

Lemma track_copy_if_absent (rest : list fsop) i (src : path) (s : string) :
  integration self = Some i →
  hoare (T (OpCopy2IfAbsent (file_path i ++ src) (path_join cfg s) :: rest))
    (p ← config_path self s;
     found ← os_path_exists p;
     if negb found then
       d ← integration_dir self;
       p ← config_path self s;
       fs_call (λ fs, copy2 fs (d ++ src) p)
     else ret tt)
    (λ _, T rest) E.
Proof.
  intros Hi w Hw. rewrite run_bind, config_path_run by done.
  pose proof Hw as (Hc & Hcf & Hth & Hwk & Hrun). rewrite Hc.
  rewrite run_bind. unfold os_path_exists, gets.
  simpl in Hrun.
  destruct (path_exists (files w) (path_join cfg s)) eqn:Hex; simpl.
  - done.
  - rewrite run_bind. unfold integration_dir. rewrite Hi. unfold ret at 1.
    rewrite run_bind, config_path_run by done.
    rewrite Hc. unfold fs_call.
    destruct (copy2 (files w) (file_path i ++ src) (path_join cfg s)) as [[e|] fs'];
      simpl in *; done.
Qed.

Lemma copytree_through_nil (fs : filesystem) (src dst : path) :
  copytree_through fs src [] dst = copytree fs src dst.
Proof. done. Qed.

(** The copy of the themes, for a theme path written with names only. *)
Lemma track_themes i :
  integration self = Some i →
  hoare (T [OpCopytree (file_path i ++ ["dashboard"; "themefiles"]) themes])
    (d ← integration_dir self;
     theme_path ← attr "theme_path";
     theme ← gets (λ w, py_str (object_text (host w)) theme_path +:+ "/");
     p ← config_path self theme;
     through ← gets (λ w, path_walked (config_dir (host w)) theme);
     fs_call (λ fs, copytree_through fs (d ++ ["dashboard"; "themefiles"]) through p))
    (λ _, T []) E.
Proof.
  intros Hi. step_integration Hi d.
  eapply hoare_bind; [by eapply track_attr|intros tp; apply hoare_pure; intros ->].
  intros w Hw. pose proof Hw as (Hc & Hcf & Hth & Hwk & Hrun).
  rewrite run_bind. unfold gets at 1.
  rewrite run_bind, config_path_run by done.
  rewrite run_bind. unfold gets at 1.
  unfold theme_dir, theme_walked, theme_text in Hth, Hwk.
  rewrite Hcf in Hth, Hwk. rewrite Hth, Hwk.
  apply (track_fs_call cfg cf themes F
           (OpCopytree (file_path i ++ ["dashboard"; "themefiles"]) themes) []);
    [intros fs; apply copytree_through_nil|].
  repeat split; try done.
  - unfold theme_dir, theme_text. by rewrite Hcf.
  - unfold theme_walked, theme_text. by rewrite Hcf.
Qed.

Lemma track_copies i language :
  integration self = Some i →
  hoare (T (copy_script i cfg cf themes language))
    (d ← integration_dir self;
     t ← templates_dir self;
     fs_call (λ fs, copy2 fs (d ++ ["dashboard"; "translations"; "default.yaml"])
                             (t ++ ["default.yaml"]));;
     sidepanel_enabled ← attr "sidepanel_enabled";
     (if truthy sidepanel_enabled then
        p ← config_path self (DOMAIN +:+ "/dashboard/ui.yaml");
        found ← os_path_exists p;
        if negb found then
          d ← integration_dir self;
          p ← config_path self (DOMAIN +:+ "/dashboard/ui.yaml");
          fs_call (λ fs, copy2 fs (d ++ ["dashboard"; "ui.yaml"]) p)
        else ret tt
      else ret tt);;
     p ← config_path self (DOMAIN +:+ "/custom_actions/custom_actions.yaml");
     found ← os_path_exists p;
     (if negb found then
        d ← integration_dir self;
        p ← config_path self (DOMAIN +:+ "/custom_actions/custom_actions.yaml");
        fs_call (λ fs, copy2 fs (d ++ ["dashboard"; "custom_actions.yaml"]) p)
      else ret tt);;
     d ← integration_dir self;
     t ← templates_dir self;
     fs_call (λ fs, copy2 fs (d ++ ["dashboard"; "translations"; language +:+ ".yaml"])
                             (t ++ ["language.yaml"]));;
     d ← integration_dir self;
     t ← templates_dir self;
     fs_call (λ fs, copytree fs (d ++ ["dashboard"; "mui_templates"]) t);;
     p ← config_path self (DOMAIN +:+ "/custom_actions");
     t ← templates_dir self;
     fs_call (λ fs, copytree fs p (t ++ ["custom_actions"]));;
     d ← integration_dir self;
     theme_path ← attr "theme_path";
     theme ← gets (λ w, py_str (object_text (host w)) theme_path +:+ "/");
     p ← config_path self theme;
     through ← gets (λ w, path_walked (config_dir (host w)) theme);
     fs_call (λ fs, copytree_through fs (d ++ ["dashboard"; "themefiles"]) through p))
    (λ _, T []) E.
Proof.
  intros Hi. unfold copy_script.
  step_integration Hi d. step_templates Hi t. step_fs.
  eapply hoare_bind; [by eapply track_attr|intros sp; apply hoare_pure; intros ->].
  apply hoare_bind with (Q := λ _, T (copy_script_tail i cfg cf themes language)).
  { destruct (truthy (default PNone (getattr cf "sidepanel_enabled"))).
    - rewrite <-(path_join_ui cfg).
      exact (track_copy_if_absent (copy_script_tail i cfg cf themes language) i
               ["dashboard"; "ui.yaml"] (DOMAIN +:+ "/dashboard/ui.yaml") Hi).
    - intros w Hw. exact Hw. }
  intros ?. unfold copy_script_tail.
  (* the custom-actions file: the test binds [found] over the rest *)
  intros w Hw. rewrite run_bind, config_path_run by done.
  pose proof Hw as (Hc & Hcf & Hth & Hwk & Hrun). rewrite Hc.
  rewrite run_bind. unfold os_path_exists at 1, gets at 1.
  rewrite run_bind.
  set (rest := [OpCopy2 _ _; OpCopytree _ _; OpCopytree _ _; OpCopytree _ _]) in *.
  assert (Hrest : hoare (T rest)
    (d ← integration_dir self;
     t ← templates_dir self;
     fs_call (λ fs, copy2 fs (d ++ ["dashboard"; "translations"; language +:+ ".yaml"])
                             (t ++ ["language.yaml"]));;
     d ← integration_dir self;
     t ← templates_dir self;
     fs_call (λ fs, copytree fs (d ++ ["dashboard"; "mui_templates"]) t);;
     p ← config_path self (DOMAIN +:+ "/custom_actions");
     t ← templates_dir self;
     fs_call (λ fs, copytree fs p (t ++ ["custom_actions"]));;
     d ← integration_dir self;
     theme_path ← attr "theme_path";
     theme ← gets (λ w, py_str (object_text (host w)) theme_path +:+ "/");
     p ← config_path self theme;
     through ← gets (λ w, path_walked (config_dir (host w)) theme);
     fs_call (λ fs, copytree_through fs (d ++ ["dashboard"; "themefiles"]) through p))
    (λ _, T []) E).
  { unfold rest.
    step_integration Hi d. step_templates Hi t. step_fs.
    step_integration Hi d. step_templates Hi t. step_fs.
    step_config_path p. rewrite path_join_custom_actions.
    step_templates Hi t. step_fs.
    by apply track_themes. }
  rewrite path_join_custom_actions_file.
  cbn [run_ops run_op] in Hrun.
  destruct (path_exists (files w) (cfg ++ [DOMAIN; "custom_actions"; "custom_actions.yaml"]))
    eqn:Hex; cbn [negb].
  - apply Hrest. done.
  - rewrite run_bind. unfold integration_dir at 1. rewrite Hi. unfold ret at 1.
    rewrite run_bind, config_path_run by done. rewrite Hc.
    rewrite path_join_custom_actions_file.
    unfold fs_call at 1.
    destruct (copy2 (files w) _ _) as [[e|] fs'] eqn:Hcp; cbn [fst snd] in *; [done|].
    apply Hrest. done.
Qed.

Lemma track_install_assets i :
  integration self = Some i →
  hoare (T (install_assets_script i cfg cf themes)) (install_assets self) (λ _, T []) E.
Proof.
  intros Hi. unfold install_assets, install_assets_script.
  step_templates Hi t. step_fs.
  eapply hoare_bind; [by eapply track_attr|intros lang; apply hoare_pure; intros ->].
  unfold lookup_language.
  destruct (language_code (default PNone (getattr cf "language"))) as [language|e].
  - apply hoare_bind with (Q := λ c w, c = language ∧ T (copy_script i cfg cf themes language) w).
    + by intros w Hw.
    + intros c. apply hoare_pure. intros ->. by apply track_copies.
  - apply hoare_bind with (Q := λ _ _, False); [apply track_raise|by intros c w].
Qed.

Lemma track_install_assets_without_integration rest :
  integration self = None →
  hoare (T (OpRaise (none_has_no "file_path") :: rest)) (install_assets self)
        (λ _, T []) E.
Proof.
  intros Hi. unfold install_assets.
  apply hoare_bind with (Q := λ _ _, False); [|by intros c w].
  unfold templates_dir.
  apply hoare_bind with (Q := λ _ _, False); [|by intros c w].
  unfold integration_dir. rewrite Hi. apply track_raise.
Qed.
End tracking_installer.

Section tracking_body.
Context (self : MuiBase) (cfg : path) (cf : gmap string pyval) (themes : path)
  (F : filesystem).
Hypothesis Hhass : hass self = true.

Local Abbreviation E := (λ w : World, files w = F).
Local Abbreviation T := (λ rest, tracks rest cfg cf themes F).

Lemma tracks_nil_fire_register :
  hoare (T [])
    (bus_async_fire self "minimalist_ui_reload";;
     services_async_register self DOMAIN "reload")
    (λ _ w, files w = F) E.
Proof.
  apply (track_end cfg cf themes F _ (λ _, True)).
  eapply keeps_bind.
  - unfold bus_async_fire.
    eapply keeps_bind; [apply keeps_self_hass|intros _ _].
    eapply keeps_bind; [apply keeps_host_does|intros _ _].
    apply (keeps_modify _ _ (λ _, True)). intros w Hw. by apply tracks_host.
  - intros _ _. unfold services_async_register.
    eapply keeps_bind; [apply keeps_self_hass|intros _ _].
    eapply keeps_bind; [apply keeps_host_does|intros _ _].
    apply (keeps_modify _ _ (λ _, True)). intros w Hw. by apply tracks_host.
Qed.

Lemma track_create_and_install :
  hoare (T (install_script self cfg cf themes)) (create_and_install self)
        (λ _ w, files w = F) E.
Proof.
  intros w Hw. unfold create_and_install. pose proof Hw as (Hc & Hcf & Hth & Hwk & Hrun).
  unfold install_script in Hrun. cbn [run_ops run_op] in Hrun.
  rewrite run_bind, config_path_run by done. rewrite Hc, path_join_dashboard.
  rewrite run_bind. unfold fs_call at 1.
  destruct (makedirs (files w) (cfg ++ [DOMAIN; "dashboard"])) as [[e|] fs1] eqn:Hm1;
    cbn [fst snd] in *; [done|].
  rewrite run_bind, config_path_run by done. cbn [host set_files].
  rewrite Hc, path_join_custom_actions.
  rewrite run_bind. unfold fs_call at 1. cbn [files set_files].
  pose proof (makedirs_kind_le fs1 (cfg ++ [DOMAIN; "custom_actions"])) as Hk2.
  destruct (makedirs fs1 (cfg ++ [DOMAIN; "custom_actions"])) as [[e|] fs2] eqn:Hm2;
    cbn [fst snd] in *; [done|].
  rewrite run_bind, config_path_run by done. cbn [host set_files].
  rewrite Hc, path_join_dashboard.
  rewrite run_bind. unfold os_path_exists at 1, gets at 1. cbn [files set_files].
  assert (path_exists fs2 (cfg ++ [DOMAIN; "dashboard"]) = true) as ->.
  { pose proof (makedirs_is_dir _ _ _ Hm1) as Hd.
    pose proof (kind_le_dir _ _ _ Hk2 Hd) as Hd2.
    unfold is_dir, path_exists in *. by destruct (node_at fs2 _) as [[|]|]. }
  set (w2 := set_files fs2 (set_files fs1 w)).
  assert (Hw2 : ∀ rest, (run_ops rest fs2).2 = F → T rest w2).
  { intros rest Hr. by repeat split. }
  destruct (integration self) as [i|] eqn:Hi.
  - eapply (hoare_bind (T (install_assets_script i cfg cf themes)) (install_assets self) _
              (λ _, T [])).
    + by apply track_install_assets.
    + intros ?. apply tracks_nil_fire_register.
    + by apply Hw2.
  - eapply (hoare_bind (T [OpRaise (none_has_no "file_path")]) (install_assets self) _
              (λ _, T [])).
    + by apply (track_install_assets_without_integration self cfg cf themes F []).
    + intros ?. apply tracks_nil_fire_register.
    + by apply Hw2.
Qed.
End tracking_body.

(** The file system [configure_mui] leaves, when [self.hass] is set and the
    theme path is written with names only. *)
Lemma configure_mui_files (self : MuiBase) (w : World) :
  hass self = true → theme_walked w = [] →
  files (configure_mui self w).2 =
    (run_ops (install_script self (config_dir (host w)) (configuration w) (theme_dir w))
       (clean_files (config_dir (host w)) (files w))).2.
Proof.
  intros Hh Hwk. rewrite configure_mui_run. unfold configure_mui_body.
  rewrite run_bind, cleanup_run by done.
  set (w0 := cleaned (add_log _ w)).
  pose proof (track_create_and_install self (config_dir (host w)) (configuration w)
                (theme_dir w)
                (run_ops (install_script self (config_dir (host w)) (configuration w)
                            (theme_dir w))
                   (files w0)).2 Hh w0) as H.
  destruct (create_and_install self w0) as [[[]|e] w']; simpl; apply H; by repeat split.
Qed.

Lemma configure_mui_files_without_hass (self : MuiBase) (w : World) :
  hass self = false → files (configure_mui self w).2 = files w.
Proof.
  intros Hh. rewrite configure_mui_run. unfold configure_mui_body, cleanup.
  rewrite !run_bind. unfold config_path at 1. rewrite run_bind. unfold self_hass at 1.
  rewrite Hh. reflexivity.
Qed.

(** ** What [configure_mui] does not touch *)

Section untouched.
Context (I : World → Prop).
Hypothesis Hfiles : ∀ w f, I w → I (set_files f w).
Hypothesis Hlog : ∀ w r, I w → I (add_log r w).
Hypothesis Hreason : ∀ w r, I w → I (set_disabled_reason r w).
Hypothesis Hhost : ∀ w h,
  config_dir h = config_dir (host w) → object_text h = object_text (host w) →
  I w → I (set_host h w).

Lemma untouched_configure_mui self : keeps I (configure_mui self) (λ _, True).
Proof.
  unfold configure_mui.
  eapply keeps_bind; [by apply keeps_log_text|intros _ _].
  apply keeps_try.
  - eapply (keeps_bind _ _ _ (λ _, True)); [|intros _ _; by apply keeps_ret].
    unfold configure_mui_body, cleanup, create_and_install, bus_async_fire,
      services_async_register.
    repeat first
      [ by apply blind_fs_call
      | by apply blind_config_path
      | by apply blind_exists
      | by apply blind_install_assets
      | apply keeps_host_does
      | by apply keeps_ret
      | eapply keeps_weaken; [apply keeps_self_hass|done]
      | apply (keeps_modify _ _ (λ _, True)); intros w Hw; by apply Hhost
      | match goal with
        | |- keeps _ (if ?b then _ else _) _ => destruct b
        | |- keeps _ (_ ≫= _) _ => eapply (keeps_bind _ _ _ (λ _, True)); [|intros ? _]
        end ].
  - intros e. eapply keeps_bind; [by apply keeps_log_exception|intros _ _].
    eapply keeps_bind; [by apply keeps_disable_load|intros _ _]. by apply keeps_ret.
Qed.
End untouched.

Lemma configure_mui_keeps_configuration (self : MuiBase) (w : World) :
  config_dir (host (configure_mui self w).2) = config_dir (host w) ∧
  configuration (configure_mui self w).2 = configuration w ∧
  object_text (host (configure_mui self w).2) = object_text (host w).
Proof.
  assert (H : keeps (λ x, config_dir (host x) = config_dir (host w) ∧
                          configuration x = configuration w ∧
                          object_text (host x) = object_text (host w))
                (configure_mui self) (λ _, True)).
  { apply untouched_configure_mui; try done.
    intros x h Hh Ho (? & ? & ?). simpl. repeat split; congruence. }
  by apply H.
Qed.

Lemma configure_mui_keeps_theme (self : MuiBase) (w : World) :
  theme_dir (configure_mui self w).2 = theme_dir w ∧
  theme_walked (configure_mui self w).2 = theme_walked w.
Proof.
  destruct (configure_mui_keeps_configuration self w) as (Hc & Hcf & Ho).
  unfold theme_dir, theme_walked, theme_text. by rewrite Hc, Hcf, Ho.
Qed.

(** ** Cleaning a file system that an earlier run has left *)

Lemma tree_shaped_absent (fs : filesystem) (p q : path) :
  tree_shaped fs → p ≠ [] → fs !! p = None → p `prefix_of` q → fs !! q = None.
Proof.
  intros Hts Hne Hp [k ->]. induction k as [|x k IH] using rev_ind.
  - by rewrite app_nil_r.
  - destruct (fs !! (p ++ k ++ [x])) as [e|] eqn:E; [|done].
    rewrite app_assoc in E. apply Hts in E; [congruence|]. by destruct p.
Qed.

Lemma configs_apart_addons (cfg : path) :
  apart (cfg ++ [DOMAIN; "configs"]) (cfg ++ [DOMAIN; "addons"]).
Proof. split; intros H%prefix_app_same; by destruct H as [k [=]]. Qed.

Lemma clean_files_lookup (cfg : path) (fs : filesystem) (q : path) :
  let c := cfg ++ [DOMAIN; "configs"] in
  let a := cfg ++ [DOMAIN; "addons"] in
  clean_files cfg fs !! q =
    if decide (c `prefix_of` q) then (if is_dir fs c then None else fs !! q)
    else if decide (a `prefix_of` q) then (if is_dir fs a then None else fs !! q)
    else fs !! q.
Proof.
  intros c a. unfold clean_files. fold c a.
  assert (Hc : c ≠ []) by (unfold c; by destruct cfg).
  assert (Ha : a ≠ []) by (unfold a; by destruct cfg).
  destruct (configs_apart_addons cfg) as [Hca Hac]. fold c a in Hca, Hac.
  rewrite rmtree_lookup. rewrite is_dir_rmtree_other by done.
  rewrite (rmtree_lookup fs c).
  destruct (decide (c `prefix_of` q)) as [Hcq|Hcq].
  - assert (¬ a `prefix_of` q) as Haq.
    { intros Haq. destruct (prefix_weak_total c a q Hcq Haq); auto. }
    rewrite (decide_False (P := a `prefix_of` q)) by done.
    destruct (is_dir fs a), (is_dir fs c); done.
  - destruct (decide (a `prefix_of` q)); destruct (is_dir fs a), (is_dir fs c); done.
Qed.

Lemma clean_between (cfg : path) (fs0 F : filesystem) :
  tree_shaped fs0 → kind_le (clean_files cfg fs0) F →
  between F (clean_files cfg fs0) (clean_files cfg F).
Proof.
  intros Hts Hk q.
  assert (Hgone : ∀ d, d ≠ [] → d `prefix_of` q →
            clean_files cfg fs0 !! d = fs0 !! d →
            is_dir fs0 d = false → is_dir F d = true → fs0 !! q = None).
  { intros d Hd Hdq Hsame Hnd HF.
    apply (tree_shaped_absent fs0 d q Hts Hd); [|done].
    destruct (fs0 !! d) as [[x|]|] eqn:E; [| |done].
    - specialize (Hk d). rewrite Hsame in Hk. destruct Hk as [y Hy].
      unfold is_dir in HF. rewrite node_at_ne, Hy in HF by done. done.
    - unfold is_dir in Hnd. rewrite node_at_ne, E in Hnd by done. done. }
  assert (Hself : ∀ d, is_dir fs0 d = false →
            (d = cfg ++ [DOMAIN; "configs"] ∨ d = cfg ++ [DOMAIN; "addons"]) →
            clean_files cfg fs0 !! d = fs0 !! d).
  { intros d Hnd Hd. rewrite clean_files_lookup.
    destruct (configs_apart_addons cfg) as [Hca Hac].
    destruct Hd as [-> | ->].
    - rewrite decide_True by done. by rewrite Hnd.
    - rewrite decide_False by done. rewrite decide_True by done. by rewrite Hnd. }
  rewrite !clean_files_lookup.
  assert (Hc : cfg ++ [DOMAIN; "configs"] ≠ []) by (by destruct cfg).
  assert (Ha : cfg ++ [DOMAIN; "addons"] ≠ []) by (by destruct cfg).
  destruct (decide (_ `prefix_of` q)) as [Hcq|Hcq].
  - destruct (is_dir F _) eqn:HF; [|by right].
    destruct (is_dir fs0 _) eqn:H0; [by left|]. left. symmetry.
    apply (Hgone (cfg ++ [DOMAIN; "configs"])); auto.
  - destruct (decide (_ `prefix_of` q)) as [Haq|Haq]; [|by right].
    destruct (is_dir F _) eqn:HF; [|by right].
    destruct (is_dir fs0 _) eqn:H0; [by left|]. left. symmetry.
    apply (Hgone (cfg ++ [DOMAIN; "addons"])); auto.
Qed.

(** ** The installer's sources and destinations *)

Lemma apart_sym (p q : path) : apart p q → apart q p.
Proof. intros [? ?]. by split. Qed.

Lemma apart_under (d s0 s : path) : apart d s0 → s0 `prefix_of` s → apart s d.
Proof.
  intros [H1 H2] Hs. split.
  - intros Hsd. apply H2. by etrans.
  - intros Hds. destruct (prefix_weak_total d s0 s Hds Hs); auto.
Qed.

Lemma apart_app (cfg x y : path) : apart x y → apart (cfg ++ x) (cfg ++ y).
Proof. intros [H1 H2]. split; intros H%prefix_app_same; auto. Qed.

Ltac split_sources :=
  repeat match goal with
         | |- _ ∧ _ => split
         | |- True => exact I
         end.

Ltac concrete_apart :=
  rewrite <-?app_assoc; simpl;
  first
    [ apply apart_app; split; intros [k Hk]; simplify_eq/=
    | match goal with
      | H : apart ?d _ |- apart _ ?d =>
          solve [eapply apart_under; [exact H|]; apply prefix_app; by eexists]
      end ].

Lemma install_script_apart (self : MuiBase) (cfg : path) (cf : gmap string pyval)
    (themes : path) :
  (∀ i, integration self = Some i → file_path i = cfg ++ ["custom_components"; DOMAIN]) →
  apart themes (cfg ++ ["custom_components"; DOMAIN; "dashboard"]) →
  apart themes (cfg ++ [DOMAIN; "custom_actions"]) →
  sources_apart (install_script self cfg cf themes).
Proof.
  intros Hlayout. unfold install_script, install_assets_script, copy_script, copy_script_tail.
  revert themes. intros theme Hth1 Hth2.
  destruct (integration self) as [i|] eqn:Hi.
  - rewrite (Hlayout i eq_refl).
    destruct (language_code _) as [language|e].
    + destruct (truthy _); cbn [app sources_apart];
        split_sources; intros s o' d Hs Ho Hd; simplify_eq/=;
        repeat (apply elem_of_cons in Ho as [->|Ho]); try (by apply elem_of_nil in Ho);
        simplify_eq/=; concrete_apart.
    + cbn [sources_apart]. split_sources; intros s o' d Hs Ho Hd; simplify_eq/=.
  - cbn [sources_apart]. split_sources; intros s o' d Hs Ho Hd; simplify_eq/=.
Qed.

(** ** The fuel of [copytree_rec] is never exhausted *)

Lemma depth_bound_lookup (fs : filesystem) (k : path) e :
  fs !! k = Some e → (List.length k ≤ depth_bound fs)%nat.
Proof.
  unfold depth_bound. revert k e.
  apply (map_fold_weak_ind (λ r m, ∀ k e, m !! k = Some e → (List.length k ≤ r)%nat)).
  - intros k e H. by rewrite lookup_empty in H.
  - intros i x m r Hi IH k e Hk.
    destruct (decide (i = k)) as [->|Hne].
    + lia.
    + rewrite lookup_insert_ne in Hk by done. specialize (IH k e Hk). lia.
Qed.

Lemma listdir_deep (fs : filesystem) (p : path) :
  (depth_bound fs ≤ List.length p)%nat → listdir fs p = [].
Proof.
  intros H. destruct (listdir fs p) as [|[n e] l] eqn:E; [done|].
  assert ((n, e) ∈ listdir fs p) as Hin by (rewrite E; by left).
  apply elem_of_listdir, depth_bound_lookup in Hin.
  rewrite length_app in Hin. simpl in Hin. lia.
Qed.

Lemma foldl_ext_in {A B} (f g : A → B → A) (l : list B) (a : A) :
  (∀ a b, b ∈ l → f a b = g a b) → foldl f a l = foldl g a l.
Proof.
  revert a. induction l as [|b l IH]; intros a H; simpl; [done|].
  rewrite H by (by left). apply IH. intros a' b' Hb'. apply H. by right.
Qed.

(** Once the fuel exceeds what is left of the depth of the source tree,
    more fuel changes nothing: the recursion ends on directories that have
    no entries, not on the fuel. *)
Lemma copytree_rec_fuel (snap : filesystem) (fuel : nat) (src dst : path)
    (st : filesystem * list (path * path)) :
  (depth_bound snap ≤ fuel + List.length src)%nat →
  copytree_rec (S fuel) snap src dst st = copytree_rec fuel snap src dst st.
Proof.
  revert src dst st. induction fuel as [|fuel IH]; intros src dst st Hd.
  - rewrite copytree_rec_S. by rewrite listdir_deep.
  - rewrite !copytree_rec_S. apply foldl_ext_in. intros st' [n e] Hin.
    unfold copytree_entry. simpl.
    assert (Hrec : ∀ st'', copytree_rec (S fuel) snap (src ++ [n]) (dst ++ [n]) st'' =
                           copytree_rec fuel snap (src ++ [n]) (dst ++ [n]) st'').
    { intros st''. apply IH. rewrite length_app. simpl. lia. }
    destruct e; [done|]. destruct (node_at st'.1 (dst ++ [n])) as [[|]|]; by rewrite ?Hrec.
Qed.

Lemma copytree_rec_enough_fuel (snap : filesystem) (extra : nat) (src dst : path)
    (st : filesystem * list (path * path)) :
  copytree_rec (S (depth_bound snap) + extra)%nat snap src dst st =
  copytree_rec (S (depth_bound snap)) snap src dst st.
Proof.
  induction extra as [|extra IH].
  - by rewrite Nat.add_0_r.
  - rewrite Nat.add_succ_r. rewrite copytree_rec_fuel; [done|]. lia.
Qed.

(* ===================================================================== *)
(** * The setup steps and their guards                                   *)
(* ===================================================================== *)

Lemma configure_mui_guarded (self : MuiBase) (w : World) :
  configure_mui self w = step_outcome (configure_mui_statements self w).
Proof.
  rewrite configure_mui_run. unfold configure_mui_statements.
  rewrite run_bind. reflexivity.
Qed.

Lemma configure_plugins_guarded (self : MuiBase) (w : World) :
  configure_plugins self w = step_outcome (configure_plugins_statements self w).
Proof.
  rewrite configure_plugins_run. unfold configure_plugins_statements.
  rewrite run_bind. reflexivity.
Qed.

Lemma configure_dashboard_guarded (self : MuiBase) (w : World) :
  configure_dashboard self w = step_outcome (configure_dashboard_statements self w).
Proof.
  destruct (configure_dashboard_run self w) as (i & t & Hi & Ht & ->).
  unfold configure_dashboard_statements.
  rewrite run_bind, (attr_run _ _ _ Hi), run_bind, (attr_run _ _ _ Ht). reflexivity.
Qed.

Lemma async_startup_guarded (mui : MuiBase) (w : World) :
  async_startup mui w =
    match configure_mui_statements mui w with
    | (Raised e, wb) => (Ok false, caught e wb)
    | (Ok _, w1) =>
        match configure_plugins_statements mui w1 with
        | (Raised e, wb) => (Ok false, caught e wb)
        | (Ok _, w2) =>
            match configure_dashboard_statements mui w2 with
            | (Raised e, wb) => (Ok false, caught e wb)
            | (Ok _, w3) => (Ok true, (enable_mui w3).2)
            end
        end
    end.
Proof.
  unfold async_startup.
  rewrite run_bind, configure_mui_guarded.
  destruct (configure_mui_statements mui w) as [[[]|e1] w1]; [|reflexivity]. simpl.
  rewrite run_bind, configure_plugins_guarded.
  destruct (configure_plugins_statements mui w1) as [[[]|e2] w2]; [|reflexivity]. simpl.
  rewrite run_bind, configure_dashboard_guarded.
  destruct (configure_dashboard_statements mui w2) as [[[]|e3] w3]; [|reflexivity]. simpl.
  destruct (enable_mui_clears w3) as (w4 & H4 & Hnone).
  rewrite run_bind, H4. unfold gets, disabled. simpl. rewrite Hnone. reflexivity.
Qed.

(* ===================================================================== *)
(** * Checking concrete worlds                                           *)
(* ===================================================================== *)

Lemma tree_shaped_check_sound (fs : filesystem) : tree_shaped_check fs → tree_shaped fs.
Proof.
  intros Hc p n e Hp Hq. specialize (Hc _ _ Hq). cbv beta in Hc.
  unfold parent in Hc. rewrite removelast_last in Hc.
  destruct (p ++ [n]) eqn:E; [by destruct p|].
  destruct Hc as [->|Hc]; done.
Qed.

Lemma run_result {A} (m : M A) (w : World) (a : A) :
  (m w).1 = Ok a → m w = (Ok a, (m w).2).
Proof. destruct (m w) as [o w']. simpl. by intros ->. Qed.

Lemma run_raised {A} (m : M A) (w : World) (e : exn) :
  (m w).1 = Raised e → m w = (Raised e, (m w).2).
Proof. destruct (m w) as [o w']. simpl. by intros ->. Qed.

(* ===================================================================== *)
(** * The entry point                                                    *)
(* ===================================================================== *)

Lemma async_initialize_integration_unfold (config_entry : option ConfigEntry)
    (config : option (gmap string pyval)) (w : World) :
  async_initialize_integration config_entry config w =
    (returned ← initialize_from_config config;
     match returned with
     | Some b => ret b
     | None =>
         returned ← initialize_from_config_entry config_entry;
         match returned with
         | Some b => ret b
         | None => initialize_and_start
         end
     end) (fresh_instance_world w).
Proof.
  unfold async_initialize_integration, fresh_instance_world.
  rewrite run_bind. unfold modify at 1.
  rewrite run_bind. by rewrite enable_mui_run.
Qed.

(** A [return] in the block for the YAML configuration ends the setup. *)
Lemma async_initialize_integration_returns (config_entry : option ConfigEntry)
    (config : option (gmap string pyval)) (w w1 : World) (b : bool) :
  initialize_from_config config (fresh_instance_world w) = (Ok (Some b), w1) →
  async_initialize_integration config_entry config w = (Ok b, w1).
Proof.
  intros H. rewrite async_initialize_integration_unfold, run_bind, H. reflexivity.
Qed.

(** So does a [return] in the block for the config entry. *)
Lemma async_initialize_integration_returns_entry (config_entry : option ConfigEntry)
    (config : option (gmap string pyval)) (w w1 w2 : World) (b : bool) :
  initialize_from_config config (fresh_instance_world w) = (Ok None, w1) →
  initialize_from_config_entry config_entry w1 = (Ok (Some b), w2) →
  async_initialize_integration config_entry config w = (Ok b, w2).
Proof.
  intros H1 H2. rewrite async_initialize_integration_unfold, run_bind, H1.
  cbv beta iota. rewrite run_bind, H2. reflexivity.
Qed.

(** An exception of either block leaves the setup. *)
Lemma async_initialize_integration_raises (config_entry : option ConfigEntry)
    (config : option (gmap string pyval)) (w w1 : World) (e : exn) :
  initialize_from_config config (fresh_instance_world w) = (Raised e, w1) →
  async_initialize_integration config_entry config w = (Raised e, w1).
Proof.
  intros H. rewrite async_initialize_integration_unfold, run_bind, H. reflexivity.
Qed.

(** When neither block returns and the host hands over the integration and
    the client session, the setup is [async_startup]. *)
Lemma async_initialize_integration_starts (config_entry : option ConfigEntry)
    (config : option (gmap string pyval)) (w w1 w2 : World) (i : Integration) :
  initialize_from_config config (fresh_instance_world w) = (Ok None, w1) →
  initialize_from_config_entry config_entry w1 = (Ok None, w2) →
  faults (host w2) GetIntegration = false →
  integrations (host w2) !! DOMAIN = Some i →
  faults (host w2) GetClientSession = false →
  async_initialize_integration config_entry config w =
    async_startup (started_instance i) (startup_world i w2).
Proof.
  intros H1 H2 Hf1 Hi Hf2.
  rewrite async_initialize_integration_unfold, run_bind, H1.
  cbv beta iota. rewrite run_bind, H2. cbv beta iota.
  destruct (initialize_and_start_run i w2 Hf1 Hi Hf2) as (b & w' & Hs & Hr & _).
  by rewrite Hs, Hr.
Qed.

Lemma async_initialize_integration_raises_entry (config_entry : option ConfigEntry)
    (config : option (gmap string pyval)) (w w1 w2 : World) (e : exn) :
  initialize_from_config config (fresh_instance_world w) = (Ok None, w1) →
  initialize_from_config_entry config_entry w1 = (Raised e, w2) →
  async_initialize_integration config_entry config w = (Raised e, w2).
Proof.
  intros H1 H2. rewrite async_initialize_integration_unfold, run_bind, H1.
  cbv beta iota. rewrite run_bind, H2. reflexivity.
Qed.

(** Without the integration or the client session the setup raises where
    it asked for them. *)
Lemma initialize_and_start_refused (w : World) :
  faults (host w) GetIntegration = true ∨ integrations (host w) !! DOMAIN = None ∨
    faults (host w) GetClientSession = true →
  ∃ c, initialize_and_start w = (Raised (HostError c), w).
Proof.
  intros H. unfold initialize_and_start. rewrite run_bind.
  unfold async_get_integration. rewrite run_bind. unfold host_does at 1.
  destruct (faults (host w) GetIntegration) eqn:Hf1; [by exists GetIntegration|].
  rewrite run_bind. unfold gets at 1.
  destruct (integrations (host w) !! DOMAIN) as [i|] eqn:Hi;
    [|by exists GetIntegration].
  unfold ret at 1. rewrite run_bind. unfold host_does at 1.
  destruct (faults (host w) GetClientSession) eqn:Hf2; [by exists GetClientSession|].
  by destruct H as [?|[?|?]].
Qed.

Lemma async_initialize_integration_refused (config_entry : option ConfigEntry)
    (config : option (gmap string pyval)) (w w1 w2 : World) :
  initialize_from_config config (fresh_instance_world w) = (Ok None, w1) →
  initialize_from_config_entry config_entry w1 = (Ok None, w2) →
  faults (host w2) GetIntegration = true ∨ integrations (host w2) !! DOMAIN = None ∨
    faults (host w2) GetClientSession = true →
  ∃ c, async_initialize_integration config_entry config w = (Raised (HostError c), w2).
Proof.
  intros H1 H2 H. rewrite async_initialize_integration_unfold, run_bind, H1.
  cbv beta iota. rewrite run_bind, H2. cbv beta iota.
  by apply initialize_and_start_refused.
Qed.

(* ===================================================================== *)
(** * The claims                                                         *)
(* ===================================================================== *)

(** C1. When the configuration record says it came from a config entry
    ([config_type] is [CONFIG_ENTRY]), initialising with YAML configuration
    data returns [True] and leaves the configuration record as it was: no
    key of the YAML data is merged.  [async_setup] is that initialisation. *)
Theorem yaml_setup_ignored_for_config_entry
    (config_entry : option ConfigEntry) (config : gmap string pyval)
    (w : World) (v : pyval) :
  getattr (configuration w) "config_type" = Some v →
  is_config_entry v = true →
  ∃ w', async_initialize_integration config_entry (Some config) w = (Ok true, w') ∧
        async_setup config w = (Ok true, w') ∧
        configuration w' = configuration w.
Proof.
  intros Hv Hce.
  set (w1 := set_host (set_data_mui (Some MuiBase_new) (host w)) w).
  destruct (enable_mui w1) as [o w2] eqn:Hen.
  pose proof Hen as Hen'. rewrite enable_mui_run in Hen'. injection Hen' as <- Hw2.
  assert (Hcfg : configuration w2 = configuration w).
  { by rewrite (configuration_enable_mui _ _ Hen). }
  assert (Hrun : ∀ ce, async_initialize_integration ce (Some config) w = (Ok true, w2)).
  { intros ce. unfold async_initialize_integration.
    rewrite run_bind. unfold modify at 1. fold w1.
    rewrite run_bind, Hen. rewrite run_bind.
    unfold initialize_from_config.
    destruct (config !! DOMAIN) as [d|]; [|reflexivity].
    rewrite run_bind. rewrite (attr_run _ _ v) by (by rewrite Hcfg).
    rewrite Hce. reflexivity. }
  exists w2. split; [apply Hrun|]. split; [apply Hrun|]. exact Hcfg.
Qed.

Lemma yaml_setup_ignored_witness :
  ∃ w', async_initialize_integration None (Some yaml_config) entry_world = (Ok true, w') ∧
        async_setup yaml_config entry_world = (Ok true, w') ∧
        configuration w' = configuration entry_world.
Proof.
  apply (yaml_setup_ignored_for_config_entry None yaml_config entry_world
           (PConfigType CONFIG_ENTRY)); reflexivity.
Defined.

(** C2, as amended.  [async_initialize_integration], which [async_setup]
    and [async_setup_entry] call, reaches the three steps only when neither
    of its configuration blocks returns and the host hands over the
    integration and the client session.  It then runs [configure_mui],
    then [configure_plugins], then [configure_dashboard], and stops at the
    first that returns [False]: when all three return [True] it returns
    [True] with the disabled reason cleared; when the statements of a step
    raise it returns [False] with the system disabled for [LOAD_MUI].
    When a configuration block returns, the setup returns the value of the
    block in the world the block left: no step is run.  Nor is one run
    when a block raises or the host does not hand over the integration or
    the client session: the setup then raises. *)
Theorem setup_runs_three_steps_in_order
    (config_entry : option ConfigEntry) (config : option (gmap string pyval)) (w : World) :
  (∀ b w1,
     initialize_from_config config (fresh_instance_world w) = (Ok (Some b), w1) →
     async_initialize_integration config_entry config w = (Ok b, w1)) ∧
  (∀ b w1 w2,
     initialize_from_config config (fresh_instance_world w) = (Ok None, w1) →
     initialize_from_config_entry config_entry w1 = (Ok (Some b), w2) →
     async_initialize_integration config_entry config w = (Ok b, w2)) ∧
  (∀ w1 w2 i,
     initialize_from_config config (fresh_instance_world w) = (Ok None, w1) →
     initialize_from_config_entry config_entry w1 = (Ok None, w2) →
     faults (host w2) GetIntegration = false →
     integrations (host w2) !! DOMAIN = Some i →
     faults (host w2) GetClientSession = false →
     (∃ b1 s1, configure_mui (started_instance i) (startup_world i w2) = (Ok b1, s1) ∧
        if b1 then
          ∃ b2 s2, configure_plugins (started_instance i) s1 = (Ok b2, s2) ∧
            if b2 then
              ∃ b3 s3, configure_dashboard (started_instance i) s2 = (Ok b3, s3) ∧
                if b3 then
                  ∃ s4, enable_mui s3 = (Ok tt, s4) ∧
                        async_initialize_integration config_entry config w = (Ok true, s4) ∧
                        disabled_reason (system s4) = None
                else async_initialize_integration config_entry config w = (Ok false, s3) ∧
                     disabled_reason (system s3) = Some LOAD_MUI
            else async_initialize_integration config_entry config w = (Ok false, s2) ∧
                 disabled_reason (system s2) = Some LOAD_MUI
        else async_initialize_integration config_entry config w = (Ok false, s1) ∧
             disabled_reason (system s1) = Some LOAD_MUI) ∧
     async_initialize_integration config_entry config w =
       match configure_mui_statements (started_instance i) (startup_world i w2) with
       | (Raised e, sb) => (Ok false, caught e sb)
       | (Ok _, s1) =>
           match configure_plugins_statements (started_instance i) s1 with
           | (Raised e, sb) => (Ok false, caught e sb)
           | (Ok _, s2) =>
               match configure_dashboard_statements (started_instance i) s2 with
               | (Raised e, sb) => (Ok false, caught e sb)
               | (Ok _, s3) => (Ok true, (enable_mui s3).2)
               end
           end
       end ∧
     ∃ b w', async_initialize_integration config_entry config w = (Ok b, w') ∧
             disabled_reason (system w') = if b then None else Some LOAD_MUI) ∧
  (∀ e w1,
     initialize_from_config config (fresh_instance_world w) = (Raised e, w1) →
     async_initialize_integration config_entry config w = (Raised e, w1)) ∧
  (∀ e w1 w2,
     initialize_from_config config (fresh_instance_world w) = (Ok None, w1) →
     initialize_from_config_entry config_entry w1 = (Raised e, w2) →
     async_initialize_integration config_entry config w = (Raised e, w2)) ∧
  (∀ w1 w2,
     initialize_from_config config (fresh_instance_world w) = (Ok None, w1) →
     initialize_from_config_entry config_entry w1 = (Ok None, w2) →
     faults (host w2) GetIntegration = true ∨ integrations (host w2) !! DOMAIN = None ∨
       faults (host w2) GetClientSession = true →
     ∃ c, async_initialize_integration config_entry config w
            = (Raised (HostError c), w2)) ∧
  (∀ c, config = Some c → config_entry = None →
     async_setup c w = async_initialize_integration config_entry config w) ∧
  (∀ ce w0, config = None → config_entry = Some ce →
     faults (host w0) AddUpdateListener = false →
     w = set_host (set_update_listeners (update_listeners (host w0) ++ [entry_id ce])
                     (host w0)) w0 →
     async_setup_entry ce w0 = async_initialize_integration config_entry config w).
Proof.
  split; [intros b w1; apply async_initialize_integration_returns|].
  split; [intros b w1 w2; apply async_initialize_integration_returns_entry|].
  split; [|split; [|split; [|split; [|split]]]].
  - intros w1 w2 i H1 H2 Hf1 Hi Hf2.
    rewrite (async_initialize_integration_starts config_entry config w w1 w2 i)
      by assumption.
    split; [apply async_startup_tree|]. split; [apply async_startup_guarded|].
    apply async_startup_total.
  - intros e w1. apply async_initialize_integration_raises.
  - intros e w1 w2. apply async_initialize_integration_raises_entry.
  - intros w1 w2. apply async_initialize_integration_refused.
  - by intros c -> ->.
  - intros ce w0 -> -> Hf ->. unfold async_setup_entry.
    rewrite run_bind. unfold host_does at 1. rewrite Hf.
    rewrite run_bind. reflexivity.
Qed.

Lemma setup_runs_three_steps_witness :
  ∃ b w', async_initialize_integration None (Some yaml_config) demo_world = (Ok b, w') ∧
          disabled_reason (system w') = if b then None else Some LOAD_MUI.
Proof.
  apply (proj1 (proj2 (proj2 (setup_runs_three_steps_in_order None (Some yaml_config)
                                demo_world)))
           (initialize_from_config (Some yaml_config) (fresh_instance_world demo_world)).2
           (initialize_from_config (Some yaml_config) (fresh_instance_world demo_world)).2
           demo_integration); reflexivity.
Defined.

(** The setup of YAML data that has no [minimalist_ui] key returns [True]
    and runs no step: nothing is logged and no file is touched, while
    [configure_mui] always logs. *)
Lemma setup_without_domain_key_runs_no_step :
  (async_setup ∅ demo_world).1 = Ok true ∧
  log (async_setup ∅ demo_world).2 = [] ∧
  files (async_setup ∅ demo_world).2 = files demo_world ∧
  log (configure_mui demo_mui demo_world).2 ≠ [].
Proof. repeat split. vm_compute. discriminate. Qed.

(** C3, as amended.  Which directories exist decides only what
    [configure_plugins] logs: run on any other file system it has the same
    result and leaves the same system status and host.  It never changes
    the files, the configuration record or [running], and it leaves the
    disabled reason as it was when its statements complete; when they raise
    the exception is logged, the system is disabled for [LOAD_MUI] and the
    check returns [False]. *)
Theorem dependency_check_only_logs_unless_it_raises
    (self : MuiBase) (w : World) (fs : filesystem) :
  (configure_plugins self (set_files fs w)).1 = (configure_plugins self w).1 ∧
  system (configure_plugins self (set_files fs w)).2 = system (configure_plugins self w).2 ∧
  host (configure_plugins self (set_files fs w)).2 = host (configure_plugins self w).2 ∧
  files (configure_plugins self w).2 = files w ∧
  configuration (configure_plugins self w).2 = configuration w ∧
  running (system (configure_plugins self w).2) = running (system w) ∧
  disabled_reason (system (configure_plugins self w).2) =
    match configure_plugins_statements self w with
    | (Ok _, _) => disabled_reason (system w)
    | (Raised _, _) => Some LOAD_MUI
    end ∧
  configure_plugins self w =
    match configure_plugins_statements self w with
    | (Ok _, w') => (Ok true, w')
    | (Raised e, w') =>
        (Ok false, set_disabled_reason (Some LOAD_MUI) (add_log (LogException e) w'))
    end.
Proof.
  destruct (configure_plugins_agrees self (set_files fs w) w) as (Ho & Hs & _ & Hh); [done|].
  split; [exact Ho|]. split; [exact Hs|]. split; [exact Hh|].
  destruct (configure_plugins_total self w) as (b & w' & Hrun).
  destruct (configure_plugins_frame self w b w' Hrun) as (Hf & Hc & _ & Hr & Hd).
  rewrite Hrun. cbn [snd]. split; [exact Hf|]. split; [exact Hc|]. split; [exact Hr|].
  rewrite Hd. rewrite configure_plugins_guarded in Hrun.
  destruct (configure_plugins_statements self w) as [[[]|e] wb]; cbn [step_outcome] in Hrun;
    (split; [by injection Hrun as <- _|symmetry; exact Hrun]).
Qed.

(** The claim C3 fails where the statements of the dependency check raise:
    on a host that refuses to register the static path, and for an
    instance that has no host yet, the check leaves an enabled system
    disabled for [LOAD_MUI]. *)
Lemma dependency_check_can_disable :
  (disabled_reason (system refusing_world) = None ∧
   (configure_plugins demo_mui refusing_world).1 = Ok false ∧
   disabled_reason (system (configure_plugins demo_mui refusing_world).2) = Some LOAD_MUI) ∧
  (disabled_reason (system demo_world) = None ∧
   (configure_plugins MuiBase_new demo_world).1 = Ok false ∧
   disabled_reason (system (configure_plugins MuiBase_new demo_world).2) = Some LOAD_MUI).
Proof. vm_compute. done. Qed.

(** On the demo installation the dependency check completes and leaves the
    system status alone. *)
Example dependency_check_on_demo_world :
  (configure_plugins demo_mui demo_world).1 = Ok true ∧
  system (configure_plugins demo_mui demo_world).2 = system demo_world.
Proof. vm_compute. done. Qed.

(** C4. Each setup step turns the outcome of its statements into a
    boolean: [True] when they complete; when they raise, the exception is
    logged, the system is disabled for [LOAD_MUI] and the step returns
    [False].  No step raises, and neither does [async_startup]: its caller
    gets a boolean. *)
Theorem setup_steps_catch_every_exception (self : MuiBase) (w : World) :
  configure_mui self w = step_outcome (configure_mui_statements self w) ∧
  configure_plugins self w = step_outcome (configure_plugins_statements self w) ∧
  configure_dashboard self w = step_outcome (configure_dashboard_statements self w) ∧
  (∀ e wb, step_outcome (Raised e, wb) = (Ok false, caught e wb) ∧
           disabled_reason (system (caught e wb)) = Some LOAD_MUI ∧
           log (caught e wb) = log wb ++ [LogException e]) ∧
  (∃ b w', async_startup self w = (Ok b, w') ∧
           disabled_reason (system w') = if b then None else Some LOAD_MUI).
Proof.
  split; [apply configure_mui_guarded|]. split; [apply configure_plugins_guarded|].
  split; [apply configure_dashboard_guarded|]. split; [done|].
  apply async_startup_total.
Qed.




(** The same happens when the theme path reaches the dashboard directory
    through [..]; the directory it passes through is made on the way. *)
Example themes_through_parent_overwrite_dashboard_file :
  theme_dir themes_in_dashboard_through_parent_world = ["config"; DOMAIN; "dashboard"] ∧
  theme_walked themes_in_dashboard_through_parent_world = [["config"; "themes"]] ∧
  files themes_in_dashboard_through_parent_world
    !! dashboard_file themes_in_dashboard_through_parent_world
    = Some (EFile "user dashboard") ∧
  (configure_mui demo_mui themes_in_dashboard_through_parent_world).1 = Ok true ∧
  files (configure_mui demo_mui themes_in_dashboard_through_parent_world).2
    !! dashboard_file themes_in_dashboard_through_parent_world
    = Some (EFile "bundled theme") ∧
  files (configure_mui demo_mui themes_in_dashboard_through_parent_world).2
    !! ["config"; "themes"] = Some EDir.
Proof. vm_compute. done. Qed.

(** C6, as amended.  Running [configure_mui] a second time leaves the file
    system exactly as the first run left it, whether or not the runs
    complete, provided the integration is installed under
    [custom_components] of the configuration directory, the theme path is
    written with names only (no [..] or [.] component) and the themes
    directory is neither at, above nor below the bundled dashboard
    directory or the custom-actions directory. *)
Theorem configure_mui_twice (self : MuiBase) (w : World) :
  tree_shaped (files w) →
  standard_layout self w →
  theme_walked w = [] →
  apart (theme_dir w) (config_dir (host w) ++ ["custom_components"; DOMAIN; "dashboard"]) →
  apart (theme_dir w) (config_dir (host w) ++ [DOMAIN; "custom_actions"]) →
  files (configure_mui self (configure_mui self w).2).2 = files (configure_mui self w).2.
Proof.
  intros Hts Hlayout Hwk Hth1 Hth2.
  destruct (hass self) eqn:Hh; [|by rewrite !configure_mui_files_without_hass].
  destruct (configure_mui_keeps_configuration self w) as (Hc & Hcf & _).
  destruct (configure_mui_keeps_theme self w) as [Hth Hwk'].
  rewrite (configure_mui_files self (configure_mui self w).2 Hh) by congruence.
  rewrite Hc, Hcf, Hth.
  rewrite (configure_mui_files self w Hh Hwk).
  set (cfg := config_dir (host w)) in *. set (cf := configuration w) in *.
  set (script := install_script self cfg cf (theme_dir w)).
  destruct (run_ops script (clean_files cfg (files w))) as [r F] eqn:Hrun. cbn [snd].
  assert (run_ops script (clean_files cfg F) = (r, F)) as ->; [|done].
  apply (run_ops_replay script) with (a := clean_files cfg (files w)); [|done|].
  - by apply install_script_apart.
  - apply clean_between; [done|].
    pose proof (run_ops_kind_le script (clean_files cfg (files w))) as H.
    by rewrite Hrun in H.
Qed.

Lemma configure_mui_twice_witness :
  files (configure_mui demo_mui (configure_mui demo_mui demo_world).2).2 =
  files (configure_mui demo_mui demo_world).2.
Proof.
  apply (configure_mui_twice demo_mui demo_world).
  - apply tree_shaped_check_sound.
    apply (bool_decide_unpack (tree_shaped_check (files demo_world))). vm_compute. exact I.
  - intros i Hi. injection Hi as <-. reflexivity.
  - reflexivity.
  - split; vm_compute; intros [k Hk]; discriminate Hk.
  - split; vm_compute; intros [k Hk]; discriminate Hk.
Defined.

(** The claim C6 fails when the themes directory is the custom-actions
    directory: the first run copies the custom actions to the templates and
    then the themes into the custom actions, so the second run copies a
    theme file to the templates that the first run had not put there. *)
Lemma second_run_copies_themes_to_templates :
  (configure_mui demo_mui themes_in_custom_actions_world).1 = Ok true ∧
  (configure_mui demo_mui (configure_mui demo_mui themes_in_custom_actions_world).2).1
    = Ok true ∧
  files (configure_mui demo_mui themes_in_custom_actions_world).2
    !! ["config"; "custom_components"; "minimalist_ui"; "__ui_minimalist__";
        "mui_templates"; "custom_actions"; "minimalist-desktop.yaml"] = None ∧
  files (configure_mui demo_mui (configure_mui demo_mui themes_in_custom_actions_world).2).2
    !! ["config"; "custom_components"; "minimalist_ui"; "__ui_minimalist__";
        "mui_templates"; "custom_actions"; "minimalist-desktop.yaml"]
    = Some (EFile "bundled theme").
Proof. vm_compute. done. Qed.

(** The same happens when the theme path reaches the custom-actions
    directory through [..]. *)
Example second_run_differs_through_parent :
  theme_dir themes_in_custom_actions_through_parent_world
    = ["config"; DOMAIN; "custom_actions"] ∧
  theme_walked themes_in_custom_actions_through_parent_world = [["config"; "themes"]] ∧
  files (configure_mui demo_mui themes_in_custom_actions_through_parent_world).2
    !! ["config"; "custom_components"; "minimalist_ui"; "__ui_minimalist__";
        "mui_templates"; "custom_actions"; "minimalist-desktop.yaml"] = None ∧
  files (configure_mui demo_mui
           (configure_mui demo_mui themes_in_custom_actions_through_parent_world).2).2
    !! ["config"; "custom_components"; "minimalist_ui"; "__ui_minimalist__";
        "mui_templates"; "custom_actions"; "minimalist-desktop.yaml"]
    = Some (EFile "bundled theme").
Proof. vm_compute. done. Qed.

(** A theme path that passes through a directory below the custom-actions
    directory makes that directory after the custom actions have been
    copied, so the second run copies it to the templates; the directory
    the path leads to is apart from the custom-actions directory and from
    the bundle. *)
Example second_run_copies_walked_directory :
  theme_dir themes_through_custom_actions_world = ["config"; DOMAIN; "themes"] ∧
  theme_walked themes_through_custom_actions_world
    = [["config"; DOMAIN; "custom_actions"; "sub"]; ["config"; DOMAIN; "custom_actions"]] ∧
  (configure_mui demo_mui themes_through_custom_actions_world).1 = Ok true ∧
  files (configure_mui demo_mui themes_through_custom_actions_world).2
    !! ["config"; "custom_components"; "minimalist_ui"; "__ui_minimalist__";
        "mui_templates"; "custom_actions"; "sub"] = None ∧
  files (configure_mui demo_mui
           (configure_mui demo_mui themes_through_custom_actions_world).2).2
    !! ["config"; "custom_components"; "minimalist_ui"; "__ui_minimalist__";
        "mui_templates"; "custom_actions"; "sub"] = Some EDir.
Proof. vm_compute. done. Qed.

(** C7. Disabling for the reason the system is already disabled for
    changes nothing, and enabling always leaves the disabled reason
    cleared, whatever it was. *)
Theorem disable_same_reason_is_noop_and_enable_clears
    (self : MuiBase) (w : World) (r : muiDisabledReason) :
  (disabled_reason (system w) = Some r → disable_mui self r w = (Ok tt, w)) ∧
  (∃ w', enable_mui w = (Ok tt, w') ∧ disabled_reason (system w') = None ∧
         disabled (system w') = false).
Proof.
  split; [apply disable_mui_same|].
  rewrite enable_mui_run. eexists; split; [reflexivity|].
  destruct (disabled_reason (system w)) eqn:E; unfold disabled; simpl; rewrite ?E; auto.
Qed.

Lemma disable_same_reason_witness :
  disable_mui demo_mui LOAD_MUI (set_disabled_reason (Some LOAD_MUI) demo_world) =
    (Ok tt, set_disabled_reason (Some LOAD_MUI) demo_world).
Proof.
  apply (proj1 (disable_same_reason_is_noop_and_enable_clears demo_mui
                  (set_disabled_reason (Some LOAD_MUI) demo_world) LOAD_MUI)).
  reflexivity.
Defined.

(** C8, as amended.  [update_from_dict] raises
    [Exception("Configuration is not valid.")] and changes nothing when its
    argument is not a dict.  Given a dict whose keys are attribute names
    other than [__class__], [__dict__], [__weakref__] and [__setattr__], on
    a record that has no instance attribute [__setattr__], it sets every
    key of the dict as an attribute of the record, with the value the dict
    gives, and leaves the other attributes, and the rest of the world, as
    they were. *)
Theorem update_from_dict_rejects_non_mappings_and_merges (data : pyval) (w : World) :
  (is_dict data = false →
     update_from_dict data w = (Raised (PlainException "Configuration is not valid."), w)) ∧
  (∀ d, data = PDict d →
     NoDup d.*1 → plain_items d → configuration w !! "__setattr__" = None →
     ∃ w', update_from_dict data w = (Ok tt, w') ∧
           (∀ k v, (k, v) ∈ d → getattr (configuration w') k = Some v) ∧
           (∀ k, k ∉ d.*1 → configuration w' !! k = configuration w !! k) ∧
           system w' = system w ∧ host w' = host w ∧ files w' = files w ∧ log w' = log w).
Proof.
  split.
  - destruct data; simpl; intros H; try discriminate; reflexivity.
  - intros d -> Hnd Hplain Hs. rewrite update_from_dict_run by assumption.
    eexists; split; [reflexivity|].
    simpl. repeat split.
    + intros k v Hk. apply getattr_instance.
      rewrite foldl_insert_lookup by assumption.
      by rewrite (elem_of_list_to_map_1 d k v Hnd Hk).
    + intros k Hk. by apply merged_outside.
Qed.

Lemma update_from_dict_witness :
  update_from_dict (PInt 3) demo_world =
    (Raised (PlainException "Configuration is not valid."), demo_world) ∧
  ∃ w', update_from_dict (PDict [("theme", PStr "minimalist-mobile")]) demo_world
          = (Ok tt, w') ∧
        getattr (configuration w') "theme" = Some (PStr "minimalist-mobile").
Proof.
  split.
  - apply (proj1 (update_from_dict_rejects_non_mappings_and_merges (PInt 3) demo_world)).
    reflexivity.
  - destruct (proj2 (update_from_dict_rejects_non_mappings_and_merges
                       (PDict [("theme", PStr "minimalist-mobile")]) demo_world)
                [("theme", PStr "minimalist-mobile")] eq_refl) as (w' & Hrun & Hset & _).
    + apply NoDup_singleton.
    + intros k Hk. simpl in Hk. apply elem_of_cons in Hk as [->|Hk].
      * unfold special_names. rewrite !not_elem_of_cons.
        repeat split; [discriminate..|apply not_elem_of_nil].
      * by apply elem_of_nil in Hk.
    + reflexivity.
    + exists w'. split; [exact Hrun|]. apply Hset. constructor.
Defined.

(** A dict with the key [__class__] stops the merge: the keys before it are
    set, the call raises [TypeError], and the keys after it are not set. *)
Lemma update_from_dict_stops_at_class_key :
  (update_from_dict
     (PDict [("theme", PStr "minimalist-mobile"); ("__class__", PInt 1);
             ("language", PStr "de")]) demo_world).1
    = Raised (TypeError "__class__ must be set to a class") ∧
  getattr (configuration (update_from_dict
     (PDict [("theme", PStr "minimalist-mobile"); ("__class__", PInt 1);
             ("language", PStr "de")]) demo_world).2) "theme"
    = Some (PStr "minimalist-mobile") ∧
  getattr (configuration (update_from_dict
     (PDict [("theme", PStr "minimalist-mobile"); ("__class__", PInt 1);
             ("language", PStr "de")]) demo_world).2) "__class__" = None ∧
  getattr (configuration (update_from_dict
     (PDict [("theme", PStr "minimalist-mobile"); ("__class__", PInt 1);
             ("language", PStr "de")]) demo_world).2) "language"
    ≠ Some (PStr "de").
Proof. repeat split. vm_compute. discriminate. Qed.

(** C9, as amended.  When [configure_mui] returns [True] it has fired
    exactly one [minimalist_ui_reload] event, and so has
    [reload_configuration] when it returns; when [reload_configuration]
    raises it has fired none. *)
Theorem reload_event_fired_once_on_completion (self : MuiBase) (w : World) :
  (∀ w', configure_mui self w = (Ok true, w') →
         bus_events (host w') = bus_events (host w) ++ [RELOAD_EVENT]) ∧
  (∀ w', reload_configuration self w = (Ok tt, w') →
         bus_events (host w') = bus_events (host w) ++ [RELOAD_EVENT]) ∧
  (∀ e w', reload_configuration self w = (Raised e, w') →
           bus_events (host w') = bus_events (host w)).
Proof.
  split; [intros w'; apply configure_mui_fires_once|].
  pose proof (reload_configuration_events self (bus_events (host w)) w eq_refl) as H.
  split.
  - intros w' Hrun. by rewrite Hrun in H.
  - intros e w' Hrun. by rewrite Hrun in H.
Qed.

Lemma reload_event_fired_once_witness :
  bus_events (host (configure_mui demo_mui demo_world).2)
    = bus_events (host demo_world) ++ [RELOAD_EVENT] ∧
  bus_events (host (reload_configuration demo_mui (configure_mui demo_mui demo_world).2).2)
    = bus_events (host (configure_mui demo_mui demo_world).2) ++ [RELOAD_EVENT] ∧
  bus_events (host (reload_configuration demo_mui custom_actions_is_a_file_world).2)
    = bus_events (host custom_actions_is_a_file_world).
Proof.
  split; [|split].
  - apply (proj1 (reload_event_fired_once_on_completion demo_mui demo_world)).
    apply run_result. vm_compute. reflexivity.
  - apply (proj1 (proj2 (reload_event_fired_once_on_completion demo_mui
                           (configure_mui demo_mui demo_world).2))).
    apply run_result. vm_compute. reflexivity.
  - apply (proj2 (proj2 (reload_event_fired_once_on_completion demo_mui
                           custom_actions_is_a_file_world))
             (NotADirectoryError ["config"; "minimalist_ui"; "custom_actions"])).
    apply run_raised. vm_compute. reflexivity.
Defined.

(** The claim C9 fails for [reload_configuration] where
    [minimalist_ui/custom_actions] exists as a regular file: [copytree]
    raises, nothing catches it, and no event is fired. *)
Lemma reload_can_raise_without_event :
  (reload_configuration demo_mui custom_actions_is_a_file_world).1
    = Raised (NotADirectoryError ["config"; "minimalist_ui"; "custom_actions"]) ∧
  bus_events (host (reload_configuration demo_mui custom_actions_is_a_file_world).2) = [].
Proof. vm_compute. done. Qed.

(** C10, as amended.  With the host set, [configure_mui] first removes the
    directories [minimalist_ui/configs] and [minimalist_ui/addons] of the
    configuration directory, never failing on them, and does everything
    else in the world so cleaned: nothing at or below either directory
    survives the removal and nothing elsewhere is touched by it.  The same
    holds of [async_startup], whose first step it is. *)
Theorem install_begins_with_cleanup (self : MuiBase) (w : World) :
  hass self = true →
  cleanup self w = (Ok tt, cleaned w) ∧
  configure_mui_body self w = create_and_install self (cleaned w) ∧
  configure_mui self w = configure_mui self (cleaned w) ∧
  async_startup self w = async_startup self (cleaned w) ∧
  (∀ q, is_dir (files w) (configs_dir w) = true → configs_dir w `prefix_of` q →
        files (cleaned w) !! q = None) ∧
  (∀ q, is_dir (files w) (addons_dir w) = true → addons_dir w `prefix_of` q →
        files (cleaned w) !! q = None) ∧
  (∀ q, ¬ configs_dir w `prefix_of` q → ¬ addons_dir w `prefix_of` q →
        files (cleaned w) !! q = files w !! q).
Proof.
  intros Hh. split; [by apply cleanup_run|].
  split. { unfold configure_mui_body. by rewrite run_bind, cleanup_run. }
  split; [by apply configure_mui_cleaned|].
  split; [by apply async_startup_cleaned|].
  split; [intros q; apply cleaned_nothing_below_configs|].
  split; [intros q; apply cleaned_nothing_below_addons|].
  intros q. apply cleaned_elsewhere.
Qed.

Lemma install_begins_with_cleanup_witness :
  configure_mui demo_mui edited_world = configure_mui demo_mui (cleaned edited_world) ∧
  files (cleaned edited_world) !! ["config"; "minimalist_ui"; "configs"; "mine.yaml"] = None.
Proof.
  destruct (install_begins_with_cleanup demo_mui edited_world eq_refl)
    as (_ & _ & Hrun & _ & Hconfigs & _).
  split; [exact Hrun|]. apply Hconfigs.
  - reflexivity.
  - exists ["mine.yaml"]. reflexivity.
Defined.

(** The claim C10 fails for the reload operation, and for a setup that
    returns before the install step: neither removes what the user has put
    under [minimalist_ui/configs]. *)
Lemma reload_keeps_user_configs :
  ((reload_configuration demo_mui edited_world).1 = Ok tt ∧
   files (reload_configuration demo_mui edited_world).2
     !! ["config"; "minimalist_ui"; "configs"; "mine.yaml"] = Some (EFile "user config")) ∧
  ((async_setup ∅ edited_world).1 = Ok true ∧
   files (async_setup ∅ edited_world).2
     !! ["config"; "minimalist_ui"; "configs"; "mine.yaml"] = Some (EFile "user config")).
Proof. vm_compute. done. Qed.

(** The install step itself does remove it. *)
Example install_removes_user_configs :
  (configure_mui demo_mui edited_world).1 = Ok true ∧
  files (configure_mui demo_mui edited_world).2
    !! ["config"; "minimalist_ui"; "configs"; "mine.yaml"] = None ∧
  files (configure_mui demo_mui edited_world).2
    !! ["config"; "minimalist_ui"; "configs"] = None.
Proof. vm_compute. done. Qed.

(** The whole setup succeeds on the demo installation and leaves the
    system enabled. *)
Example setup_of_demo_world :
  (initialize_and_start demo_world).1 = Ok true ∧
  disabled_reason (system (initialize_and_start demo_world).2) = None ∧
  bus_events (host (initialize_and_start demo_world).2) = [RELOAD_EVENT].
Proof. vm_compute. done. Qed.
